(** * PostEventSummary: the geometry, ranking and contour-selection core

    A shallow embedding of the parts of [bin/EQCalculations.py],
    [bin/PyCities.py], [bin/ShakeAlertParser.py], [bin/PDFCreate.py] and
    [bin/PyEventImage.py] that the specification talks about, with the
    properties of the specification stated and settled against it.

    Conventions.
    - Python exceptions are values of [exn]; a fallible function returns
      [result A], and [result] is a monad ([x ← r; k]).
    - Python floats that are only compared, added, subtracted, multiplied
      and divided are modelled by the rationals they denote ([Q]); the
      alert-circle computation, whose result depends on binary64 rounding
      and on [math.sqrt], is modelled with Rocq's primitive binary64 floats.
    - A [dict] whose iteration order matters is an association list in
      insertion order; a list updated by index uses stdpp's [<[i:=x]>]. *)

From stdpp Require Import base option list strings numbers gmap.
From Stdlib Require Import QArith Qabs Qround Lqa Floats DecimalString DecimalPos Ascii.
From Stdlib Require Import Sorting.Sorted Sorting.Permutation.

Close Scope Q_scope.
Set Warnings "-inexact-float".

(** ** Exceptions and results *)

Inductive exn : Type :=
| ValueError
| IndexError
| KeyError
| ZeroDivisionError
| UnboundLocalError
| TypeError
| OverflowError.

Inductive result (A : Type) : Type :=
| Ok (a : A)
| Raise (e : exn).

Arguments Ok {A} a.
Arguments Raise {A} e.

#[global] Instance result_ret : MRet result := fun A a => Ok a.
#[global] Instance result_fmap : FMap result := fun A B f r =>
  match r with
  | Ok a => Ok (f a)
  | Raise e => Raise e
  end.
#[global] Instance result_bind : MBind result := fun A B k r =>
  match r with
  | Ok a => k a
  | Raise e => Raise e
  end.

(** A [for] loop whose body may raise: the state is threaded through the
    items in order and the first exception ends the loop. *)
Fixpoint for_each {S I : Type} (body : S -> I -> result S) (items : list I) (s : S)
    : result S :=
  match items with
  | [] => Ok s
  | i :: items' => s' ← body s i; for_each body items' s'
  end.

(** Comparisons of Python floats, on the rationals they denote. *)
Definition Qltb (a b : Q) : bool := negb (Qle_bool b a).

(** [min(a, b)] and [max(a, b)]: the first argument unless the second is
    strictly smaller (larger). *)
Definition py_min (a b : Q) : Q := if Qltb b a then b else a.
Definition py_max (a b : Q) : Q := if Qltb a b then b else a.

(** [a / b] on floats raises [ZeroDivisionError] when [b] is zero. *)
Definition py_div (a b : Q) : result Q :=
  if Qeq_bool b 0 then Raise ZeroDivisionError else Ok (a / b)%Q.

(** ** [PyEventImage.get_alert_circle_params] *)

Module PyEventImage.

Open Scope float_scope.

(** [dict.fromkeys(keys, v)] and [d[k] = v] on a dict with float keys, kept
    in insertion order. *)
Fixpoint dict_set (d : list (float * float)) (k v : float) : list (float * float) :=
  match d with
  | [] => [(k, v)]
  | (k', v') :: d' =>
      if PrimFloat.eqb k' k then (k', v) :: d' else (k', v') :: dict_set d' k v
  end.

Definition fromkeys (keys : list float) (v : float) : list (float * float) :=
  fold_left (fun d k => dict_set d k v) keys [].

(** [x ** 2] on a float, which the C library's [pow(x, 2.0)] computes, is
    taken to be the correctly rounded square, the product [x * x]; the
    interpreter raises [OverflowError] when the square of a finite [x] is
    infinite. *)
Definition sq (x : float) : result float :=
  let y := x * x in
  if PrimFloat.is_finite x && PrimFloat.is_infinity y then Raise OverflowError
  else Ok y.

(** [math.sqrt(x)]: [ValueError] below zero (minus infinity included); a NaN
    and a zero of either sign pass through. *)
Definition py_sqrt (x : float) : result float :=
  if x <? 0.0 then Raise ValueError else Ok (PrimFloat.sqrt x).

Definition radii_show (init_sa_mag : float) : list float :=
  if init_sa_mag <? 6.0 then [0.0; 10.0; 20.0] else [0.0; 10.0; 20.0; 30.0].

(** The value stored for one duration: the body of the loop. *)
Definition circle_radius (init_sa_to_anss_dt s_wave_velocity anss_depth
    circle_radii_m : float) : result float :=
  if anss_depth <? (init_sa_to_anss_dt + circle_radii_m) * s_wave_velocity
  then
    front ← sq ((init_sa_to_anss_dt + circle_radii_m) * s_wave_velocity);
    depth ← sq anss_depth;
    root ← py_sqrt (front - depth);
    Ok (root * 1000.0)
  else Ok 0.0.

Definition get_alert_circle_params
    (init_sa_mag init_sa_to_anss_dt s_wave_velocity anss_depth : float)
    : result (list (float * float)) :=
  let alert_t_radii := fromkeys (radii_show init_sa_mag) 0.0 in
  for_each
    (fun d circle_radii_m =>
       radius ← circle_radius init_sa_to_anss_dt s_wave_velocity anss_depth
                  circle_radii_m;
       Ok (dict_set d circle_radii_m radius))
    (radii_show init_sa_mag) alert_t_radii.

(** The exact rational value of a finite float. *)
Definition float_to_Q (f : float) : option Q :=
  match Prim2SF f with
  | S754_zero _ => Some 0%Q
  | S754_finite s m e =>
      Some ((if s then (-1) else 1) * inject_Z (Zpos m) * Qpower 2 e)%Q
  | _ => None
  end.

(** Python's [int(r)] on a finite float: truncation toward zero. *)
Definition py_int (f : float) : option Z :=
  match float_to_Q f with
  | Some q => Some (Z.quot (Qnum q) (Zpos (Qden q)))
  | None => None
  end.

(** [n] is a nearest integer to [f]. *)
Definition nearest_integer (f : float) (n : Z) : Prop :=
  match float_to_Q f with
  | Some q => (Qabs (q - inject_Z n) <= 1 # 2)%Q
  | None => False
  end.

Definition keys (d : list (float * float)) : list float := map fst d.
Definition values (d : list (float * float)) : list float := map snd d.

(** The arguments of the M5 event of 2023-01-01 used by
    [test_get_alert_circle_params]. *)
Definition test_radii : result (list (float * float)) :=
  get_alert_circle_params 5.3 7.971 3.55 27.77.

End PyEventImage.

(** ** [EQCalculations]: point in polygon and intensity lookup *)

Module EQCalculations.

(** A polygon vertex [(x, y)]. *)
Abbreviation vertex := (Q * Q)%type.

(** The local variables of [point_in_poly] that the loop updates.
    [xints] is [None] while the variable is unbound.  [divisions] is not a
    variable of the program: it records, in order, the edge [(p1, p2)] at
    which the division of the crossing computation was executed. *)
Record pip_state : Type := PipState {
  inside : bool;
  p1 : vertex;
  xints : option Q;
  divisions : list (vertex * vertex)
}.

Definition flip_inside (st : pip_state) : pip_state :=
  PipState (negb (inside st)) (p1 st) (xints st) (divisions st).

(** [xints = (y-p1y)*(p2x-p1x)/(p2y-p1y)+p1x] *)
Definition compute_xints (y : Q) (p2 : vertex) (st : pip_state) : result pip_state :=
  let '(p1x, p1y) := p1 st in
  let '(p2x, p2y) := p2 in
  q ← py_div ((y - p1y) * (p2x - p1x))%Q (p2y - p1y)%Q;
  Ok (PipState (inside st) (p1 st) (Some (q + p1x)%Q)
        (divisions st ++ [(p1 st, p2)])).

(** The body of [for i in range(n+1)]. *)
Definition pip_body (x y : Q) (poly : list vertex) (st : pip_state) (i : nat)
    : result pip_state :=
  match poly !! (i `mod` length poly)%nat with
  | None => Raise IndexError
  | Some p2 =>
      let '(p1x, p1y) := p1 st in
      let '(p2x, p2y) := p2 in
      st' ←
        (if Qltb (py_min p1y p2y) y then
           if Qle_bool y (py_max p1y p2y) then
             if Qle_bool x (py_max p1x p2x) then
               st1 ← (if negb (Qeq_bool p1y p2y)
                      then compute_xints y p2 st
                      else Ok st);
               if Qeq_bool p1x p2x then Ok (flip_inside st1)
               else
                 match xints st1 with
                 | None => Raise UnboundLocalError
                 | Some xi =>
                     if Qle_bool x xi then Ok (flip_inside st1) else Ok st1
                 end
             else Ok st
           else Ok st
         else Ok st);
      Ok (PipState (inside st') p2 (xints st') (divisions st'))
  end.

(** [point_in_poly] together with the edges at which it divided. *)
Definition point_in_poly_run (x y : Q) (poly : list vertex) : result pip_state :=
  match poly with
  | [] => Raise IndexError
  | p0 :: _ =>
      for_each (pip_body x y poly) (seq 0 (length poly + 1))
        (PipState false p0 None [])
  end.

Definition point_in_poly (x y : Q) (poly : list vertex) : result bool :=
  st ← point_in_poly_run x y poly; Ok (inside st).

(** A value returned by [getIntensityLevel]: the integer MMI of the list,
    or a string. *)
Inductive pyval : Type :=
| PyInt (z : Z)
| PyStr (s : string).

Definition intensityRomanNumeral (MMI : Z) : pyval :=
  if (MMI =? 1)%Z then PyStr "<II"
  else if (MMI =? 2)%Z then PyStr "II"
  else if (MMI =? 3)%Z then PyStr "III"
  else if (MMI =? 4)%Z then PyStr "IV"
  else if (MMI =? 5)%Z then PyStr "V"
  else if (MMI =? 6)%Z then PyStr "VI"
  else if (MMI =? 7)%Z then PyStr "VII"
  else if (MMI =? 8)%Z then PyStr "VIII"
  else if (MMI =? 9)%Z then PyStr "IX"
  else if (MMI =? 10)%Z then PyStr "X"
  else PyInt MMI.

(** The polygon string ["lat,lon lat,lon ..."] of an [MMIlist] entry is
    represented by the [(lat, lon)] pairs it denotes; the loop over
    [polygon_coords.split(' ')] turns each into the vertex [(lon, lat)].  A
    string that the loop can parse denotes at least one pair. *)
Abbreviation polygon_coords := (list (Q * Q)).

Definition to_polygon (coords : polygon_coords) : list vertex :=
  map (fun latlon => (snd latlon, fst latlon)) coords.

(** [getIntensityLevel(MMIlist, lat, lon, getRomanNum)].  The variable
    [intensity] is never assigned, so the code after the loop always returns
    the sentinel. *)
Fixpoint getIntensityLevel (MMIlist : list (Z * polygon_coords)) (lat lon : Q)
    (getRomanNum : bool) : result pyval :=
  match MMIlist with
  | [] => Ok (if getRomanNum then PyStr "<II" else PyStr "1")
  | (MMIval, coords) :: rest =>
      hit ← point_in_poly lon lat (to_polygon coords);
      if hit : bool then
        Ok (if getRomanNum then intensityRomanNumeral MMIval else PyInt MMIval)
      else getIntensityLevel rest lat lon getRomanNum
  end.

End EQCalculations.

(** ** [datetime.datetime] and [EQCalculations.getTimeDelta] *)

Module PyDatetime.

Record datetime : Type := MkDatetime {
  year : Z;
  month : Z;
  day : Z;
  hour : Z;
  minute : Z;
  second : Z;
  microsecond : Z
}.

Definition is_leap (y : Z) : bool :=
  ((y mod 4 =? 0) && (negb (y mod 100 =? 0) || (y mod 400 =? 0)))%Z.

Definition days_in_month (y m : Z) : Z :=
  if (m =? 2)%Z then (if is_leap y then 29 else 28)%Z
  else if ((m =? 4) || (m =? 6) || (m =? 9) || (m =? 11))%Z then 30%Z
  else 31%Z.

Definition days_before_year (y : Z) : Z :=
  let y1 := (y - 1)%Z in
  (y1 * 365 + y1 / 4 - y1 / 100 + y1 / 400)%Z.

Definition days_before_month (y m : Z) : Z :=
  foldr Z.add 0%Z
    (map (days_in_month y) (map Z.of_nat (seq 1 (Z.to_nat (m - 1))))).

(** [date.toordinal()] *)
Definition toordinal (t : datetime) : Z :=
  (days_before_year (year t) + days_before_month (year t) (month t) + day t)%Z.

(** The microseconds from the start of day 0 to [t]. *)
Definition to_microseconds (t : datetime) : Z :=
  ((((toordinal t * 24 + hour t) * 60 + minute t) * 60 + second t) * 1000000
   + microsecond t)%Z.

(** [(a - b).total_seconds()], as the rational it denotes. *)
Definition total_seconds_between (a b : datetime) : Q :=
  (to_microseconds a - to_microseconds b) # 1000000.

(** *** A model of [datetime.strptime]

    The format is turned into a pattern as CPython's [_strptime] does: a
    run of whitespace matches one or more whitespace characters, a
    directive matches the alternatives of its regular expression in their
    order, any other character matches itself without regard to case.  The
    pattern must match a prefix of the string, and the first match found
    must end at the end of the string.  The directives are those of the
    three formats of [getTimeDelta]. *)

Inductive token : Type :=
| Lit (c : ascii)
| Spaces
| Directive (c : ascii).

Definition is_space (c : ascii) : bool :=
  let n := nat_of_ascii c in
  (n =? 32)%nat || ((9 <=? n)%nat && (n <=? 13)%nat).

Definition digit (c : ascii) : option Z :=
  let n := Z.of_nat (nat_of_ascii c) in
  if ((48 <=? n) && (n <=? 57))%Z then Some (n - 48)%Z else None.

Definition lower (c : ascii) : ascii :=
  let n := nat_of_ascii c in
  if ((65 <=? n)%nat && (n <=? 90)%nat) then ascii_of_nat (n + 32) else c.

Fixpoint tokenize (in_space : bool) (fmt : string) : list token :=
  match fmt with
  | EmptyString => []
  | String c rest =>
      if is_space c then
        if in_space then tokenize true rest else Spaces :: tokenize true rest
      else if Ascii.eqb c "%" then
        match rest with
        | String d rest' => Directive d :: tokenize false rest'
        | EmptyString => [Directive "%"]
        end
      else Lit c :: tokenize false rest
  end.

(** The ways an alternative can match at the start of [s]: the value read
    and the rest of the string. *)
Definition alt2 (p : Z -> Z -> bool) (s : string) : list (Z * string) :=
  match s with
  | String a (String b r) =>
      match digit a, digit b with
      | Some x, Some y => if p x y then [((10 * x + y)%Z, r)] else []
      | _, _ => []
      end
  | _ => []
  end.

Definition alt1 (p : Z -> bool) (s : string) : list (Z * string) :=
  match s with
  | String a r =>
      match digit a with
      | Some x => if p x then [(x, r)] else []
      | None => []
      end
  | _ => []
  end.

Definition alt_space_digit (s : string) : list (Z * string) :=
  match s with
  | String a r => if Ascii.eqb a " " then alt1 (fun x => (1 <=? x)%Z) r else []
  | _ => []
  end.

(** [[0-9]{1,6}], longest first, read as microseconds. *)
Fixpoint fraction (n : nat) (value : Z) (s : string) : list (Z * string) :=
  match n with
  | O => []
  | S n' =>
      match s with
      | String a r =>
          match digit a with
          | Some x =>
              let value' := (value + x * 10 ^ Z.of_nat n')%Z in
              fraction n' value' r ++ [(value', r)]
          | None => []
          end
      | _ => []
      end
  end.

Definition four_digits (s : string) : list (Z * string) :=
  match s with
  | String a (String b (String c (String d r))) =>
      match digit a, digit b, digit c, digit d with
      | Some w, Some x, Some y, Some z =>
          [((1000 * w + 100 * x + 10 * y + z)%Z, r)]
      | _, _, _, _ => []
      end
  | _ => []
  end.

Definition directive_matches (d : ascii) (s : string) : list (Z * string) :=
  if Ascii.eqb d "Y" then four_digits s
  else if Ascii.eqb d "m" then
    alt2 (fun x y => (x =? 1) && (y <=? 2))%Z s
    ++ alt2 (fun x y => (x =? 0) && (1 <=? y))%Z s
    ++ alt1 (fun x => (1 <=? x)%Z) s
  else if Ascii.eqb d "d" then
    alt2 (fun x y => (x =? 3) && (y <=? 1))%Z s
    ++ alt2 (fun x y => (1 <=? x) && (x <=? 2))%Z s
    ++ alt2 (fun x y => (x =? 0) && (1 <=? y))%Z s
    ++ alt1 (fun x => (1 <=? x)%Z) s
    ++ alt_space_digit s
  else if Ascii.eqb d "H" then
    alt2 (fun x y => (x =? 2) && (y <=? 3))%Z s
    ++ alt2 (fun x y => (x <=? 1))%Z s
    ++ alt1 (fun x => true) s
  else if Ascii.eqb d "M" then
    alt2 (fun x y => (x <=? 5))%Z s ++ alt1 (fun x => true) s
  else if Ascii.eqb d "S" then
    alt2 (fun x y => (x =? 6) && (y <=? 1))%Z s
    ++ alt2 (fun x y => (x <=? 5))%Z s
    ++ alt1 (fun x => true) s
  else if Ascii.eqb d "f" then fraction 6 0 s
  else [].

Definition set_field (d : ascii) (v : Z) (t : datetime) : datetime :=
  if Ascii.eqb d "Y" then MkDatetime v (month t) (day t) (hour t) (minute t) (second t) (microsecond t)
  else if Ascii.eqb d "m" then MkDatetime (year t) v (day t) (hour t) (minute t) (second t) (microsecond t)
  else if Ascii.eqb d "d" then MkDatetime (year t) (month t) v (hour t) (minute t) (second t) (microsecond t)
  else if Ascii.eqb d "H" then MkDatetime (year t) (month t) (day t) v (minute t) (second t) (microsecond t)
  else if Ascii.eqb d "M" then MkDatetime (year t) (month t) (day t) (hour t) v (second t) (microsecond t)
  else if Ascii.eqb d "S" then MkDatetime (year t) (month t) (day t) (hour t) (minute t) v (microsecond t)
  else MkDatetime (year t) (month t) (day t) (hour t) (minute t) (second t) v.

(** The suffixes left by [\s+], longest run first. *)
Fixpoint after_spaces (s : string) : list string :=
  match s with
  | String c r => if is_space c then after_spaces r ++ [r] else []
  | EmptyString => []
  end.

Fixpoint first_match {A B : Type} (f : A -> option B) (l : list A) : option B :=
  match l with
  | [] => None
  | a :: l' => match f a with Some b => Some b | None => first_match f l' end
  end.

(** The first match of the pattern at the start of [s], by backtracking:
    the fields read and the unmatched rest. *)
Fixpoint match_tokens (toks : list token) (s : string) (t : datetime)
    : option (datetime * string) :=
  match toks with
  | [] => Some (t, s)
  | Lit c :: toks' =>
      match s with
      | String c' r =>
          if Ascii.eqb (lower c) (lower c') then match_tokens toks' r t else None
      | EmptyString => None
      end
  | Spaces :: toks' =>
      first_match (fun r => match_tokens toks' r t) (after_spaces s)
  | Directive d :: toks' =>
      first_match (fun vr => match_tokens toks' (snd vr) (set_field d (fst vr) t))
        (directive_matches d s)
  end.

(** [datetime.strptime(data_string, format)]; every failure is a
    [ValueError]. *)
Definition strptime (data_string format : string) : result datetime :=
  match match_tokens (tokenize false format) data_string
          (MkDatetime 1900 1 1 0 0 0 0) with
  | Some (t, EmptyString) =>
      if ((1 <=? year t) && (day t <=? days_in_month (year t) (month t))
          && (second t <=? 59))%Z
      then Ok t else Raise ValueError
  | _ => Raise ValueError
  end.

End PyDatetime.

Module TimeDelta.
Import PyDatetime.

(** [needle in s] *)
Fixpoint str_in (needle s : string) : bool :=
  String.prefix needle s ||
  match s with
  | EmptyString => false
  | String _ s' => str_in needle s'
  end.

Definition FMT1 : string := "%Y-%m-%dT%H:%M:%S.%f".
Definition FMT2 : string := "%Y-%m-%d %H:%M:%S.%f".
Definition FMT3 : string := "%Y-%m-%d %H:%M:%S.%f (UTC)".

Section GetTimeDelta.
(** [datetime.datetime.strptime] *)
Variable strptime : string -> string -> result datetime.

(** [getTimeDelta(alert_time, origin_time)].  [atime] and [otime] are
    [None] while unbound. *)
Definition getTimeDelta (alert_time origin_time : string) : result Q :=
  let alert_time :=
    if negb (str_in "." alert_time) then alert_time +:+ ".000" else alert_time in
  let origin_time :=
    if negb (str_in "." origin_time) then origin_time +:+ ".000" else origin_time in
  atime ←
    (if str_in "UTC" alert_time then Some <$> strptime alert_time FMT3
     else if str_in "T" alert_time then Some <$> strptime alert_time FMT1
     else if str_in " " alert_time then Some <$> strptime alert_time FMT2
     else Ok None);
  otime ←
    (if str_in "UTC" origin_time then Some <$> strptime origin_time FMT3
     else if str_in "T" origin_time then Some <$> strptime origin_time FMT1
     else if str_in " " origin_time then Some <$> strptime origin_time FMT2
     else Ok None);
  match atime, otime with
  | Some atime, Some otime => Ok (total_seconds_between atime otime)
  | _, _ => Raise UnboundLocalError
  end.

End GetTimeDelta.

End TimeDelta.

(** ** [ShakeAlertParser]: contours, thresholds and display selection *)

Module ShakeAlertParser.

(** *** [Coord] and [GMContour] *)

Section Contours.
(** The type of a coordinate field: annotated [float], and in fact the
    strings that [parse_gm_contours] cuts out of the polygon string at each
    comma.  Only [==] and [!=] are used on it. *)
Context {V : Type} `{EqDecision V}.

Record Coord : Type := MkCoord { lat : V; lon : V }.

(** [Coord.__ne__] *)
Definition Coord_ne (self other : Coord) : bool :=
  bool_decide (lat self <> lat other) || bool_decide (lon self <> lon other).

Record GMContour : Type := MkGMContour {
  mmi : Z;
  polygon : list Coord;
  pga : option Q;
  pgv : option Q
}.

(** [GMContour.__init__]: [polygon[0]] and [polygon[-1]] raise
    [IndexError] on an empty list. *)
Definition GMContour_init (mmi : Z) (polygon : list Coord) (pga pgv : option Q)
    : result GMContour :=
  match polygon !! 0%nat, last polygon with
  | Some first, Some final =>
      if Coord_ne first final then Raise ValueError
      else Ok (MkGMContour mmi polygon pga pgv)
  | _, _ => Raise IndexError
  end.

End Contours.

Arguments Coord V : clear implicits.
Arguments GMContour V : clear implicits.

(** *** [Get_polygons] *)

(** [str(MMI)] for an integer [MMI]. *)
Definition py_str (z : Z) : string :=
  DecimalString.NilZero.string_of_int (Z.to_int z).

(** [s[:1]] *)
Definition first_char (s : string) : string :=
  match s with
  | EmptyString => EmptyString
  | String c _ => String c EmptyString
  end.

Definition digit_of_ascii (c : ascii) : option Z :=
  let n := Z.of_nat (nat_of_ascii c) in
  if ((48 <=? n) && (n <=? 57))%Z then Some (n - 48)%Z else None.

(** [int(s)] for a string of at most one character, which is all the code
    applies it to: a decimal digit converts, anything else (the empty
    string, a sign, a letter) raises [ValueError]. *)
Definition py_int_of_char (s : string) : result Z :=
  match s with
  | String c EmptyString =>
      match digit_of_ascii c with
      | Some d => Ok d
      | None => Raise ValueError
      end
  | _ => Raise ValueError
  end.

(** [int(str(MMI)[:1])], the MMI that the parser records for a contour. *)
Definition truncated_mmi (MMI : Z) : result Z :=
  py_int_of_char (first_char (py_str MMI)).

(** One element of the JSON list [ground_motion_contours], as far as
    [Get_polygons] reads it; [P] is the type of the polygon string, which
    [Get_polygons] does not inspect. *)
Record contour_json (P : Type) : Type := MkContourJson {
  json_mmi : Z;
  json_polygon : P
}.
Arguments MkContourJson {P} _ _.
Arguments json_mmi {P} _.
Arguments json_polygon {P} _.

Section GetPolygons.
Context {P : Type}.

(** [sorted(allMMIpolys, key=lambda x: x[0], reverse=True)]: a stable sort,
    greatest key first, elements with equal keys in their original order. *)
Fixpoint insert_desc (x : Z * P) (l : list (Z * P)) : list (Z * P) :=
  match l with
  | [] => [x]
  | y :: l' =>
      if (fst y <=? fst x)%Z then x :: y :: l' else y :: insert_desc x l'
  end.

Definition sorted_desc (l : list (Z * P)) : list (Z * P) :=
  foldr insert_desc [] l.

(** The loop that fills [allMMIpolys]. *)
Definition collect_polys (gm_contours : list (contour_json P))
    : result (list (Z * P)) :=
  for_each
    (fun allMMIpolys contour =>
       MMIval ← truncated_mmi (json_mmi contour);
       Ok (allMMIpolys ++ [(MMIval, json_polygon contour)]))
    gm_contours [].

Definition Get_polygons (gm_contours : list (contour_json P))
    : result (list (Z * P)) :=
  allMMIpolys ← collect_polys gm_contours;
  Ok (sorted_desc allMMIpolys).

(** *** The threshold decision of [ParseJSONContent] *)

(** The [THRESHOLDS] section of the configuration file. *)
Record config : Type := MkConfig {
  MagMapChange : Q;
  MMISmall : Z;
  MMIAlert : Z
}.

(** The module-level variable [MMItoUse] as the module is loaded. *)
Definition MMItoUse_at_load (cfg : config) : Z := MMIAlert cfg.

(** [if(ANSSmag and float(ANSSmag) < MagMapChange): MMItoUse = MMISmall
     elif float(initial_mag) < MagMapChange: MMItoUse = MMISmall]
    on the current value [g] of the global. *)
Definition decide_MMItoUse (cfg : config) (g : Z) (ANSSmag : option Q)
    (initial_mag : Q) : Z :=
  if match ANSSmag with
     | Some a => Qltb a (MagMapChange cfg)
     | None => false
     end
  then MMISmall cfg
  else if Qltb initial_mag (MagMapChange cfg) then MMISmall cfg
  else g.

(** [mmi_x[m[0]] = m[1]] for every [m], in order. *)
Definition dict_of (MMIlist : list (Z * P)) : gmap Z P :=
  foldl (fun d m => <[fst m := snd m]> d) ∅ MMIlist.

(** [min(mmis)]: [ValueError] on an empty sequence. *)
Definition py_min_list (l : list Z) : result Z :=
  match l with
  | [] => Raise ValueError
  | x :: l' => Ok (foldl Z.min x l')
  end.

End GetPolygons.

End ShakeAlertParser.

(** ** [PDFCreate.GMContourFilter] *)

Module PDFCreate.

Record GMContourFilter : Type := MkGMContourFilter {
  mag_threshold : Q;
  min_mmi_small_event : Q;
  min_mmi_large_event : Q
}.

(** [meets_contour_criteria], on the MMI of the contour. *)
Definition meets_contour_criteria (self : GMContourFilter) (mmi : Z)
    (event_mag : Q) : bool :=
  if Qle_bool (mag_threshold self) event_mag
  then Qle_bool (min_mmi_large_event self) (inject_Z mmi)
  else Qle_bool (min_mmi_small_event self) (inject_Z mmi).

(** [filter_gm_contours] on anything that carries an MMI. *)
Definition filter_gm_contours {C : Type} (mmi_of : C -> Z)
    (self : GMContourFilter) (gm_contours : list C) (event_mag : Q) : list C :=
  List.filter (fun contour => meets_contour_criteria self (mmi_of contour) event_mag)
    gm_contours.

End PDFCreate.

(** ** [PyCities]: the nearest city of each requested category *)

Module PyCities.

(** [int(q)] on a float: truncation toward zero. *)
Definition py_int_Q (q : Q) : Z := Z.quot (Qnum q) (Zpos (Qden q)).

(** [q % 360] on floats: the result has the sign of the divisor. *)
Definition py_mod_360 (q : Q) : Q :=
  (q - 360 * inject_Z (Qfloor (q / 360)))%Q.

(** [l[i]] with Python's negative indices. *)
Definition py_list_get {A : Type} (l : list A) (i : Z) : result A :=
  let n := Z.of_nat (length l) in
  let j := if (i <? 0)%Z then (i + n)%Z else i in
  if (j <? 0)%Z then Raise IndexError
  else match l !! Z.to_nat j with
       | Some a => Ok a
       | None => Raise IndexError
       end.

Definition bearings : list string :=
  ["NE"; "E"; "SE"; "S"; "SW"; "W"; "NW"; "N"].

Definition get_compass_direction (compass_bearing_degrees : Q) : result string :=
  let index := (compass_bearing_degrees - (45 # 2))%Q in
  let index := if Qltb index 0 then (index + 360)%Q else index in
  let index := py_int_Q (index / 45) in
  py_list_get bearings index.

(** An entry of [self.cities] and an entry of the dictionary that
    [getCityList] returns. *)
Record city_values : Type := MkCity {
  lat : Q;
  lon : Q;
  population : Z;
  category : string
}.

Record city_info : Type := MkCityInfo {
  info_lat : Q;
  info_lon : Q;
  info_category : string;
  distance : Q;
  time : Q;
  bearing : string
}.

(** Dictionaries with string keys, in insertion order: [d[k]] and
    [d[k] = v]. *)
Fixpoint dict_get {A : Type} (d : list (string * A)) (k : string) : result A :=
  match d with
  | [] => Raise KeyError
  | (k', v) :: d' => if decide (k' = k) then Ok v else dict_get d' k
  end.

Fixpoint dict_set {A : Type} (d : list (string * A)) (k : string) (v : A)
    : list (string * A) :=
  match d with
  | [] => [(k, v)]
  | (k', v') :: d' =>
      if decide (k' = k) then (k', v) :: d' else (k', v') :: dict_set d' k v
  end.

(** The lists [nearest_cities] and [distances]. *)
Record selection : Type := MkSelection {
  nearest_cities : list (option string);
  distances : list Q
}.

Section Catalog.
(** The functions of [math] are not computed: [distanceBetween] (the
    haversine distance in km), [math.sqrt], and the angle
    [math.degrees(math.atan2(x, y))] of the bearing computation are taken as
    they are. *)
Variable distanceBetween : Q -> Q -> Q -> Q -> Q.
Variable sqrt : Q -> Q.
Variable initial_bearing : Q * Q -> Q * Q -> Q.

(** [self.cities] *)
Variable cities : list (string * city_values).

Definition calculate_initial_compass_bearing (pointA pointB : Q * Q) : Q :=
  py_mod_360 (initial_bearing pointA pointB + 360)%Q.

(** [any(categories[i] == category and nearest_cities[i] == city
         for i in range(index))] *)
Definition excluded (categories : list string) (st : selection)
    (category city : string) (index : nat) : bool :=
  existsb
    (fun i => bool_decide (categories !! i = Some category)
              && bool_decide (nearest_cities st !! i = Some (Some city)))
    (seq 0 index).

(** The body of the loop over [zip(categories, nearest_cities, distances)]
    for one city, at position [index]. *)
Definition scan_slot (lat lon : Q) (categories : list string)
    (city : string) (values : city_values) (st : selection) (index : nat)
    : selection :=
  match categories !! index, distances st !! index with
  | Some cat, Some dist =>
      if decide (cat = category values) then
        let dist_to_city :=
          distanceBetween lat lon (PyCities.lat values) (PyCities.lon values) in
        if Qltb dist_to_city dist then
          if excluded categories st cat city index then st
          else MkSelection (<[index := Some city]> (nearest_cities st))
                           (<[index := dist_to_city]> (distances st))
        else st
      else st
  | _, _ => st
  end.

Definition scan_city (lat lon : Q) (categories : list string)
    (st : selection) (entry : string * city_values) : selection :=
  foldl (scan_slot lat lon categories (fst entry) (snd entry)) st
    (seq 0 (length categories)).

(** The first half of [getCityList]: the selection of a city per slot. *)
Definition select_cities (lat lon : Q) (categories : list string) : selection :=
  foldl (scan_city lat lon categories)
    (MkSelection (replicate (length categories) None)
                 (replicate (length categories) 1000000%Q))
    cities.

(** The body of the second loop: the entry of one slot. *)
Definition add_city (lat lon depth time_delta : Q)
    (result_cities : list (string * city_info))
    (slot : string * (option string * Q)) : result (list (string * city_info)) :=
  let '(cat, (nearest_city, dist)) := slot in
  let slant_dist := sqrt (depth * depth + dist * dist)%Q in
  let s_tt := (slant_dist / (355 # 100))%Q in
  let city_time_delta := py_max (s_tt - time_delta)%Q 0%Q in
  match nearest_city with
  | None => Raise KeyError
  | Some name =>
      values ← dict_get cities name;
      let city_lat := PyCities.lat values in
      let city_lon := PyCities.lon values in
      let initial := calculate_initial_compass_bearing (city_lat, city_lon) (lat, lon) in
      compass_bearing ← get_compass_direction initial;
      Ok (dict_set result_cities name
            (MkCityInfo city_lat city_lon cat dist city_time_delta compass_bearing))
  end.

Definition getCityList (lat lon depth : Q) (categories : list string)
    (time_delta : Q) : result (list (string * city_info)) :=
  let st := select_cities lat lon categories in
  for_each (add_city lat lon depth time_delta)
    (zip categories (zip (nearest_cities st) (distances st))) [].

(** The city step of [finalizeShakeAlertValues], up to the bubble sort:
    the request for C,B,B,A and the promotion to B,B,B,A.  The first
    component lists the category sequences [getCityList] was called with. *)
Definition closest_cities (lat lon depth delta : Q)
    : list (list string) * result (list (string * city_info)) :=
  let city_types_requested := ["C"; "B"; "B"; "A"] in
  match getCityList lat lon depth city_types_requested delta with
  | Raise e => ([city_types_requested], Raise e)
  | Ok closest =>
      match fst <$> closest !! 0%nat, fst <$> closest !! 1%nat with
      | Some c_city, Some b_city =>
          match dict_get closest c_city, dict_get closest b_city with
          | Ok c_info, Ok b_info =>
              if Qltb (distance b_info) (distance c_info)
              then ([city_types_requested; ["B"; "B"; "B"; "A"]],
                    getCityList lat lon depth ["B"; "B"; "B"; "A"] delta)
              else ([city_types_requested], Ok closest)
          | _, _ => ([city_types_requested], Raise KeyError)
          end
      | _, _ => ([city_types_requested], Raise IndexError)
      end
  end.

End Catalog.

End PyCities.

(** ** Strings *)

Module PyStr.

(** [s.split(sep)] for a separator of one character: the pieces between
    the separators, one more than there are separators. *)
Fixpoint split_on (sep : ascii) (s : string) : list string :=
  match s with
  | EmptyString => [EmptyString]
  | String c s' =>
      if Ascii.eqb c sep then EmptyString :: split_on sep s'
      else match split_on sep s' with
           | piece :: pieces => String c piece :: pieces
           | [] => [String c EmptyString]
           end
  end.

(** Whitespace, among the characters of one byte: the blank, the controls 9
    to 13 and the separators 28 to 31. *)
Definition is_ws (c : ascii) : bool :=
  let n := nat_of_ascii c in
  (n =? 32)%nat || ((9 <=? n)%nat && (n <=? 13)%nat)
  || ((28 <=? n)%nat && (n <=? 31)%nat).

(** [s.split()]: the runs of characters between whitespace; no piece is
    empty. *)
Fixpoint split_ws (s : string) : list string :=
  match s with
  | EmptyString => []
  | String c s' =>
      if is_ws c then split_ws s'
      else match s' with
           | EmptyString => [String c EmptyString]
           | String c' _ =>
               if is_ws c' then String c EmptyString :: split_ws s'
               else match split_ws s' with
                    | piece :: pieces => String c piece :: pieces
                    | [] => [String c EmptyString]
                    end
           end
  end.

(** [s.strip()] *)
Fixpoint lstrip (s : string) : string :=
  match s with
  | EmptyString => EmptyString
  | String c s' => if is_ws c then lstrip s' else s
  end.

Fixpoint rstrip (s : string) : string :=
  match s with
  | EmptyString => EmptyString
  | String c s' =>
      match rstrip s' with
      | EmptyString => if is_ws c then EmptyString else String c EmptyString
      | rest => String c rest
      end
  end.

Definition strip_ws (s : string) : string := rstrip (lstrip s).

(** [float(s)] on a plain decimal numeral: an optional sign, digits and an
    optional fraction, with a digit on one side of the point at least.
    Python's [float] reads more strings than these (exponents, [inf],
    [nan], blanks around the numeral, underscores between digits); this
    function stands for it in the examples, which use none of them and
    only numerals that a float holds exactly; the value is the rational
    that the numeral denotes, in lowest terms. *)
Fixpoint digits_value (s : string) (acc : Z) : option Z :=
  match s with
  | EmptyString => Some acc
  | String c rest =>
      let n := Z.of_nat (nat_of_ascii c) in
      if ((48 <=? n) && (n <=? 57))%Z then digits_value rest (10 * acc + (n - 48))
      else None
  end.

Definition unsigned_decimal (s : string) : option Q :=
  match split_on "." s with
  | [whole] =>
      match whole with
      | EmptyString => None
      | _ => inject_Z <$> digits_value whole 0
      end
  | [whole; fraction] =>
      match whole, fraction with
      | EmptyString, EmptyString => None
      | _, _ =>
          w ← digits_value whole 0;
          f ← digits_value fraction 0;
          Some (Qred (inject_Z w
                      + inject_Z f / inject_Z (10 ^ Z.of_nat (String.length fraction))))%Q
      end
  | _ => None
  end.

Definition plain_float (s : string) : option Q :=
  match s with
  | String "-" rest => Qopp <$> unsigned_decimal rest
  | String "+" rest => unsigned_decimal rest
  | _ => unsigned_decimal s
  end.

End PyStr.

(** ** PyCities.py: reading the city file *)

Module CityFile.
Import TimeDelta PyCities PyStr.

Section Reader.
(** [str.strip], [float] and [int] of the interpreter; [None] stands for
    the [ValueError] of a string that is no number. *)
Variable strip : string -> string.
Variable py_float : string -> option Q.
Variable py_int : string -> option Z.

(** The body of the [try]: the unpacking needs five pieces exactly and the
    conversions are made in the order lat, lon, pop.  [None] is the
    [except] branch. *)
Definition read_line (line : string) : option (string * city_values) :=
  match split_on "," (strip line) with
  | [city; lat; lon; pop; category] =>
      lat' ← py_float lat;
      lon' ← py_float lon;
      pop' ← py_int pop;
      Some (city, MkCity lat' lon' pop' category)
  | _ => None
  end.

Definition read_step (cities : list (string * city_values)) (line : string)
    : list (string * city_values) :=
  if str_in "Category" line then cities
  else match read_line line with
       | Some (city, values) => dict_set cities city values
       | None => cities
       end.

(** [PyCities.__init__], on the lines of the city file. *)
Definition PyCities_init (lines : list string) : list (string * city_values) :=
  fold_left read_step lines [].

End Reader.
End CityFile.

(** ** [ShakeAlertParser.finalizeShakeAlertValues]: the sort of the closest
    cities by distance *)

Module CitySort.
Import PyCities.

(** [l[i]] for an index that is not negative. *)
Definition py_index {A : Type} (l : list A) (i : nat) : result A :=
  match l !! i with
  | Some a => Ok a
  | None => Raise IndexError
  end.

Section Sort.
(** [closest_cities], as returned by [getCityList]. *)
Variable closest_cities : list (string * city_info).

(** [closest_cities[city_keys[i]]['distance']] *)
Definition distance_at (city_keys : list string) (i : nat) : result Q :=
  key ← py_index city_keys i;
  info ← dict_get closest_cities key;
  Ok (distance info).

(** The loop [for j in range(i+1, len(city_keys))] up to its [break]: the
    first [j] whose city is strictly closer than the city at [i]. *)
Fixpoint scan_j (city_keys : list string) (i : nat) (js : list nat)
    : result (option nat) :=
  match js with
  | [] => Ok None
  | j :: js' =>
      di ← distance_at city_keys i;
      dj ← distance_at city_keys j;
      if Qltb dj di then Ok (Some j) else scan_j city_keys i js'
  end.

(** The loop [for i in range(len(city_keys)-1)] up to its [break]. *)
Fixpoint scan_i (city_keys : list string) (idx : list nat)
    : result (option (nat * nat)) :=
  match idx with
  | [] => Ok None
  | i :: idx' =>
      found ← scan_j city_keys i
                (seq (i + 1) (length city_keys - (i + 1)));
      match found with
      | Some j => Ok (Some (i, j))
      | None => scan_i city_keys idx'
      end
  end.

(** The exchange of [city_keys[i]] and [city_keys[j]]. *)
Definition exchange (city_keys : list string) (i j : nat) : result (list string) :=
  city_temp ← py_index city_keys i;
  kj ← py_index city_keys j;
  Ok (<[j := city_temp]> (<[i := kj]> city_keys)).

(** One turn of [while True]: [None] when no exchange was made. *)
Definition pass (city_keys : list string) : result (option (list string)) :=
  found ← scan_i city_keys (seq 0 (length city_keys - 1));
  match found with
  | Some (i, j) => keys' ← exchange city_keys i j; Ok (Some keys')
  | None => Ok None
  end.

(** [while True], for at most [turns] turns; [None] when the loop has not
    ended by then. *)
Fixpoint bubble (turns : nat) (city_keys : list string)
    : result (option (list string)) :=
  match turns with
  | O => Ok None
  | S turns' =>
      r ← pass city_keys;
      match r with
      | Some keys' => bubble turns' keys'
      | None => Ok (Some city_keys)
      end
  end.

(** [new_closest_cities] *)
Definition rebuild (city_keys : list string) : result (list (string * city_info)) :=
  for_each
    (fun new_closest_cities city =>
       info ← dict_get closest_cities city;
       Ok (dict_set new_closest_cities city info))
    city_keys [].

(** The reordering of [closest_cities], with the number of turns the loop
    is given. *)
Definition sort_closest_cities (turns : nat)
    : result (option (list (string * city_info))) :=
  r ← bubble turns (fst <$> closest_cities);
  match r with
  | Some city_keys => sorted ← rebuild city_keys; Ok (Some sorted)
  | None => Ok None
  end.

End Sort.

(** The city step of [finalizeShakeAlertValues] as a whole: the request,
    the promotion, then the reordering. *)
Definition reordered_cities (distanceBetween : Q -> Q -> Q -> Q -> Q)
    (sqrt : Q -> Q) (initial_bearing : Q * Q -> Q * Q -> Q)
    (cities : list (string * city_values))
    (lat lon depth delta : Q) (turns : nat)
    : result (option (list (string * city_info))) :=
  closest ← snd (closest_cities distanceBetween sqrt initial_bearing cities
                   lat lon depth delta);
  sort_closest_cities closest turns.

End CitySort.

(** ** ShakeAlertParser.py: [parse_gm_contours] *)

Module ContourParser.
Import PyStr ShakeAlertParser.

(** One element of [ground_motion_contours] with the four keys that
    [parse_gm_contours] reads. *)
Record contour_json_d : Type := MkContourJsonD {
  d_mmi : Z;
  d_pga : option Q;
  d_pgv : option Q;
  d_polygon : string
}.

(** The errors of the parser: besides those of the other functions, the
    [TypeError] of [Coord] called with the wrong number of fields. *)
Inductive outcome (A : Type) : Type :=
| Parsed (a : A)
| TypeError
| Failed (e : exn).
Arguments Parsed {A} _.
Arguments TypeError {A}.
Arguments Failed {A} _.

(** [Coord] applied to the pieces of [coord_tok.split(',')]: two pieces
    make a coordinate, whose fields are the pieces as they are. *)
Definition Coord_of_token (coord_tok : string) : option (Coord string) :=
  match split_on "," coord_tok with
  | [lat; lon] => Some (MkCoord lat lon)
  | _ => None
  end.

Fixpoint parse_tokens (coord_tokens : list string) : option (list (Coord string)) :=
  match coord_tokens with
  | [] => Some []
  | coord_tok :: rest =>
      match Coord_of_token coord_tok with
      | Some coord =>
          match parse_tokens rest with
          | Some parsed_poly => Some (coord :: parsed_poly)
          | None => None
          end
      | None => None
      end
  end.

Section Parser.
(** [str.strip] *)
Variable strip : string -> string.

(** The body of the loop of [parse_gm_contours] for one contour. *)
Definition parse_contour (contour_json_d : contour_json_d)
    : outcome (GMContour string) :=
  match truncated_mmi (d_mmi contour_json_d) with
  | Raise e => Failed e
  | Ok mmi =>
      let coord_tokens := split_on " " (strip (d_polygon contour_json_d)) in
      match parse_tokens coord_tokens with
      | None => TypeError
      | Some parsed_poly =>
          match GMContour_init mmi parsed_poly
                  (d_pga contour_json_d) (d_pgv contour_json_d) with
          | Ok contour => Parsed contour
          | Raise e => Failed e
          end
      end
  end.

Fixpoint parse_gm_contours (gm_contours : list contour_json_d)
    : outcome (list (GMContour string)) :=
  match gm_contours with
  | [] => Parsed []
  | contour_json_d :: rest =>
      match parse_contour contour_json_d with
      | Parsed contour =>
          match parse_gm_contours rest with
          | Parsed contours => Parsed (contour :: contours)
          | TypeError => TypeError
          | Failed e => Failed e
          end
      | TypeError => TypeError
      | Failed e => Failed e
      end
  end.

End Parser.
End ContourParser.

(** ** ShakeAlertParser.py: the initial and the final message *)

Module Messages.

Section Selection.
Context {M : Type}.
(** [int(msg.get('version'))] *)
Variable version : M -> result Z.

(** [sorted(messages, key=...)]: the keys are computed first, in the order
    of the list; the sort is stable, least key first. *)
Fixpoint insert_asc (x : Z * M) (l : list (Z * M)) : list (Z * M) :=
  match l with
  | [] => [x]
  | y :: l' =>
      if (fst x <=? fst y)%Z then x :: y :: l' else y :: insert_asc x l'
  end.

Definition sorted_asc (l : list (Z * M)) : list (Z * M) :=
  foldr insert_asc [] l.

Definition with_keys (messages : list M) : result (list (Z * M)) :=
  for_each (fun keyed msg => v ← version msg; Ok (keyed ++ [(v, msg)]))
    messages [].

(** The choice of [initial_message] and [final_message] in
    [ParseJSONContent]; both stay [None] when the event has no list of
    messages or an empty one. *)
Definition select_messages (shakealert_event_messages : option (list M))
    : result (option (M * M)) :=
  match shakealert_event_messages with
  | None | Some [] => Ok None
  | Some messages =>
      keyed ← with_keys messages;
      let sorted_sa_messages := snd <$> sorted_asc keyed in
      match sorted_sa_messages !! 0, last sorted_sa_messages with
      | Some initial_message, Some final_message =>
          Ok (Some (initial_message, final_message))
      | _, _ => Raise IndexError
      end
  end.

End Selection.
End Messages.

(** ** ShakeAlertParser.py: polygon strings as lists of numbers *)

Module LatLon.
Import PyStr.

Section Numeric.
(** [str.split()] on whitespace, and [float] of a string ([None] for its
    [ValueError]). *)
Variable py_split : string -> list string.
Variable py_float : string -> option Q.

Definition to_float (s : string) : result Q :=
  match py_float s with
  | Some q => Ok q
  | None => Raise ValueError
  end.

(** The body of both loops: [la, lo = k.split(",")] needs two pieces; the
    pair is converted in the order in which it is written. *)
Definition numeric_pair (k : string) (rev : bool) : result (Q * Q) :=
  match split_on "," k with
  | [la; lo] =>
      if rev then lo' ← to_float lo; la' ← to_float la; Ok (lo', la')
      else la' ← to_float la; lo' ← to_float lo; Ok (la', lo')
  | _ => Raise ValueError
  end.

Definition latlon_list_to_numeric (latlon_list : list string) (rev : bool)
    : result (list (Q * Q)) :=
  for_each (fun NumericList k => kk ← numeric_pair k rev; Ok (NumericList ++ [kk]))
    latlon_list [].

Definition latlon_string_to_list (latlon_list_string : string) (rev : bool)
    : result (list (Q * Q)) :=
  for_each (fun foo k => kk ← numeric_pair k rev; Ok (foo ++ [kk]))
    (py_split latlon_list_string) [].

End Numeric.
End LatLon.

(** ** ShakeAlertParser.py: the three snapshot blocks of [ParseJSONContent] *)

Module ParseJSON.
Import ShakeAlertParser LatLon.

(** What the three blocks read of an event: the magnitudes and the contour
    lists of the initial, peak-magnitude and final messages, and the
    magnitude of the preferred (ANSS) origin, [None] when the event has no
    preferred origin.  The magnitudes are the floats that [float] reads
    back from their strings; a message or a preferred origin without a
    magnitude, on whose string [float] raises, is not represented.  A
    contour has the four keys that the parsers read, and its polygon is a
    string. *)
Record event : Type := MkEvent {
  ANSSmag : option Q;
  initial_mag : Q;
  peak_mag : Q;
  mag : Q;
  initial_gm_contours : option (list ContourParser.contour_json_d);
  peak_mag_gm_contours : option (list ContourParser.contour_json_d);
  final_gm_contours : option (list ContourParser.contour_json_d)
}.

(** What [Get_polygons] reads of the contours. *)
Definition contours_json (gm_contours : list ContourParser.contour_json_d)
    : list (contour_json string) :=
  map (fun d => MkContourJson (ContourParser.d_mmi d) (ContourParser.d_polygon d))
    gm_contours.

(** What the initial-alert block writes: [MMIlist], [initial_polygonList]
    with its one entry [[MMItoShow, latlon_list]],
    [initial_polygonNumericList] and [initial_contours]. *)
Record initial_snapshot : Type := MkInitial {
  MMIlist : list (Z * string);
  initial_polygonList : list (Z * list (Q * Q));
  initial_polygonNumericList : list (Q * Q);
  initial_contours : list (GMContour string)
}.

(** What the final-alert block writes ([fMMIlist], [polygonList],
    [polygonNumericList], [final_contours]) and, under its own keys, the
    peak-magnitude block ([pMMIlist], [peak_mag_polygonList],
    [peak_mag_polygonNumericList], [peak_contours]).  An entry of
    [polygonList] is [[use_this_MMI, [latlon_list]]]. *)
Record snapshot : Type := MkSnapshot {
  xMMIlist : list (Z * string);
  polygonList : list (Z * list (list (Q * Q)));
  polygonNumericList : list (list (Q * Q));
  contours : list (GMContour string)
}.

(** The entries of [JSONValues] that the blocks write; a snapshot is [None]
    when its message has no [ground_motion_contours]. *)
Record parsed : Type := MkParsed {
  MMItoUse_after : Z;
  initial : option initial_snapshot;
  final : option snapshot;
  peak : option snapshot
}.

Definition optionally {A B : Type} (f : A -> result B) (o : option A)
    : result (option B) :=
  match o with
  | None => Ok None
  | Some a => b ← f a; Ok (Some b)
  end.

Section Blocks.
(** [str.strip], [str.split()] and [float] of the interpreter. *)
Variable strip : string -> string.
Variable py_split : string -> list string.
Variable py_float : string -> option Q.

(** [parse_gm_contours(gm_contours)], with its errors as exceptions. *)
Definition parse_contours (gm_contours : list ContourParser.contour_json_d)
    : result (list (GMContour string)) :=
  match ContourParser.parse_gm_contours strip gm_contours with
  | ContourParser.Parsed parsed_contours => Ok parsed_contours
  | ContourParser.TypeError => Raise TypeError
  | ContourParser.Failed e => Raise e
  end.

(** The initial-alert block: the one contour shown on the initial map is
    that of [MMItoUse] when it is a key of [mmi_initial] and that of the
    least key otherwise; its polygon string is read twice, and all the
    contours are parsed. *)
Definition initial_block (MMItoUse : Z)
    (initialGMcontours : list ContourParser.contour_json_d)
    : result initial_snapshot :=
  MMIlist ← Get_polygons (contours_json initialGMcontours);
  let mmi_initial := dict_of MMIlist in
  MMItoShow ←
    (if decide (is_Some (mmi_initial !! MMItoUse)) then Ok MMItoUse
     else py_min_list (fst <$> map_to_list mmi_initial));
  polygon_string ←
    match mmi_initial !! MMItoShow with
    | Some poly => Ok poly
    | None => Raise KeyError
    end;
  initial_polygonNumericList ←
    latlon_list_to_numeric py_float (py_split polygon_string) true;
  latlon_list ← latlon_string_to_list py_split py_float polygon_string false;
  initial_contours ← parse_contours initialGMcontours;
  Ok (MkInitial MMIlist [(MMItoShow, latlon_list)] initial_polygonNumericList
        initial_contours).

(** The body of the loop over [fMMIlist] (and [pMMIlist]): an entry with
    [m[0] >= min_mmi] has its polygon string read, twice, and is added to
    both lists.  (The dictionary [mmi_final] that the loop fills as well is
    not read.) *)
Definition keep_entry (min_mmi : Z)
    (lists : list (Z * list (list (Q * Q))) * list (list (Q * Q)))
    (m : Z * string)
    : result (list (Z * list (list (Q * Q))) * list (list (Q * Q))) :=
  if (min_mmi <=? fst m)%Z then
    latlon_list ← latlon_string_to_list py_split py_float (snd m) false;
    tmp_lonlat_list ← latlon_list_to_numeric py_float (py_split (snd m)) true;
    Ok (fst lists ++ [(fst m, [latlon_list])], snd lists ++ [tmp_lonlat_list])
  else Ok lists.

(** The final-alert and the peak-magnitude block, with
    [min_mmi = MMItoUse]. *)
Definition threshold_block (MMItoUse : Z)
    (gm_contours : list ContourParser.contour_json_d) : result snapshot :=
  xMMIlist ← Get_polygons (contours_json gm_contours);
  let min_mmi := MMItoUse in
  lists ← for_each (keep_entry min_mmi) xMMIlist ([], []);
  parsed_contours ← parse_contours gm_contours;
  Ok (MkSnapshot xMMIlist (fst lists) (snd lists) parsed_contours).

(** [ParseJSONContent], from the threshold decision on, started with the
    global [MMItoUse] at [g]: the initial, the final and the peak-magnitude
    block, in this order. *)
Definition ParseJSONContent (cfg : config) (g : Z) (ev : event) : result parsed :=
  let MMItoUse := decide_MMItoUse cfg g (ANSSmag ev) (initial_mag ev) in
  ini ← optionally (initial_block MMItoUse) (initial_gm_contours ev);
  fin ← optionally (threshold_block MMItoUse) (final_gm_contours ev);
  peak ← optionally (threshold_block MMItoUse) (peak_mag_gm_contours ev);
  Ok (MkParsed MMItoUse ini fin peak).

End Blocks.
End ParseJSON.

(** ** The contour drawn on the initial alert map *)

Module AlertMap.
Import PDFCreate.

(** [min(contours)] on objects compared by [GMContour.__lt__], that is by
    their MMI: the running least is replaced by an item only when the item
    is less, so the first of the least is returned; [ValueError] on an
    empty list. *)
Definition py_min_contour {C : Type} (mmi_of : C -> Z) (contours : list C)
    : result C :=
  match contours with
  | [] => Raise ValueError
  | first :: rest =>
      Ok (foldl (fun least item =>
                   if (mmi_of item <? mmi_of least)%Z then item else least)
                first rest)
  end.

(** [min_mmi_contour] of [buildAlertMap], on the list that the contour
    filter of [PDFCreate] passes to it as [initial_contours]. *)
Definition min_mmi_contour {C : Type} (mmi_of : C -> Z)
    (gmc_filter : GMContourFilter) (contours : list C) (event_mag : Q)
    : result C :=
  py_min_contour mmi_of (filter_gm_contours mmi_of gmc_filter contours event_mag).

End AlertMap.

(** ** EQCalculations.py: stations in range, and the intensity shown for a
    city *)

Module Stations.

Section Range.
(** [getDistance(pointA, pointB, miles=False)]: the distance in km, or the
    [ValueError] of [math.acos] outside its domain. *)
Variable getDistance : Q * Q -> Q * Q -> result Q.

(** [getNumStationsInRange], on the entries of [stationDict] in the order
    of its keys. *)
Definition getNumStationsInRange (stationDict : list (string * (Q * Q)))
    (point : Q * Q) (distanceKM : Q) : result nat :=
  for_each
    (fun numStations station =>
       d ← getDistance point (snd station);
       Ok (if Qle_bool d distanceKM then numStations + 1 else numStations))
    stationDict 0.

End Range.
End Stations.

Module IntensityText.
Import EQCalculations ShakeAlertParser.

Section NumberString.
(** [int(s)] on a string. *)
Variable py_int_str : string -> result Z.

(** [intensityNumberString(MMI)]; [py_str] writes the decimal digits of
    ["%d" % mmi]. *)
Definition intensityNumberString (MMI : pyval) : result string :=
  mmi ← match MMI with
        | PyInt z => Ok z
        | PyStr s => py_int_str s
        end;
  Ok (if (1 <? mmi)%Z then py_str mmi else "<2").

(** The MMI column of the table of nearby cities. *)
Definition txt_city_intensity (mmi_list : list (Z * polygon_coords))
    (lat lon : Q) : result string :=
  intensity_level ← getIntensityLevel mmi_list lat lon false;
  intensityNumberString intensity_level.

End NumberString.
End IntensityText.

(** ** utils.py *)

Module Utils.

(** [get_intensity_color], on an [int]. *)
Definition get_intensity_color (mmi : Z) : string :=
  if (mmi <? 2)%Z then "#000000"
  else if (mmi =? 2)%Z then "#c8d0fd"
  else if (mmi =? 3)%Z then "#b3f3fe"
  else if (mmi =? 4)%Z then "#b0fff7"
  else if (mmi =? 5)%Z then "#afff93"
  else if (mmi =? 6)%Z then "#fefb3c"
  else if (mmi =? 7)%Z then "#f0c52f"
  else if (mmi =? 8)%Z then "#e58620"
  else if (mmi =? 9)%Z then "#da0201"
  else if (mmi =? 10)%Z then "#ab0101"
  else if (10 <? mmi)%Z then "#800000"
  else "#ffffff".

End Utils.

(** * Properties *)

Module PyEventImageFacts.
Import PyEventImage.
Open Scope float_scope.

Lemma dict_set_keys_any (d : list (float * float)) (k x y : float) :
  keys (dict_set d k x) = keys (dict_set d k y).
Proof.
  induction d as [|[k0 v0] d IH]; cbn; [done |].
  destruct (PrimFloat.eqb k0 k); cbn; [done |]. f_equal. exact IH.
Qed.

Lemma dict_set_keys_same (d1 d2 : list (float * float)) (k x : float) :
  keys d1 = keys d2 -> keys (dict_set d1 k x) = keys (dict_set d2 k x).
Proof.
  revert d2. induction d1 as [|[a b] d1 IH]; intros [|[a' b'] d2] H; cbn in *;
    try done.
  injection H as -> H.
  destruct (PrimFloat.eqb a' k); cbn; [by f_equal |]. f_equal. by apply IH.
Qed.

Lemma fill_keys_same (ks : list float) : forall d1 d2 : list (float * float),
  keys d1 = keys d2 ->
  keys (fold_left (fun d k => dict_set d k 0.0) ks d1) =
  keys (fold_left (fun d k => dict_set d k 0.0) ks d2).
Proof.
  induction ks as [|k ks IH]; intros d1 d2 H; cbn; [done |].
  apply IH. by apply dict_set_keys_same.
Qed.

(** The keys of the dictionary do not depend on the radii. *)
Lemma circles_keys (dt v depth : float) (durations : list float) :
  forall d d',
    for_each
      (fun d circle_radii_m =>
         radius ← circle_radius dt v depth circle_radii_m;
         Ok (dict_set d circle_radii_m radius))
      durations d = Ok d' ->
    keys d' = keys (fold_left (fun d k => dict_set d k 0.0) durations d).
Proof.
  induction durations as [|k ks IH]; intros d d'; cbn [for_each fold_left].
  - by intros [= <-].
  - destruct (circle_radius dt v depth k) as [radius|]; cbn; [| done].
    intros Hd'. rewrite (IH _ _ Hd').
    apply fill_keys_same, dict_set_keys_any.
Qed.

Lemma keys_when_returned (mag dt v depth : float) d :
  get_alert_circle_params mag dt v depth = Ok d ->
  keys d = radii_show mag.
Proof.
  unfold get_alert_circle_params. intros H.
  apply circles_keys in H as ->.
  unfold radii_show. by destruct (mag <? 6.0).
Qed.

Lemma sq_error x e : sq x = Raise e -> e = OverflowError.
Proof. unfold sq. cbn zeta. destruct (_ && _); congruence. Qed.

Lemma py_sqrt_error x e : py_sqrt x = Raise e -> e = ValueError.
Proof. unfold py_sqrt. destruct (x <? 0.0); congruence. Qed.

Lemma circle_radius_error dt v depth r e :
  circle_radius dt v depth r = Raise e -> e = ValueError \/ e = OverflowError.
Proof.
  unfold circle_radius. destruct (depth <? _); [| done].
  destruct (sq ((dt + r) * v)) as [front|e1] eqn:E1; cbn.
  2:{ intros [= <-]. right. by eapply sq_error. }
  destruct (sq depth) as [d2|e2] eqn:E2; cbn.
  2:{ intros [= <-]. right. by eapply sq_error. }
  destruct (py_sqrt (front - d2)) as [root|e3] eqn:E3; cbn; [done |].
  intros [= <-]. left. by eapply py_sqrt_error.
Qed.

Lemma circles_error dt v depth durations : forall d e,
  for_each
    (fun d circle_radii_m =>
       radius ← circle_radius dt v depth circle_radii_m;
       Ok (dict_set d circle_radii_m radius))
    durations d = Raise e ->
  e = ValueError \/ e = OverflowError.
Proof.
  induction durations as [|k ks IH]; intros d e; cbn [for_each]; [done |].
  destruct (circle_radius dt v depth k) as [radius|e1] eqn:E1; cbn.
  - apply IH.
  - intros [= <-]. by eapply circle_radius_error.
Qed.

(** The outcomes of a call with a magnitude below 6.0. *)
Lemma keys_below_6 (mag dt v depth : float) :
  (mag <? 6.0) = true ->
  match get_alert_circle_params mag dt v depth with
  | Ok d => keys d = [0.0; 10.0; 20.0]
  | Raise e => e = ValueError \/ e = OverflowError
  end.
Proof.
  intros Hmag.
  destruct (get_alert_circle_params mag dt v depth) as [d|e] eqn:E.
  - rewrite (keys_when_returned _ _ _ _ _ E).
    unfold radii_show. by rewrite Hmag.
  - unfold get_alert_circle_params in E. by eapply circles_error.
Qed.

(** The radii of the test event, as the doubles the code computes. *)
Definition test_radii_returned : list (float * float) :=
  Eval vm_compute in
    match test_radii with
    | Ok d => d
    | Raise _ => []
    end.

Lemma test_radii_eq : test_radii = Ok test_radii_returned.
Proof. vm_compute. reflexivity. Qed.

Lemma test_radii_truncated :
  map py_int (values test_radii_returned) =
    [Some 5436%Z; Some 57435%Z; Some 95334%Z].
Proof. vm_compute. reflexivity. Qed.

(** C8 (as stated, refuted): the radius at 10.0 s is 57435.97... m, so
    57435 is not a nearest integer to it. *)
Lemma get_alert_circle_params_not_nearest :
  ~ (exists d,
       test_radii = Ok d /\ keys d = [0.0; 10.0; 20.0] /\
       Forall2 nearest_integer (values d) [5436%Z; 57435%Z; 95334%Z]).
Proof.
  intros (d & Hd & _ & H). rewrite test_radii_eq in Hd. injection Hd as <-.
  inversion H as [|? ? ? ? _ H1]; subst.
  inversion H1 as [|? ? ? ? H10 _]; subst.
  revert H10. vm_compute. intros H10. apply H10. reflexivity.
Qed.

(** C8 (amended): for an initial-alert magnitude below 6.0 and all float
    arguments, [get_alert_circle_params] either returns a dictionary with
    the keys 0.0, 10.0 and 20.0 and no other, or raises the [ValueError] of
    [math.sqrt] or the [OverflowError] of the power; for the arguments of
    the test event it returns, and the radii truncated toward zero to whole
    metres, as the unit test does with [int], are 5436, 57435 and 95334. *)
Theorem get_alert_circle_params_truncated :
  (forall mag dt v depth : float,
      (mag <? 6.0) = true ->
      match get_alert_circle_params mag dt v depth with
      | Ok d => keys d = [0.0; 10.0; 20.0]
      | Raise e => e = ValueError \/ e = OverflowError
      end) /\
  exists d,
    test_radii = Ok d /\
    keys d = [0.0; 10.0; 20.0] /\
    map py_int (values d) = [Some 5436%Z; Some 57435%Z; Some 95334%Z].
Proof.
  split; [exact keys_below_6 |].
  exists test_radii_returned. split; [exact test_radii_eq |].
  split; [vm_compute; reflexivity | exact test_radii_truncated].
Qed.

Lemma get_alert_circle_params_truncated_witness :
  ((5.3 <? 6.0) = true) /\
  match get_alert_circle_params 5.3 7.971 3.55 27.77 with
  | Ok d => keys d = [0.0; 10.0; 20.0]
  | Raise e => e = ValueError \/ e = OverflowError
  end.
Proof.
  split; [reflexivity |].
  apply (proj1 get_alert_circle_params_truncated 5.3 7.971 3.55 27.77).
  reflexivity.
Defined.

(** The errors of the computation: a negative depth can leave a negative
    number under the root, and the square of a large front overflows. *)
Example get_alert_circle_params_negative_radicand :
  get_alert_circle_params 5.3 (-5) 1 (-10) = Raise ValueError.
Proof. vm_compute. reflexivity. Qed.

Example get_alert_circle_params_overflow :
  get_alert_circle_params 5.3 1 1e200 0 = Raise OverflowError.
Proof. vm_compute. reflexivity. Qed.

End PyEventImageFacts.

(** ** Point in polygon *)

Module PointInPolyFacts.
Import EQCalculations.

Lemma Qltb_lt (a b : Q) : Qltb a b = true <-> (a < b)%Q.
Proof.
  unfold Qltb. rewrite negb_true_iff.
  split.
  - intros H. apply Qnot_le_lt. intros Hle.
    apply Qle_bool_iff in Hle. congruence.
  - intros H. destruct (Qle_bool b a) eqn:E; [|reflexivity].
    apply Qle_bool_iff in E. lra.
Qed.

Lemma Qltb_ge (a b : Q) : Qltb a b = false <-> (b <= a)%Q.
Proof.
  unfold Qltb. rewrite negb_false_iff. apply Qle_bool_iff.
Qed.

Lemma Qle_bool_gt (a b : Q) : Qle_bool a b = false <-> (b < a)%Q.
Proof.
  split.
  - intros H. apply Qnot_le_lt. intros Hle.
    apply Qle_bool_iff in Hle. congruence.
  - intros H. destruct (Qle_bool a b) eqn:E; [|reflexivity].
    apply Qle_bool_iff in E. lra.
Qed.

Lemma Qeq_bool_false (a b : Q) : Qeq_bool a b = false <-> ~ (a == b)%Q.
Proof.
  split.
  - intros H Heq. apply Qeq_bool_iff in Heq. congruence.
  - intros H. destruct (Qeq_bool a b) eqn:E; [|reflexivity].
    apply Qeq_bool_iff in E. contradiction.
Qed.

Lemma py_min_le_max (a b : Q) : (py_min a b <= py_max a b)%Q.
Proof.
  unfold py_min, py_max.
  destruct (Qltb b a) eqn:E1, (Qltb a b) eqn:E2;
    rewrite ?Qltb_lt, ?Qltb_ge in *; lra.
Qed.

Lemma py_min_max_eq (a b : Q) : (a == b)%Q -> (py_min a b == py_max a b)%Q.
Proof.
  intros H. unfold py_min, py_max.
  destruct (Qltb b a) eqn:E1, (Qltb a b) eqn:E2;
    rewrite ?Qltb_lt, ?Qltb_ge in *; lra.
Qed.

(** An edge that the ray can cross is not horizontal. *)
Lemma crossing_not_horizontal (y p1y p2y : Q) :
  Qltb (py_min p1y p2y) y = true ->
  Qle_bool y (py_max p1y p2y) = true ->
  ~ (p1y == p2y)%Q.
Proof.
  rewrite Qltb_lt, Qle_bool_iff. intros Hlo Hhi Heq.
  pose proof (py_min_max_eq _ _ Heq). lra.
Qed.

(** What one more edge may add to the record of divisions. *)
Definition not_horizontal (e : vertex * vertex) : Prop :=
  ~ (snd (fst e) == snd (snd e))%Q.

Lemma compute_xints_ok (y : Q) (p2 : vertex) (st : pip_state) :
  ~ (snd (p1 st) == snd p2)%Q ->
  exists xi,
    compute_xints y p2 st =
      Ok (PipState (inside st) (p1 st) (Some xi) (divisions st ++ [(p1 st, p2)])).
Proof.
  intros Hne. unfold compute_xints, py_div.
  destruct (p1 st) as [p1x p1y] eqn:Ep1, p2 as [p2x p2y]. cbn in Hne.
  assert (Hden : Qeq_bool (p2y - p1y) 0 = false).
  { apply Qeq_bool_false. intros H. apply Hne. lra. }
  rewrite Hden. cbn. eauto.
Qed.

Lemma pip_body_ok (x y : Q) (poly : list vertex) (st : pip_state) (i : nat) :
  poly <> [] ->
  Forall not_horizontal (divisions st) ->
  exists st',
    pip_body x y poly st i = Ok st' /\ Forall not_horizontal (divisions st').
Proof.
  intros Hne Hdiv. unfold pip_body.
  assert (Hlt : (i `mod` length poly < length poly)%nat).
  { apply Nat.mod_upper_bound. destruct poly; [congruence | cbn; lia]. }
  destruct (lookup_lt_is_Some_2 poly _ Hlt) as [p2 Hp2]. rewrite Hp2.
  destruct (p1 st) as [p1x p1y] eqn:Ep1, p2 as [p2x p2y].
  destruct (Qltb (py_min p1y p2y) y) eqn:Elo; [|cbn; eauto].
  destruct (Qle_bool y (py_max p1y p2y)) eqn:Ehi; [|cbn; eauto].
  destruct (Qle_bool x (py_max p1x p2x)) eqn:Ex; [|cbn; eauto].
  pose proof (crossing_not_horizontal _ _ _ Elo Ehi) as Hnh.
  apply Qeq_bool_false in Hnh as Hb. rewrite Hb. cbn [negb].
  destruct (compute_xints_ok y (p2x, p2y) st) as [xi Hxi].
  { rewrite Ep1. exact Hnh. }
  rewrite Hxi. cbn.
  assert (Hdiv' : Forall not_horizontal (divisions st ++ [(p1 st, (p2x, p2y))])).
  { apply Forall_app. split; [exact Hdiv |].
    constructor; [|constructor]. unfold not_horizontal. cbn.
    rewrite Ep1. exact Hnh. }
  destruct (Qeq_bool p1x p2x); [cbn; eauto |].
  destruct (Qle_bool x xi); cbn; eauto.
Qed.

Lemma pip_loop_ok (x y : Q) (poly : list vertex) (idx : list nat) :
  poly <> [] ->
  forall st, Forall not_horizontal (divisions st) ->
  exists st',
    for_each (pip_body x y poly) idx st = Ok st' /\
    Forall not_horizontal (divisions st').
Proof.
  intros Hne. induction idx as [|i idx IH]; intros st Hdiv.
  - cbn. eauto.
  - cbn. destruct (pip_body_ok x y poly st i Hne Hdiv) as (st1 & -> & Hdiv1).
    cbn. apply IH. exact Hdiv1.
Qed.

Lemma point_in_poly_total (x y : Q) (poly : list vertex) :
  poly <> [] -> exists b, point_in_poly x y poly = Ok b.
Proof.
  intros Hne. unfold point_in_poly, point_in_poly_run.
  destruct poly as [|p0 poly']; [congruence |].
  destruct (pip_loop_ok x y (p0 :: poly') (seq 0 (length (p0 :: poly') + 1)) Hne
              (PipState false p0 None [])) as (st & Hst & _).
  { constructor. }
  rewrite Hst. cbn. eauto.
Qed.

(** C9. For every non-empty vertex list and every query point,
    [point_in_poly] returns a boolean: it raises no [ZeroDivisionError]
    (nor any other exception), and every edge at which the crossing
    division was executed has endpoints with different y values, so the
    division is never executed for a horizontal edge. *)
Theorem point_in_poly_never_divides_by_zero (x y : Q) (poly : list vertex) :
  poly <> [] ->
  exists st,
    point_in_poly_run x y poly = Ok st /\
    point_in_poly x y poly = Ok (inside st) /\
    Forall not_horizontal (divisions st).
Proof.
  intros Hne. unfold point_in_poly, point_in_poly_run.
  destruct poly as [|p0 poly']; [congruence |].
  destruct (pip_loop_ok x y (p0 :: poly') (seq 0 (length (p0 :: poly') + 1)) Hne
              (PipState false p0 None [])) as (st & Hst & Hdiv).
  { constructor. }
  exists st. rewrite Hst. cbn. auto.
Qed.

(** The unit square given without repeating its first vertex, queried at
    its centre: two of its four edges are horizontal. *)
Definition unit_square : list vertex :=
  [(0, 0); (1, 0); (1, 1); (0, 1)]%Q.

Lemma point_in_poly_never_divides_by_zero_witness :
  unit_square <> [] /\
  exists st,
    point_in_poly_run (1 # 2) (1 # 2) unit_square = Ok st /\
    point_in_poly (1 # 2) (1 # 2) unit_square = Ok (inside st) /\
    Forall not_horizontal (divisions st).
Proof.
  split; [discriminate |].
  apply (point_in_poly_never_divides_by_zero (1 # 2) (1 # 2) unit_square).
  discriminate.
Defined.

Example point_in_poly_unit_square_centre :
  point_in_poly (1 # 2) (1 # 2) unit_square = Ok true.
Proof. reflexivity. Qed.

Example point_in_poly_unit_square_outside :
  point_in_poly 2 (1 # 2) unit_square = Ok false.
Proof. reflexivity. Qed.

End PointInPolyFacts.

(** ** Intensity lookup *)

Module IntensityFacts.
Import EQCalculations PointInPolyFacts.

(** The point at latitude [lat] and longitude [lon] is inside the polygon
    of an entry, whose corners are listed as (latitude, longitude) pairs:
    the ray-casting test with the longitude as abscissa and the latitude as
    ordinate, of the point and of every corner.  The corners are exchanged
    here, on the pairs as listed, and not through the conversion that
    [getIntensityLevel] makes. *)
Definition contains (lat lon : Q) (entry : Z * polygon_coords) : bool :=
  match point_in_poly lon lat
          (map (fun corner => (snd corner, fst corner)) (snd entry)) with
  | Ok true => true
  | _ => false
  end.

(** The value returned for a hit at MMI [m], and the sentinel returned for
    no hit, in the requested output form. *)
Definition in_output_form (getRomanNum : bool) (m : Z) : pyval :=
  if getRomanNum then intensityRomanNumeral m else PyInt m.

Definition below_minimum (getRomanNum : bool) : pyval :=
  if getRomanNum then PyStr "<II" else PyStr "1".

Lemma to_polygon_nonempty (coords : polygon_coords) :
  coords <> [] -> to_polygon coords <> [].
Proof. destruct coords; [congruence | discriminate]. Qed.

(** C6. For every list of (MMI, polygon) pairs and every query point,
    [getIntensityLevel] returns the MMI (in the requested output form) of
    the first entry, in the order of the list, whose polygon contains the
    point; when no polygon contains the point it returns the sentinel,
    ["1"] in numeric form and ["<II"] in roman form. *)
Theorem getIntensityLevel_first_containing
    (MMIlist : list (Z * polygon_coords)) (lat lon : Q) (getRomanNum : bool) :
  Forall (fun entry => snd entry <> []) MMIlist ->
  getIntensityLevel MMIlist lat lon getRomanNum =
    Ok (match find (contains lat lon) MMIlist with
        | Some (m, _) => in_output_form getRomanNum m
        | None => below_minimum getRomanNum
        end) /\
  below_minimum false = PyStr "1" /\
  below_minimum true = PyStr "<II".
Proof.
  intros Hne. split; [|split; reflexivity].
  induction Hne as [|[m coords] rest Hm _ IH]; [reflexivity |].
  cbn [getIntensityLevel find]. unfold contains at 1. cbn [snd].
  change (map (fun corner : Q * Q => (snd corner, fst corner)) coords)
    with (to_polygon coords).
  destruct (point_in_poly_total lon lat (to_polygon coords)) as [b Hb].
  { apply to_polygon_nonempty. exact Hm. }
  rewrite Hb. cbn. destruct b; [reflexivity | exact IH].
Qed.

(** Two nested bands along a parallel, one degree of latitude high: the
    inner one, at MMI 6 and listed first, spans the longitudes 4 to 6, the
    outer one, at MMI 4, the longitudes 0 to 10. *)
Definition nested_bands : list (Z * polygon_coords) :=
  [ (6%Z, [(0, 4); (0, 6); (1, 6); (1, 4); (0, 4)]%Q);
    (4%Z, [(0, 0); (0, 10); (1, 10); (1, 0); (0, 0)]%Q) ].

Lemma getIntensityLevel_first_containing_witness :
  Forall (fun entry : Z * polygon_coords => snd entry <> []) nested_bands /\
  getIntensityLevel nested_bands (1 # 2) 8 true = Ok (PyStr "IV").
Proof.
  assert (H : Forall (fun entry : Z * polygon_coords => snd entry <> [])
                nested_bands).
  { repeat constructor; discriminate. }
  split; [exact H |].
  exact (proj1 (getIntensityLevel_first_containing
                  nested_bands (1 # 2) 8 true H)).
Defined.

Example getIntensityLevel_inner :
  getIntensityLevel nested_bands (1 # 2) 5 false = Ok (PyInt 6).
Proof. reflexivity. Qed.

(** The same numbers with latitude and longitude exchanged are a point far
    north of both bands. *)
Example getIntensityLevel_outside :
  getIntensityLevel nested_bands 5 (1 # 2) false = Ok (PyStr "1").
Proof. reflexivity. Qed.

End IntensityFacts.

(** ** [Get_polygons] *)

Module GetPolygonsFacts.
Import ShakeAlertParser.

Section WithPolygon.
Context {P : Type}.
Implicit Types (l : list (Z * P)) (x : Z * P).

(** The ordering that [getIntensityLevel] documents as its precondition:
    every entry has an MMI at least that of every later entry. *)
Definition greatest_to_least l : Prop :=
  StronglySorted (fun a b => (fst b <= fst a)%Z) l.

(** What [Get_polygons] records for one contour. *)
Definition recorded_as (c : contour_json P) (m : Z * P) : Prop :=
  truncated_mmi (json_mmi c) = Ok (fst m) /\ snd m = json_polygon c.

Lemma insert_desc_perm x l : insert_desc x l ≡ₚ x :: l.
Proof.
  induction l as [|y l IH]; cbn; [reflexivity |].
  destruct (fst y <=? fst x)%Z; [reflexivity |].
  rewrite IH. apply Permutation_swap.
Qed.

Lemma sorted_desc_perm l : sorted_desc l ≡ₚ l.
Proof.
  induction l as [|x l IH]; cbn; [reflexivity |].
  rewrite insert_desc_perm. by rewrite IH.
Qed.

Lemma insert_desc_sorted x l :
  greatest_to_least l -> greatest_to_least (insert_desc x l).
Proof.
  unfold greatest_to_least.
  induction 1 as [|y l Hs IH Hy]; cbn.
  - repeat constructor.
  - destruct (fst y <=? fst x)%Z eqn:E.
    + apply Z.leb_le in E. constructor.
      * by constructor.
      * constructor; [exact E |].
        eapply Forall_impl; [exact Hy |]. cbn. intros; lia.
    + apply Z.leb_gt in E. constructor; [exact IH |].
      rewrite insert_desc_perm. constructor; [lia | exact Hy].
Qed.

Lemma sorted_desc_sorted l : greatest_to_least (sorted_desc l).
Proof.
  induction l as [|x l IH]; cbn.
  - constructor.
  - by apply insert_desc_sorted.
Qed.

(** The leading character of [str(MMI)] is a digit when [MMI] is not
    negative, and the minus sign otherwise. *)
Lemma truncated_mmi_nonneg (z : Z) :
  (0 <= z)%Z -> exists d, truncated_mmi z = Ok d /\ (0 <= d <= 9)%Z.
Proof.
  intros Hz. destruct z as [|p|p]; [| |lia].
  - exists 0%Z. split; [reflexivity | lia].
  - unfold truncated_mmi, py_str. cbn [Z.to_int NilZero.string_of_int].
    pose proof (DecimalPos.Unsigned.to_uint_nonnil p) as Hnil.
    destruct (Pos.to_uint p);
      [ congruence
      | exists 0%Z | exists 1%Z | exists 2%Z | exists 3%Z | exists 4%Z
      | exists 5%Z | exists 6%Z | exists 7%Z | exists 8%Z | exists 9%Z ];
      (split; [reflexivity | lia]).
Qed.

Lemma truncated_mmi_negative (z : Z) :
  (z < 0)%Z -> truncated_mmi z = Raise ValueError.
Proof. destruct z; [lia | lia | reflexivity]. Qed.

Lemma truncated_mmi_single_digit (z : Z) :
  (0 <= z <= 9)%Z -> truncated_mmi z = Ok z.
Proof.
  intros Hz.
  assert (z = 0 \/ z = 1 \/ z = 2 \/ z = 3 \/ z = 4 \/ z = 5 \/ z = 6 \/
          z = 7 \/ z = 8 \/ z = 9)%Z as H by lia.
  repeat (destruct H as [-> | H]; [reflexivity |]). by subst.
Qed.

Lemma collect_polys_loop (gm_contours : list (contour_json P)) acc :
  Forall (fun c => (0 <= json_mmi c)%Z) gm_contours ->
  exists recorded,
    for_each
      (fun allMMIpolys contour =>
         MMIval ← truncated_mmi (json_mmi contour);
         Ok (allMMIpolys ++ [(MMIval, json_polygon contour)]))
      gm_contours acc = Ok (acc ++ recorded) /\
    Forall2 recorded_as gm_contours recorded.
Proof.
  intros H. revert acc. induction H as [|c cs Hc _ IH]; intros acc.
  - exists []. cbn. rewrite app_nil_r. split; [done | constructor].
  - destruct (truncated_mmi_nonneg _ Hc) as (d & Hd & _).
    cbn. rewrite Hd. cbn.
    destruct (IH (acc ++ [(d, json_polygon c)])) as (rec & -> & Hrec).
    exists ((d, json_polygon c) :: rec). rewrite <- app_assoc. cbn.
    split; [done |]. constructor; [by split | exact Hrec].
Qed.

Lemma Get_polygons_ok (gm_contours : list (contour_json P)) :
  Forall (fun c => (0 <= json_mmi c)%Z) gm_contours ->
  exists recorded,
    Get_polygons gm_contours = Ok (sorted_desc recorded) /\
    Forall2 recorded_as gm_contours recorded.
Proof.
  intros H. unfold Get_polygons, collect_polys.
  destruct (collect_polys_loop gm_contours [] H) as (rec & -> & Hrec).
  exists rec. by split.
Qed.

Lemma recorded_single_digits (gm_contours : list (contour_json P)) recorded :
  Forall2 recorded_as gm_contours recorded ->
  Forall (fun c => (0 <= json_mmi c <= 9)%Z) gm_contours ->
  recorded = map (fun c => (json_mmi c, json_polygon c)) gm_contours.
Proof.
  induction 1 as [|c m cs ms [Hm Hp] _ IH]; intros Hd; [done |].
  apply Forall_cons in Hd as [Hc Hd]. cbn. f_equal; [|by apply IH].
  rewrite (truncated_mmi_single_digit _ Hc) in Hm.
  destruct m as [m1 m2]. cbn in *. congruence.
Qed.

Lemma collect_polys_negative (gm_contours : list (contour_json P)) : forall acc,
  Exists (fun c => (json_mmi c < 0)%Z) gm_contours ->
  for_each
    (fun allMMIpolys contour =>
       MMIval ← truncated_mmi (json_mmi contour);
       Ok (allMMIpolys ++ [(MMIval, json_polygon contour)]))
    gm_contours acc = Raise ValueError.
Proof.
  induction gm_contours as [|c cs IH]; intros acc Hex.
  - by apply Exists_nil in Hex.
  - cbn [for_each]. destruct (Z_lt_le_dec (json_mmi c) 0) as [Hneg | Hpos].
    + by rewrite (truncated_mmi_negative _ Hneg).
    + destruct (truncated_mmi_nonneg _ Hpos) as (d & -> & _). cbn.
      apply IH. apply Exists_cons in Hex as [Hc | Hex]; [lia | done].
Qed.

(** The claim as stated: the list returned holds the pairs of the contours,
    each with the MMI of its contour, in descending order of MMI. *)
Definition sorted_by_MMI (gm_contours : list (contour_json P))
    (MMIlist : list (Z * P)) : Prop :=
  MMIlist ≡ₚ map (fun c => (json_mmi c, json_polygon c)) gm_contours /\
  greatest_to_least MMIlist.

(** C10 (amended).  For every contour list, [Get_polygons] raises
    [ValueError] when the MMI of some contour is negative; otherwise it
    returns the pairs it records, one per contour, in greatest-to-least
    order of the level recorded.  The level recorded for a contour is
    [int(str(MMI)[:1])], the leading decimal digit of its MMI.  When every
    MMI is a single digit, from 0 to 9, the level recorded is the MMI and
    the list is sorted by MMI, as [getIntensityLevel] expects. *)
Theorem Get_polygons_greatest_to_least (gm_contours : list (contour_json P)) :
  match Get_polygons gm_contours with
  | Ok MMIlist =>
      Forall (fun c => (0 <= json_mmi c)%Z) gm_contours /\
      greatest_to_least MMIlist /\
      (exists recorded,
         MMIlist ≡ₚ recorded /\ Forall2 recorded_as gm_contours recorded) /\
      (Forall (fun c => (json_mmi c <= 9)%Z) gm_contours ->
       sorted_by_MMI gm_contours MMIlist)
  | Raise e =>
      e = ValueError /\ Exists (fun c => (json_mmi c < 0)%Z) gm_contours
  end.
Proof.
  destruct (decide (Forall (fun c => (0 <= json_mmi c)%Z) gm_contours))
    as [H | H].
  - destruct (Get_polygons_ok gm_contours H) as (rec & -> & Hrec).
    split; [exact H |]. split; [apply sorted_desc_sorted |]. split.
    + exists rec. split; [apply sorted_desc_perm | exact Hrec].
    + intros H9. split; [| apply sorted_desc_sorted].
      rewrite (sorted_desc_perm rec).
      rewrite (recorded_single_digits gm_contours rec Hrec); [done |].
      rewrite Forall_forall in H, H9. apply Forall_forall.
      intros c Hc. split; [by apply H | by apply H9].
  - apply not_Forall_Exists in H; [| apply _].
    assert (Exists (fun c => (json_mmi c < 0)%Z) gm_contours) as Hex.
    { eapply Exists_impl; [exact H |]. intros c Hc. cbv [compose] in Hc. lia. }
    unfold Get_polygons, collect_polys.
    rewrite (collect_polys_negative gm_contours [] Hex). by split.
Qed.

End WithPolygon.

(** The MMI levels of the contours of the unit-test fixture, shuffled. *)
Definition sample_contours : list (contour_json string) :=
  [ MkContourJson 3 "p3"; MkContourJson 6 "p6"; MkContourJson 2 "p2";
    MkContourJson 5 "p5"; MkContourJson 4 "p4" ].

Lemma sample_contours_nonneg :
  Forall (fun c : contour_json string => (0 <= json_mmi c)%Z) sample_contours.
Proof. repeat constructor; cbn; lia. Qed.

(** C10 (as stated, refuted).  Of the contours at MMI 10, 9 and 8 the
    first is recorded at level 1 and comes last: the list returned is not
    the pairs of the contours sorted by MMI.  (A negative MMI makes
    [Get_polygons] raise.) *)
Lemma Get_polygons_not_sorted_by_MMI :
  ~ (forall gm_contours : list (contour_json string),
       exists MMIlist,
         Get_polygons gm_contours = Ok MMIlist /\
         sorted_by_MMI gm_contours MMIlist).
Proof.
  intros H.
  destruct (H [ MkContourJson 10 "p10"; MkContourJson 9 "p9";
                MkContourJson 8 "p8" ]%Z) as (l & Hget & Hperm & _).
  vm_compute in Hget. injection Hget as <-.
  assert ((1%Z, "p10") ∈ [(9, "p9"); (8, "p8"); (1, "p10")]%Z) as Hin
    by (apply elem_of_cons; right; apply elem_of_cons; right;
        apply elem_of_cons; by left).
  rewrite Hperm in Hin. cbn in Hin.
  repeat (apply elem_of_cons in Hin as [Hin | Hin]; [discriminate |]).
  by apply elem_of_nil in Hin.
Qed.

Example Get_polygons_tenth_level :
  Get_polygons [ MkContourJson 10 "p10"; MkContourJson 9 "p9";
                 MkContourJson 8 "p8" ]%Z =
    Ok [(9, "p9"); (8, "p8"); (1, "p10")]%Z.
Proof. reflexivity. Qed.

Example Get_polygons_negative_level :
  Get_polygons [ MkContourJson 4 "p4"; MkContourJson (-1) "q" ]%Z =
    Raise ValueError.
Proof. reflexivity. Qed.

Example Get_polygons_sample :
  Get_polygons sample_contours =
    Ok [(6, "p6"); (5, "p5"); (4, "p4"); (3, "p3"); (2, "p2")]%Z.
Proof. reflexivity. Qed.

(** Equal MMI values keep their order, and MMI 10 is recorded as 1. *)
Example Get_polygons_stable_and_truncating :
  Get_polygons [ MkContourJson 4 "a"; MkContourJson 10 "x";
                 MkContourJson 4 "b"; MkContourJson 7 "c" ]%Z =
    Ok [(7, "c"); (4, "a"); (4, "b"); (1, "x")]%Z.
Proof. reflexivity. Qed.

End GetPolygonsFacts.



(** ** Construction of a contour *)

Module ContourFacts.
Import ShakeAlertParser.

Section WithField.
Context {V : Type} `{EqDecision V}.
Implicit Types (a b : Coord V) (polygon : list (Coord V)).

Lemma Coord_ne_spec a b : Coord_ne a b = true <-> a <> b.
Proof.
  unfold Coord_ne. destruct a as [la lo], b as [la' lo']. cbn.
  rewrite orb_true_iff, !bool_decide_eq_true. split.
  - intros [Hne | Hne] [= -> ->]; by apply Hne.
  - intros Hne. destruct (decide (la = la')) as [-> | Hla]; [|by left].
    right. intros ->. by apply Hne.
Qed.

Lemma Coord_ne_false a b : Coord_ne a b = false <-> a = b.
Proof.
  rewrite <- not_true_iff_false, Coord_ne_spec. split.
  - intros Hnn. destruct a as [la lo], b as [la' lo'].
    destruct (decide (la = la')) as [-> | Hla];
      [destruct (decide (lo = lo')) as [-> | Hlo]; [done |] |];
      exfalso; apply Hnn; congruence.
  - intros -> Hne. by apply Hne.
Qed.

(** C5. Constructing a [GMContour] raises the validation error
    ([ValueError]) exactly when the vertex list has a first and a last
    coordinate and they differ; it succeeds exactly when the first
    coordinate equals the last, and the contour then holds the MMI and the
    vertex list as given. *)
Theorem GMContour_init_closed_polygon
    (mmi : Z) polygon (pga pgv : option Q) :
  (GMContour_init mmi polygon pga pgv = Raise ValueError <->
   exists first final,
     polygon !! 0%nat = Some first /\ last polygon = Some final /\
     first <> final) /\
  (forall c,
     GMContour_init mmi polygon pga pgv = Ok c <->
     (exists first,
        polygon !! 0%nat = Some first /\ last polygon = Some first) /\
     c = MkGMContour mmi polygon pga pgv).
Proof.
  unfold GMContour_init.
  destruct (polygon !! 0%nat) as [first|] eqn:E0;
    [destruct (last polygon) as [final|] eqn:E1 |].
  - destruct (Coord_ne first final) eqn:Ene.
    + apply Coord_ne_spec in Ene. split.
      * split; [intros _; by exists first, final |done].
      * intros c. split; [done |].
        intros [(f & [= <-] & [= Hf]) _]. by destruct Ene.
    + apply Coord_ne_false in Ene as ->. split.
      * split; [done |]. by intros (f & f' & [= <-] & [= <-] & Hne).
      * intros c. split.
        -- intros [= <-]. split; [by exists final | done].
        -- by intros [_ ->].
  - split.
    + split; [done |]. by intros (f & f' & _ & ? & _).
    + intros c. split; [done |]. by intros [(f & _ & ?) _].
  - split.
    + split; [done |]. by intros (f & f' & ? & _).
    + intros c. split; [done |]. by intros [(f & ? & _) _].
Qed.

End WithField.

(** A closed triangle and the same vertices without the closing one, with
    the string fields that [parse_gm_contours] produces. *)
Definition closed_triangle : list (Coord string) :=
  [ MkCoord "40.44" "-123.98"; MkCoord "40.42" "-123.93";
    MkCoord "40.39" "-123.92"; MkCoord "40.44" "-123.98" ].

Example GMContour_init_closed :
  GMContour_init 6 closed_triangle None None =
    Ok (MkGMContour 6 closed_triangle None None).
Proof. reflexivity. Qed.

Example GMContour_init_open :
  GMContour_init 6 (take 3 closed_triangle) None None = Raise ValueError.
Proof. reflexivity. Qed.

Example GMContour_init_empty :
  GMContour_init (V := string) 6 [] None None = Raise IndexError.
Proof. reflexivity. Qed.

End ContourFacts.

(** ** Nearest cities *)

Module CitiesFacts.
Import PyCities PointInPolyFacts.

(** *** The compass direction never raises *)

Lemma py_mod_360_range (q : Q) : (0 <= py_mod_360 q < 360)%Q.
Proof.
  unfold py_mod_360.
  pose proof (Qfloor_le (q / 360)) as Hlo.
  pose proof (Qlt_floor (q / 360)) as Hhi.
  rewrite inject_Z_plus in Hhi. change (inject_Z 1) with 1%Q in Hhi.
  assert (q == q / 360 * 360)%Q as Hq by (field).
  set (f := inject_Z (Qfloor (q / 360))) in *.
  split; lra.
Qed.

Lemma py_int_Q_range (q : Q) (n : Z) :
  (0 <= q < inject_Z n)%Q -> (0 <= py_int_Q q < n)%Z.
Proof.
  intros [Hlo Hhi]. unfold py_int_Q.
  assert (0 <= Qnum q)%Z as Hnum.
  { destruct q as [a b]. unfold Qle in Hlo. cbn in *. lia. }
  rewrite Z.quot_div_nonneg by lia.
  assert ((Qnum q / Z.pos (Qden q))%Z = Qfloor q) as -> by (by destruct q).
  split.
  - rewrite <- (Qfloor_Z 0). by apply Qfloor_resp_le.
  - pose proof (Qfloor_le q) as Hf.
    assert (inject_Z (Qfloor q) < inject_Z n)%Q as Hlt by lra.
    by rewrite <- Zlt_Qlt in Hlt.
Qed.

Lemma get_compass_direction_ok (b : Q) :
  (0 <= b < 360)%Q -> exists s, get_compass_direction b = Ok s.
Proof.
  intros Hb. unfold get_compass_direction.
  set (index := if Qltb (b - (45 # 2)) 0 then (b - (45 # 2) + 360)%Q
                else (b - (45 # 2))%Q).
  assert (0 <= index / 45 < inject_Z 8)%Q as Hi.
  { assert (0 <= index < 360)%Q as Hi.
    { unfold index. destruct (Qltb (b - (45 # 2)) 0) eqn:E.
      - apply Qltb_lt in E. lra.
      - apply Qltb_ge in E. lra. }
    change (inject_Z 8) with 8%Q.
    assert (index == index / 45 * 45)%Q as Hq by field.
    split; lra. }
  apply py_int_Q_range in Hi.
  set (j := py_int_Q (index / 45)) in *.
  assert (j = 0 \/ j = 1 \/ j = 2 \/ j = 3 \/ j = 4 \/ j = 5 \/ j = 6 \/ j = 7)%Z
    as H by lia.
  repeat (destruct H as [-> | H]; [eexists; reflexivity |]).
  rewrite H. eexists; reflexivity.
Qed.

(** *** The selection of a city per slot *)

Section Selection.
Context (distanceBetween : Q -> Q -> Q -> Q -> Q).
Context (lat lon : Q) (categories : list string).

Local Abbreviation scan_slot := (scan_slot distanceBetween lat lon categories).
Local Abbreviation scan_city := (scan_city distanceBetween lat lon categories).

(** Every filled slot holds a city of the part [seen] of the catalog whose
    category is the one requested at that slot. *)
Definition slots_ok (seen : list (string * city_values)) (st : selection)
    : Prop :=
  length (nearest_cities st) = length categories /\
  length (distances st) = length categories /\
  forall i name,
    nearest_cities st !! i = Some (Some name) ->
    exists values,
      (name, values) ∈ seen /\ categories !! i = Some (category values).

(** No city fills two slots. *)
Definition slots_distinct (st : selection) : Prop :=
  forall i j name,
    nearest_cities st !! i = Some (Some name) ->
    nearest_cities st !! j = Some (Some name) -> i = j.

Lemma slots_ok_mono seen seen' st :
  seen ⊆ seen' -> slots_ok seen st -> slots_ok seen' st.
Proof.
  intros Hsub (Hn & Hd & Hs). split; [done |]. split; [done |].
  intros i name Hi. destruct (Hs i name Hi) as (v & Hv & Hc).
  exists v. split; [by apply Hsub | done].
Qed.

Lemma scan_slot_ok seen city values st index :
  (city, values) ∈ seen ->
  slots_ok seen st -> slots_ok seen (scan_slot city values st index).
Proof.
  intros Hin (Hn & Hd & Hs). unfold PyCities.scan_slot.
  destruct (categories !! index) as [cat|] eqn:Ecat; [|done].
  destruct (distances st !! index) as [dist|] eqn:Edist; [|done].
  destruct (decide (cat = category values)) as [-> | _]; [|done].
  destruct (Qltb _ dist); [|done].
  destruct (excluded _ _ _ _ _); [done |].
  unfold slots_ok. cbn [nearest_cities distances].
  split; [by rewrite length_insert |]. split; [by rewrite length_insert |].
  intros i name Hi.
  destruct (decide (i = index)) as [-> | Hne].
  - rewrite list_lookup_insert_eq in Hi.
    + injection Hi as <-. by exists values.
    + rewrite Hn. by eapply lookup_lt_Some.
  - rewrite list_lookup_insert_ne in Hi by done. by apply Hs.
Qed.

Lemma excluded_false_iff st cat city index :
  excluded categories st cat city index = false <->
  forall i, (i < index)%nat ->
            ~ (categories !! i = Some cat /\
               nearest_cities st !! i = Some (Some city)).
Proof.
  unfold excluded. rewrite <- not_true_iff_false, existsb_exists. split.
  - intros Hno i Hi [Hc Hn]. apply Hno. exists i. split.
    + apply in_seq. lia.
    + by rewrite andb_true_iff, !bool_decide_eq_true.
  - intros Hno (i & Hi & Hb). apply in_seq in Hi.
    rewrite andb_true_iff, !bool_decide_eq_true in Hb.
    apply (Hno i); [lia | done].
Qed.

Lemma same_key_same_value {A B : Type} (l : list (A * B)) x y1 y2 :
  NoDup l.*1 -> (x, y1) ∈ l -> (x, y2) ∈ l -> y1 = y2.
Proof.
  induction l as [|[a b] l IH]; cbn; intros Hnd H1 H2.
  - by apply elem_of_nil in H1.
  - apply NoDup_cons in Hnd as [Ha Hnd].
    apply elem_of_cons in H1 as [H1 | H1];
      apply elem_of_cons in H2 as [H2 | H2]; simplify_eq; [done | | |].
    + destruct Ha. apply list_elem_of_fmap. by exists (a, y2).
    + destruct Ha. apply list_elem_of_fmap. by exists (a, y1).
    + by apply IH.
Qed.

(** The state of the loop over the slots for one city, after the slots
    below [k]: the city fills no slot from [k] on. *)
Definition city_below (city : string) (k : nat) (st : selection) : Prop :=
  forall i, nearest_cities st !! i = Some (Some city) -> (i < k)%nat.

Lemma scan_slot_distinct seen city values st k :
  NoDup seen.*1 -> (city, values) ∈ seen ->
  slots_ok seen st -> slots_distinct st -> city_below city k st ->
  slots_distinct (scan_slot city values st k) /\
  city_below city (S k) (scan_slot city values st k).
Proof.
  intros Hnd Hin (Hn & Hd & Hs) Hdis Hbelow.
  assert (Hkeep : slots_distinct st /\ city_below city (S k) st).
  { split; [done |]. intros i Hi. specialize (Hbelow i Hi). lia. }
  unfold PyCities.scan_slot.
  destruct (categories !! k) as [cat|] eqn:Ecat; [|done].
  destruct (distances st !! k) as [dist|] eqn:Edist; [|done].
  destruct (decide (cat = category values)) as [-> | _]; [|done].
  destruct (Qltb _ dist); [|done].
  destruct (excluded _ _ _ _ _) eqn:Eex; [done |].
  assert (Hk : (k < length (nearest_cities st))%nat).
  { rewrite Hn. by eapply lookup_lt_Some. }
  assert (Habsent : forall i, nearest_cities st !! i <> Some (Some city)).
  { intros i Hi. pose proof (Hbelow i Hi) as Hlt.
    rewrite excluded_false_iff in Eex. apply (Eex i Hlt). split; [|done].
    destruct (Hs i city Hi) as (v & Hv & Hc).
    by rewrite (same_key_same_value seen city values v Hnd Hin Hv). }
  unfold slots_distinct, city_below. cbn [nearest_cities distances]. split.
  - intros i j name Hi Hj.
    destruct (decide (i = k)) as [-> | Hik], (decide (j = k)) as [-> | Hjk];
      [done | | |].
    + rewrite list_lookup_insert_eq in Hi by done. injection Hi as <-.
      rewrite list_lookup_insert_ne in Hj by done. by destruct (Habsent j).
    + rewrite list_lookup_insert_eq in Hj by done. injection Hj as <-.
      rewrite list_lookup_insert_ne in Hi by done. by destruct (Habsent i).
    + rewrite list_lookup_insert_ne in Hi, Hj by done. by eapply Hdis.
  - intros i Hi. destruct (decide (i = k)) as [-> | Hik]; [lia |].
    rewrite list_lookup_insert_ne in Hi by done. by destruct (Habsent i).
Qed.

Lemma scan_slots_inv seen city values st n :
  NoDup seen.*1 -> (city, values) ∈ seen ->
  slots_ok seen st -> slots_distinct st -> city_below city 0 st ->
  let st' := foldl (scan_slot city values) st (seq 0 n) in
  slots_ok seen st' /\ slots_distinct st' /\ city_below city n st'.
Proof.
  intros Hnd Hin Hok Hdis Hbelow. induction n as [|n IH]; [done |].
  rewrite seq_S, foldl_app. cbn. destruct IH as (Hok' & Hdis' & Hbelow').
  split; [by apply scan_slot_ok |].
  by apply (scan_slot_distinct seen).
Qed.

Lemma scan_slots_ok seen city values st n :
  (city, values) ∈ seen -> slots_ok seen st ->
  slots_ok seen (foldl (scan_slot city values) st (seq 0 n)).
Proof.
  intros Hin Hok. induction n as [|n IH]; [done |].
  rewrite seq_S, foldl_app. cbn. by apply scan_slot_ok.
Qed.

Definition initial_selection : selection :=
  MkSelection (replicate (length categories) None)
              (replicate (length categories) 1000000%Q).

Lemma initial_selection_ok : slots_ok [] initial_selection.
Proof.
  split; [apply length_replicate |]. split; [apply length_replicate |].
  cbn. intros i name Hi. by apply lookup_replicate_1 in Hi as [? _].
Qed.

Lemma initial_selection_distinct : slots_distinct initial_selection.
Proof.
  intros i j name Hi _. by apply lookup_replicate_1 in Hi as [? _].
Qed.

Lemma scan_cities_ok seen rest st :
  slots_ok seen st -> slots_ok (seen ++ rest) (foldl scan_city st rest).
Proof.
  revert seen st. induction rest as [|[city values] rest IH]; intros seen st Hok.
  - by rewrite app_nil_r.
  - cbn. replace (seen ++ (city, values) :: rest)
      with ((seen ++ [(city, values)]) ++ rest) by by rewrite <- app_assoc.
    apply IH. unfold PyCities.scan_city. cbn. apply scan_slots_ok.
    + apply elem_of_app. right. by left.
    + eapply slots_ok_mono; [|done]. intros x Hx. apply elem_of_app. by left.
Qed.

Lemma scan_cities_distinct seen rest st :
  NoDup (seen ++ rest).*1 ->
  slots_ok seen st -> slots_distinct st ->
  slots_distinct (foldl scan_city st rest).
Proof.
  revert seen st.
  induction rest as [|[city values] rest IH]; intros seen st Hnd Hok Hdis;
    [done |].
  cbn. replace (seen ++ (city, values) :: rest)
    with ((seen ++ [(city, values)]) ++ rest) in Hnd by by rewrite <- app_assoc.
  assert (Hnd1 : NoDup (seen ++ [(city, values)]).*1).
  { rewrite fmap_app in Hnd. by apply NoDup_app in Hnd as [? _]. }
  assert (Hfresh : city_below city 0 st).
  { intros i Hi. destruct Hok as (_ & _ & Hs).
    destruct (Hs i city Hi) as (v & Hv & _).
    rewrite fmap_app in Hnd1. apply NoDup_app in Hnd1 as (_ & Hdisj & _).
    destruct (Hdisj city).
    - apply list_elem_of_fmap. by exists (city, v).
    - cbn. by left. }
  destruct (scan_slots_inv (seen ++ [(city, values)]) city values st
              (length categories)) as (Hok' & Hdis' & _); try done.
  - apply elem_of_app. right. by left.
  - eapply slots_ok_mono; [|done]. intros x Hx. apply elem_of_app. by left.
  - by apply (IH (seen ++ [(city, values)])).
Qed.

End Selection.

(** *** The returned dictionary *)

Section Catalog.
Context (distanceBetween : Q -> Q -> Q -> Q -> Q) (sqrt : Q -> Q).
Context (initial_bearing : Q * Q -> Q * Q -> Q).
Context (cities : list (string * city_values)).

Local Abbreviation select_cities := (select_cities distanceBetween cities).
Local Abbreviation add_city := (add_city sqrt initial_bearing cities).
Local Abbreviation getCityList :=
  (getCityList distanceBetween sqrt initial_bearing cities).
Local Abbreviation closest_cities :=
  (closest_cities distanceBetween sqrt initial_bearing cities).

Lemma select_cities_ok lat lon categories :
  slots_ok categories cities (select_cities lat lon categories).
Proof.
  apply (scan_cities_ok distanceBetween lat lon categories [] cities).
  apply initial_selection_ok.
Qed.

Lemma select_cities_distinct lat lon categories :
  NoDup cities.*1 -> slots_distinct (select_cities lat lon categories).
Proof.
  intros Hnd.
  apply (scan_cities_distinct distanceBetween lat lon categories [] cities);
    [done | apply initial_selection_ok | apply initial_selection_distinct].
Qed.

(** A requested category that no catalog entry has leaves its slot at the
    placeholder [None]. *)
Lemma select_cities_missing lat lon categories k c :
  categories !! k = Some c ->
  (forall name values, (name, values) ∈ cities -> category values <> c) ->
  nearest_cities (select_cities lat lon categories) !! k = Some None.
Proof.
  intros Hk Hnone.
  destruct (select_cities_ok lat lon categories) as (Hn & _ & Hs).
  destruct (lookup_lt_is_Some_2 (nearest_cities (select_cities lat lon categories)) k)
    as [[name|] Hx]; [rewrite Hn; by eapply lookup_lt_Some | | done].
  destruct (Hs k name Hx) as (v & Hv & Hc).
  rewrite Hk in Hc. injection Hc as ->. by destruct (Hnone name v).
Qed.

Lemma dict_get_ok {A : Type} (d : list (string * A)) (k : string) :
  k ∈ d.*1 -> exists v, dict_get d k = Ok v.
Proof.
  induction d as [|[k' v'] d IH]; cbn; intros Hk.
  - by apply elem_of_nil in Hk.
  - destruct (decide (k' = k)); [by eexists |].
    apply elem_of_cons in Hk as [-> | Hk]; [done | by apply IH].
Qed.

Lemma dict_set_fresh {A : Type} (d : list (string * A)) (k : string) (v : A) :
  k ∉ d.*1 -> dict_set d k v = d ++ [(k, v)].
Proof.
  induction d as [|[k' v'] d IH]; cbn; intros Hk; [done |].
  apply not_elem_of_cons in Hk as [Hne Hk].
  destruct (decide (k' = k)); [done |]. by rewrite IH.
Qed.

(** A slot of the second loop, filled with a city of the catalog. *)
Definition filled (slot : string * (option string * Q)) : Prop :=
  exists name, fst (snd slot) = Some name /\ name ∈ cities.*1.

Definition filled_or_empty (slot : string * (option string * Q)) : Prop :=
  forall name, fst (snd slot) = Some name -> name ∈ cities.*1.

Lemma add_city_filled lat lon depth time_delta acc cat name dist :
  name ∈ cities.*1 ->
  exists info,
    add_city lat lon depth time_delta acc (cat, (Some name, dist)) =
      Ok (dict_set acc name info) /\
    info_category info = cat /\ distance info = dist.
Proof.
  intros Hname. unfold PyCities.add_city.
  destruct (dict_get_ok cities name Hname) as [v ->]. cbn.
  destruct (get_compass_direction_ok
              (calculate_initial_compass_bearing initial_bearing
                 (PyCities.lat v, PyCities.lon v) (lat, lon))) as [s ->].
  { apply py_mod_360_range. }
  cbn. by eexists.
Qed.

Lemma build_cases lat lon depth time_delta slots acc :
  Forall filled_or_empty slots ->
  (Forall filled slots /\
   exists res, for_each (add_city lat lon depth time_delta) slots acc = Ok res) \/
  (Exists (fun slot => fst (snd slot) = None) slots /\
   for_each (add_city lat lon depth time_delta) slots acc = Raise KeyError).
Proof.
  intros H. revert acc.
  induction H as [|[cat [[name|] dist]] slots Hs _ IH]; intros acc.
  - left. split; [constructor | by eexists].
  - destruct (add_city_filled lat lon depth time_delta acc cat name dist)
      as (info & Hadd & _); [by apply Hs |].
    cbn [for_each]. rewrite Hadd. cbn.
    destruct (IH (dict_set acc name info)) as [[Hf Hok] | [He Hraise]].
    + left. split; [|done]. constructor; [|done]. exists name.
      split; [done | by apply Hs].
    + right. split; [by right | done].
  - right. split; [by left | done].
Qed.

Lemma build_distinct lat lon depth time_delta slots names acc :
  Forall2 (fun slot name => fst (snd slot) = Some name) slots names ->
  Forall (fun name => name ∈ cities.*1) names ->
  NoDup (acc.*1 ++ names) ->
  exists entries,
    for_each (add_city lat lon depth time_delta) slots acc = Ok (acc ++ entries) /\
    entries.*1 = names /\
    Forall2 (fun slot e => info_category (snd e) = fst slot /\
                           distance (snd e) = snd (snd slot)) slots entries.
Proof.
  intros H. revert acc.
  induction H as [|[cat [o dist]] name slots names Hname _ IH];
    intros acc Hin Hnd.
  - exists []. by rewrite app_nil_r.
  - cbn in Hname. subst o. apply Forall_cons in Hin as [Hn Hin].
    destruct (add_city_filled lat lon depth time_delta acc cat name dist Hn)
      as (info & Hadd & Hcat & Hdist).
    cbn [for_each]. rewrite Hadd. cbn.
    rewrite dict_set_fresh.
    2:{ apply NoDup_app in Hnd as (_ & Hdisj & _). intros Hacc.
        apply (Hdisj name Hacc). by left. }
    destruct (IH (acc ++ [(name, info)]) Hin) as (entries & -> & Hk & Hrel).
    { rewrite fmap_app. cbn. by rewrite <- app_assoc. }
    exists ((name, info) :: entries). rewrite <- app_assoc. cbn.
    split; [done |]. split; [by rewrite Hk |]. by constructor.
Qed.

Lemma slots_valid lat lon categories :
  let st := select_cities lat lon categories in
  Forall filled_or_empty (zip categories (zip (nearest_cities st) (distances st))).
Proof.
  intros st. apply Forall_lookup. intros k [cat [o dist]] Hk name Hname.
  cbn in Hname. subst o.
  apply lookup_zip_Some in Hk as [_ Hk]. apply lookup_zip_Some in Hk as [Hk _].
  destruct (select_cities_ok lat lon categories) as (_ & _ & Hs).
  destruct (Hs k name Hk) as (v & Hv & _).
  apply list_elem_of_fmap. by exists (name, v).
Qed.

Lemma slots_lookup lat lon categories k :
  let st := select_cities lat lon categories in
  (k < length categories)%nat ->
  exists cat o dist,
    categories !! k = Some cat /\ nearest_cities st !! k = Some o /\
    distances st !! k = Some dist /\
    zip categories (zip (nearest_cities st) (distances st)) !! k =
      Some (cat, (o, dist)).
Proof.
  intros st Hk.
  destruct (select_cities_ok lat lon categories) as (Hn & Hd & _). fold st in Hn, Hd.
  destruct (lookup_lt_is_Some_2 categories k Hk) as [cat Hcat].
  destruct (lookup_lt_is_Some_2 (nearest_cities st) k) as [o Ho]; [lia |].
  destruct (lookup_lt_is_Some_2 (distances st) k) as [dist Hdist]; [lia |].
  exists cat, o, dist. repeat split; try done.
  apply lookup_zip_Some. split; [done |]. by apply lookup_zip_Some.
Qed.

(** [getCityList] returns exactly when every slot is filled, and raises
    [KeyError] when a slot is left at the placeholder. *)
Lemma getCityList_returns_iff lat lon depth categories time_delta :
  let st := select_cities lat lon categories in
  ((exists res, getCityList lat lon depth categories time_delta = Ok res) <->
   (forall k, (k < length categories)%nat ->
              exists name, nearest_cities st !! k = Some (Some name))) /\
  ((exists k, nearest_cities st !! k = Some None) ->
   getCityList lat lon depth categories time_delta = Raise KeyError).
Proof.
  intros st. unfold PyCities.getCityList. fold st.
  destruct (build_cases lat lon depth time_delta
              (zip categories (zip (nearest_cities st) (distances st))) [])
    as [[Hf [res Hres]] | [He Hraise]]; [apply slots_valid | |].
  - assert (Hall : forall k, (k < length categories)%nat ->
                    exists name, nearest_cities st !! k = Some (Some name)).
    { intros k Hk.
      destruct (slots_lookup lat lon categories k Hk)
        as (cat & o & dist & _ & Ho & _ & Hz).
      rewrite Forall_lookup in Hf. destruct (Hf _ _ Hz) as (name & Hname & _).
      cbn in Hname. subst o. by exists name. }
    split; [split; [done | by exists res] |].
    intros [k Hk]. exfalso.
    destruct (select_cities_ok lat lon categories) as (Hn & _ & _).
    destruct (Hall k) as [name Hname];
      [rewrite <- Hn; by eapply lookup_lt_Some | congruence].
  - rewrite Hraise. split; [|done]. split; [by intros [res ?] |].
    intros Hall. exfalso. apply Exists_exists in He as ([cat [o dist]] & Hin & Ho).
    cbn in Ho. subst o. apply list_elem_of_lookup in Hin as [k Hk].
    apply lookup_zip_Some in Hk as [Hcat Hk].
    apply lookup_zip_Some in Hk as [Hk _].
    destruct (Hall k) as [name Hname]; [by eapply lookup_lt_Some | congruence].
Qed.

Lemma all_filled_names (l : list (option string)) :
  (forall k, (k < length l)%nat -> exists name, l !! k = Some (Some name)) ->
  exists names, l = Some <$> names.
Proof.
  induction l as [|o l IH]; intros H.
  - by exists [].
  - destruct (H 0%nat) as [name [= ->]]; [cbn; lia |].
    destruct IH as [names ->].
    { intros k Hk. apply (H (S k)). cbn. lia. }
    by exists (name :: names).
Qed.

(** When every slot is filled, the keys of the returned dictionary are the
    selected cities in slot order, each with the distance and the category
    of its slot. *)
Lemma getCityList_slots lat lon depth categories time_delta res :
  NoDup cities.*1 ->
  getCityList lat lon depth categories time_delta = Ok res ->
  let st := select_cities lat lon categories in
  nearest_cities st = Some <$> res.*1 /\
  NoDup res.*1 /\
  Forall2 (fun e dist => distance (snd e) = dist) res (distances st) /\
  Forall2 (fun e cat => info_category (snd e) = cat) res categories.
Proof.
  intros Hnd Hres st.
  destruct (getCityList_returns_iff lat lon depth categories time_delta)
    as [[Hall _] _]. fold st in Hall.
  specialize (Hall (ex_intro _ res Hres)).
  destruct (select_cities_ok lat lon categories) as (Hn & Hd & Hs).
  fold st in Hn, Hd, Hs.
  destruct (all_filled_names (nearest_cities st)) as [names Hnames].
  { intros k Hk. apply Hall. by rewrite <- Hn. }
  assert (Hlen : length names = length categories).
  { by rewrite <- Hn, Hnames, length_fmap. }
  assert (Hnd' : NoDup names).
  { apply NoDup_alt. intros i j x Hi Hj.
    apply (select_cities_distinct lat lon categories Hnd i j x); fold st;
      rewrite Hnames, list_lookup_fmap; [by rewrite Hi | by rewrite Hj]. }
  set (slots := zip categories (zip (nearest_cities st) (distances st))).
  assert (Hslots : length slots = length categories).
  { unfold slots. rewrite !length_zip. lia. }
  destruct (build_distinct lat lon depth time_delta slots names [])
    as (entries & Hbuild & Hkeys & Hrel).
  - apply Forall2_same_length_lookup_2; [lia |].
    intros i [cat [o dist]] name Hi Hname. cbn.
    apply lookup_zip_Some in Hi as [_ Hi].
    apply lookup_zip_Some in Hi as [Hi _].
    rewrite Hnames, list_lookup_fmap, Hname in Hi. by injection Hi.
  - apply Forall_lookup. intros i name Hi.
    destruct (Hs i name) as (v & Hv & _).
    { by rewrite Hnames, list_lookup_fmap, Hi. }
    apply list_elem_of_fmap. by exists (name, v).
  - done.
  - unfold PyCities.getCityList in Hres. fold st slots in Hres.
    rewrite Hbuild in Hres. cbn in Hres. injection Hres as <-.
    split; [by rewrite Hkeys |]. split; [by rewrite Hkeys |].
    apply Forall2_length in Hrel as Hlen'.
    split; apply Forall2_same_length_lookup_2; try lia.
    + intros i e dist He Hdist.
      destruct (lookup_lt_is_Some_2 slots i) as [[cat [o dist']] Hslot].
      { rewrite Hlen'. by eapply lookup_lt_Some. }
      rewrite Forall2_lookup in Hrel. specialize (Hrel i).
      rewrite Hslot, He in Hrel. inversion Hrel as [? ? [_ Hdist'] | ]; subst.
      apply lookup_zip_Some in Hslot as [_ Hslot].
      apply lookup_zip_Some in Hslot as [_ Hslot]. cbn in Hdist'. congruence.
    + intros i e cat He Hcat.
      destruct (lookup_lt_is_Some_2 slots i) as [[cat' [o dist']] Hslot].
      { rewrite Hlen'. by eapply lookup_lt_Some. }
      rewrite Forall2_lookup in Hrel. specialize (Hrel i).
      rewrite Hslot, He in Hrel. inversion Hrel as [? ? [Hcat' _] | ]; subst.
      apply lookup_zip_Some in Hslot as [Hslot _]. cbn in Hcat'. congruence.
Qed.

(** C4 (amended).  A requested category with no matching catalog entry
    leaves its slot at the placeholder [None] in the selection; the query
    returns a result exactly when every requested slot found a city, and
    with a slot left at the placeholder it raises instead of returning. *)
Theorem missing_category_leaves_no_result
    (lat lon depth : Q) (categories : list string) (time_delta : Q) :
  let st := select_cities lat lon categories in
  (forall k c,
      categories !! k = Some c ->
      (forall name values, (name, values) ∈ cities -> category values <> c) ->
      nearest_cities st !! k = Some None) /\
  ((exists res, getCityList lat lon depth categories time_delta = Ok res) <->
   (forall k, (k < length categories)%nat ->
              exists name, nearest_cities st !! k = Some (Some name))) /\
  ((exists k, nearest_cities st !! k = Some None) ->
   getCityList lat lon depth categories time_delta = Raise KeyError).
Proof.
  intros st. split.
  - intros k c. apply select_cities_missing.
  - apply getCityList_returns_iff.
Qed.

(** C2.  When the selection for C,B,B,A returns and the city of the second
    slot (the first B) is strictly closer than the city of the first slot
    (the C), [getCityList] is called once more, with B,B,B,A, and what that
    call returns is the result; otherwise the first result is kept.
    Nothing else is compared and [getCityList] is never called a third
    time. *)
Theorem promotion_is_one_shot (lat lon depth delta : Q)
    (first : list (string * city_info)) :
  NoDup cities.*1 ->
  getCityList lat lon depth ["C"; "B"; "B"; "A"] delta = Ok first ->
  let st := select_cities lat lon ["C"; "B"; "B"; "A"] in
  exists c_city b_city d_c d_b,
    nearest_cities st !! 0%nat = Some (Some c_city) /\
    distances st !! 0%nat = Some d_c /\
    nearest_cities st !! 1%nat = Some (Some b_city) /\
    distances st !! 1%nat = Some d_b /\
    closest_cities lat lon depth delta =
      if Qltb d_b d_c
      then ([["C"; "B"; "B"; "A"]; ["B"; "B"; "B"; "A"]],
            getCityList lat lon depth ["B"; "B"; "B"; "A"] delta)
      else ([["C"; "B"; "B"; "A"]], Ok first).
Proof.
  intros Hnd Hfirst st.
  destruct (getCityList_slots lat lon depth _ delta first Hnd Hfirst)
    as (Hnames & Hnd' & Hdist & Hcat). fold st in Hnames, Hdist.
  apply Forall2_length in Hcat as Hlen.
  destruct first as [|[c_city e0] [|[b_city e1] rest]];
    [discriminate | discriminate |].
  destruct (distances st) as [|d_c [|d_b ds]] eqn:Eds;
    [by apply Forall2_length in Hdist
    |by apply Forall2_length in Hdist |].
  apply Forall2_cons in Hdist as [H0 Hdist].
  apply Forall2_cons in Hdist as [H1 _].
  cbn in H0, H1, Hnd'.
  exists c_city, b_city, d_c, d_b.
  rewrite Hnames. repeat split; try done.
  unfold PyCities.closest_cities. rewrite Hfirst. cbn.
  rewrite decide_True by done.
  assert (c_city <> b_city) as Hne.
  { apply NoDup_cons in Hnd' as [Hc _]. intros ->. apply Hc. by left. }
  rewrite decide_False by done. rewrite decide_True by done.
  by rewrite H0, H1.
Qed.

End Catalog.

(** *** A small catalog *)

(** The examples fix the functions of [math] by simple stand-ins (the
    distance of a city is the sum of the differences in latitude and
    longitude); the statements above hold for every choice. *)
Definition grid_distance (lat1 lon1 lat2 lon2 : Q) : Q :=
  (Qabs (lat1 - lat2) + Qabs (lon1 - lon2))%Q.

Definition no_sqrt (q : Q) : Q := q.
Definition due_north (pointA pointB : Q * Q) : Q := 0%Q.

Definition north_coast : list (string * city_values) :=
  [ ("Eureka", MkCity 5 0 26000 "C");
    ("Arcata", MkCity 1 0 18000 "B");
    ("Fortuna", MkCity 2 0 12000 "B");
    ("Ferndale", MkCity 3 0 1400 "B");
    ("Redding", MkCity 4 0 93000 "A") ].

(** The same catalog without its only category-A city. *)
Definition north_coast_without_A : list (string * city_values) :=
  take 4 north_coast.

Example north_coast_first_request :
  (fun d : list (string * city_info) => d.*1) <$>
    getCityList grid_distance no_sqrt due_north north_coast
      0 0 10 ["C"; "B"; "B"; "A"] 0 =
    Ok ["Eureka"; "Arcata"; "Fortuna"; "Redding"].
Proof. vm_compute. reflexivity. Qed.

Example north_coast_promoted :
  let '(calls, closest) :=
    closest_cities grid_distance no_sqrt due_north north_coast 0 0 10 0 in
  calls = [["C"; "B"; "B"; "A"]; ["B"; "B"; "B"; "A"]] /\
  (fun d : list (string * city_info) => d.*1) <$> closest =
    Ok ["Arcata"; "Fortuna"; "Ferndale"; "Redding"].
Proof. vm_compute. split; reflexivity. Qed.

Lemma north_coast_NoDup : NoDup north_coast.*1.
Proof. compute_done. Qed.

Definition north_coast_first : list (string * city_info) :=
  Eval vm_compute in
    match getCityList grid_distance no_sqrt due_north north_coast
            0 0 10 ["C"; "B"; "B"; "A"] 0 with
    | Ok closest => closest
    | Raise _ => []
    end.

Lemma north_coast_first_request_full :
  getCityList grid_distance no_sqrt due_north north_coast
    0 0 10 ["C"; "B"; "B"; "A"] 0 = Ok north_coast_first.
Proof. vm_compute. reflexivity. Qed.

Lemma promotion_is_one_shot_witness :
  NoDup north_coast.*1 /\
  getCityList grid_distance no_sqrt due_north north_coast
    0 0 10 ["C"; "B"; "B"; "A"] 0 = Ok north_coast_first /\
  closest_cities grid_distance no_sqrt due_north north_coast 0 0 10 0 =
    ([["C"; "B"; "B"; "A"]; ["B"; "B"; "B"; "A"]],
     getCityList grid_distance no_sqrt due_north north_coast
       0 0 10 ["B"; "B"; "B"; "A"] 0).
Proof.
  split; [exact north_coast_NoDup |].
  split; [exact north_coast_first_request_full |].
  destruct (promotion_is_one_shot grid_distance no_sqrt due_north north_coast
              0 0 10 0 north_coast_first north_coast_NoDup
              north_coast_first_request_full)
    as (c_city & b_city & d_c & d_b & _ & Hdc & _ & Hdb & Hcl).
  vm_compute in Hdc. vm_compute in Hdb.
  injection Hdc as <-. injection Hdb as <-.
  exact Hcl.
Defined.

(** C4 (as stated, refuted).  No city of the catalog has category A, and
    the query for C,B,B,A does not return a result with the other slots
    populated: it raises [KeyError]. *)
Lemma missing_category_raises :
  (forall name values,
      (name, values) ∈ north_coast_without_A -> category values <> "A") /\
  ~ (exists res,
        getCityList grid_distance no_sqrt due_north north_coast_without_A
          0 0 10 ["C"; "B"; "B"; "A"] 0 = Ok res).
Proof.
  split.
  - intros name values Hin.
    repeat (apply elem_of_cons in Hin as [[= -> ->] | Hin]; [done |]).
    by apply elem_of_nil in Hin.
  - intros [res Hres]. vm_compute in Hres. discriminate.
Qed.

Example missing_category_selection :
  nearest_cities (select_cities grid_distance north_coast_without_A 0 0
                    ["C"; "B"; "B"; "A"]) =
    [Some "Eureka"; Some "Arcata"; Some "Fortuna"; None].
Proof. vm_compute. reflexivity. Qed.

End CitiesFacts.

(** ** Time deltas *)

Module TimeDeltaFacts.
Import PyDatetime TimeDelta.

Section AnyStrptime.
Context (strptime : string -> string -> result datetime).

(** The string that is parsed: [".000"] is appended to a timestamp given
    in whole seconds. *)
Definition normalized (s : string) : string :=
  if str_in "." s then s else s +:+ ".000".

(** The encoding the [if]/[elif] chain selects for a string. *)
Definition selected_format (s : string) : option string :=
  if str_in "UTC" s then Some FMT3
  else if str_in "T" s then Some FMT1
  else if str_in " " s then Some FMT2
  else None.

Definition parses (s : string) (t : datetime) : Prop :=
  exists fmt,
    selected_format (normalized s) = Some fmt /\
    strptime (normalized s) fmt = Ok t.

(** The string as given matches one of the three encodings. *)
Definition recognized (s : string) : Prop :=
  exists t,
    strptime s FMT1 = Ok t \/ strptime s FMT2 = Ok t \/ strptime s FMT3 = Ok t.

Lemma total_seconds_between_swap (a b : datetime) :
  total_seconds_between b a = (- total_seconds_between a b)%Q.
Proof.
  unfold total_seconds_between, Qopp. cbn. f_equal. lia.
Qed.

Lemma bound_spec (r : result datetime) (t : datetime) :
  Some <$> r = Ok (Some t) <-> r = Ok t.
Proof. destruct r; cbn; split; congruence. Qed.

Lemma bound_not_None (r : result datetime) : Some <$> r <> Ok None.
Proof. by destruct r. Qed.

(** The value bound to [atime] (or [otime]) by the chain. *)
Lemma chain_spec (s : string) :
  let r := if str_in "UTC" s then Some <$> strptime s FMT3
           else if str_in "T" s then Some <$> strptime s FMT1
           else if str_in " " s then Some <$> strptime s FMT2
           else Ok None in
  (forall t, r = Ok (Some t) <->
             exists fmt, selected_format s = Some fmt /\ strptime s fmt = Ok t) /\
  (r = Ok None <-> selected_format s = None).
Proof.
  assert (forall fmt0 t,
             Some <$> strptime s fmt0 = Ok (Some t) <->
             exists fmt, Some fmt0 = Some fmt /\ strptime s fmt = Ok t) as Hsome.
  { intros fmt0 t. rewrite bound_spec. split.
    - intros H. by exists fmt0.
    - by intros (fmt & [= <-] & H). }
  assert (forall fmt0,
             Some <$> strptime s fmt0 = Ok None <-> Some fmt0 = None) as Hnone.
  { intros fmt0. split; [|done]. intros H. by apply bound_not_None in H. }
  unfold selected_format.
  destruct (str_in "UTC" s); [by split |].
  destruct (str_in "T" s); [by split |].
  destruct (str_in " " s); [by split |].
  split; [|done]. intros t. split; [done |]. by intros (fmt & ? & _).
Qed.

Lemma normalized_eq (s : string) :
  (if negb (str_in "." s) then s +:+ ".000" else s) = normalized s.
Proof. unfold normalized. by destruct (str_in "." s). Qed.

Lemma getTimeDelta_spec (alert_time origin_time : string) (d : Q) :
  getTimeDelta strptime alert_time origin_time = Ok d <->
  exists ta tb,
    parses alert_time ta /\ parses origin_time tb /\
    d = total_seconds_between ta tb.
Proof.
  unfold getTimeDelta, parses. cbv zeta. rewrite !normalized_eq.
  destruct (chain_spec (normalized alert_time)) as [Ha Ha0].
  destruct (chain_spec (normalized origin_time)) as [Hb Hb0].
  cbn zeta in Ha, Ha0, Hb, Hb0.
  destruct (if str_in "UTC" (normalized alert_time) then _ else _)
    as [[ta|]|ea]; cbn.
  2: { split; [|intros (ta & tb & (fmt & Hsel & _) & _)].
       - destruct (if str_in "UTC" (normalized origin_time) then _ else _)
           as [[tb|]|eb]; done.
       - destruct Ha0 as [Ha0 _]. rewrite Ha0 in Hsel by done. done. }
  2: { split; [done |]. intros (ta & tb & Hpa & _).
       by apply Ha in Hpa. }
  destruct (if str_in "UTC" (normalized origin_time) then _ else _)
    as [[tb|]|eb]; cbn.
  - split.
    + intros [= <-]. exists ta, tb.
      split; [by apply Ha |]. split; [by apply Hb | done].
    + intros (ta' & tb' & Hpa & Hpb & ->).
      apply Ha in Hpa. apply Hb in Hpb. by simplify_eq.
  - split; [done |]. intros (ta' & tb' & _ & (fmt & Hsel & _) & _).
    destruct Hb0 as [Hb0 _]. rewrite Hb0 in Hsel by done. done.
  - split; [done |]. intros (ta' & tb' & _ & Hpb & _). by apply Hb in Hpb.
Qed.

(** C7 (amended).  [getTimeDelta(a, b)] succeeds exactly when each of the
    two strings, with [".000"] appended when it contains no ['.'], parses
    under the encoding selected for it (the ["(UTC)"] one when it contains
    ["UTC"], else the ['T'] one when it contains ["T"], else the
    space-separated one when it contains a space); it then returns the
    difference a minus b in seconds, whose sign changes when the arguments
    are exchanged; in every other case it raises. *)
Theorem getTimeDelta_succeeds_iff (alert_time origin_time : string) :
  (forall d,
      getTimeDelta strptime alert_time origin_time = Ok d <->
      exists ta tb,
        parses alert_time ta /\ parses origin_time tb /\
        d = total_seconds_between ta tb) /\
  (forall d,
      getTimeDelta strptime alert_time origin_time = Ok d ->
      getTimeDelta strptime origin_time alert_time = Ok (- d)%Q) /\
  ((forall ta tb, ~ (parses alert_time ta /\ parses origin_time tb)) ->
   exists e, getTimeDelta strptime alert_time origin_time = Raise e).
Proof.
  split; [apply getTimeDelta_spec |]. split.
  - intros d Hd. apply getTimeDelta_spec in Hd as (ta & tb & Ha & Hb & ->).
    apply getTimeDelta_spec. exists tb, ta.
    split; [done |]. split; [done |]. symmetry. apply total_seconds_between_swap.
  - intros Hno.
    destruct (getTimeDelta strptime alert_time origin_time) as [d|e] eqn:E;
      [|by exists e].
    apply getTimeDelta_spec in E as (ta & tb & Ha & Hb & _).
    by destruct (Hno ta tb).
Qed.

End AnyStrptime.

(** The timestamps of the M5 event of 2023-01-01: the three encodings give
    the time delta 7.971 s used by the unit test, with its sign. *)
Example getTimeDelta_three_encodings :
  getTimeDelta PyDatetime.strptime
    "2023-01-01T18:35:04.000" "2023-01-01 18:34:56.029000 (UTC)" =
    Ok (7971000 # 1000000)%Q /\
  getTimeDelta PyDatetime.strptime
    "2023-01-01 18:34:56.029" "2023-01-01T18:35:04.000" =
    Ok (-7971000 # 1000000)%Q.
Proof. split; vm_compute; reflexivity. Qed.

Example getTimeDelta_across_a_leap_day :
  getTimeDelta PyDatetime.strptime
    "2024-03-01T00:00:00.5" "2024-02-28T00:00:00.25" =
    Ok (172800250000 # 1000000)%Q.
Proof. vm_compute. reflexivity. Qed.

Example getTimeDelta_no_separator :
  getTimeDelta PyDatetime.strptime "20230101183504.000" "2023-01-01T18:35:04.000" =
    Raise UnboundLocalError.
Proof. vm_compute. reflexivity. Qed.

Example getTimeDelta_bad_format :
  getTimeDelta PyDatetime.strptime "2023-01-01 18:35" "2023-01-01T18:35:04.000" =
    Raise ValueError.
Proof. vm_compute. reflexivity. Qed.

Example getTimeDelta_whole_seconds_with_suffix :
  getTimeDelta PyDatetime.strptime
    "2023-01-01 18:35:04 (UTC)" "2023-01-01T18:35:04.000" = Raise ValueError.
Proof. vm_compute. reflexivity. Qed.

(** The model of [strptime] on strings that CPython accepts or rejects:
    single-digit fields and a lower-case separator are accepted, a missing
    fraction, a seventh fraction digit, February 30 and second 60 are not. *)
Example strptime_accepts :
  PyDatetime.strptime "2023-1-1t8:5:4.5" FMT1 =
    Ok (MkDatetime 2023 1 1 8 5 4 500000) /\
  PyDatetime.strptime "2023-01-01  18:35:04.1" FMT2 =
    Ok (MkDatetime 2023 1 1 18 35 4 100000) /\
  PyDatetime.strptime "2023-01-01 18:34:56.029000 (UTC)" FMT3 =
    Ok (MkDatetime 2023 1 1 18 34 56 29000).
Proof. repeat split; vm_compute; reflexivity. Qed.

Example strptime_rejects :
  Forall (fun s => PyDatetime.strptime s FMT1 = Raise ValueError)
    [ "2023-01-01T18:35:04"; "2023-01-01T00:00:00.1234567";
      "2023-02-30T00:00:00.0"; "2023-01-01T00:00:60.0";
      "0000-01-01T00:00:00.0"; "2023-01-01 18:35:04.0" ].
Proof. repeat constructor; vm_compute; reflexivity. Qed.

(** A string that matches the first encoding only without regard to case
    is parsed by [strptime] but selects no encoding in [getTimeDelta]. *)
Example getTimeDelta_lower_case_separator :
  getTimeDelta PyDatetime.strptime "2023-1-1t8:5:4.5" "2023-01-01T18:35:04.000" =
    Raise UnboundLocalError.
Proof. vm_compute. reflexivity. Qed.

(** C7 (as stated, refuted).  A timestamp in whole seconds matches none of
    the three encodings, which all carry fractional seconds, and
    [getTimeDelta] succeeds on it. *)
Lemma getTimeDelta_accepts_whole_seconds :
  ~ ((exists d,
         getTimeDelta PyDatetime.strptime
           "2023-01-01T18:35:04" "2023-01-01T18:34:56.029" = Ok d) <->
     (recognized PyDatetime.strptime "2023-01-01T18:35:04" /\
      recognized PyDatetime.strptime "2023-01-01T18:34:56.029")).
Proof.
  intros [Hclaim _].
  destruct Hclaim as [[t Ht] _].
  - eexists. vm_compute. reflexivity.
  - vm_compute in Ht. by destruct Ht as [|[|]].
Qed.

End TimeDeltaFacts.

(** ** Ray casting as a parity of crossings *)

Module RayCastingFacts.
Import EQCalculations PointInPolyFacts.

(** The test that makes [point_in_poly] flip [inside] at the edge from [a]
    to [b]: the height [y] is in the half-open range of the edge and the
    edge is vertical or crosses that height at or to the right of [x]. *)
Definition toggles (x y : Q) (a b : vertex) : bool :=
  Qltb (py_min (snd a) (snd b)) y
  && Qle_bool y (py_max (snd a) (snd b))
  && Qle_bool x (py_max (fst a) (fst b))
  && (Qeq_bool (fst a) (fst b)
      || Qle_bool x ((y - snd a) * (fst b - fst a) / (snd b - snd a) + fst a)%Q).

(** The parity of the number of toggling edges along the path that starts
    at [a] and visits [vs]. *)
Fixpoint parity (x y : Q) (a : vertex) (vs : list vertex) : bool :=
  match vs with
  | [] => false
  | b :: vs' => xorb (toggles x y a b) (parity x y b vs')
  end.

Lemma pip_body_toggles (x y : Q) (poly : list vertex) (st : pip_state)
    (i : nat) (p2 : vertex) :
  poly !! (i `mod` length poly)%nat = Some p2 ->
  exists st',
    pip_body x y poly st i = Ok st' /\
    p1 st' = p2 /\
    inside st' = xorb (inside st) (toggles x y (p1 st) p2).
Proof.
  intros Hp2. unfold pip_body, toggles. rewrite Hp2.
  destruct (p1 st) as [p1x p1y] eqn:Ep1, p2 as [p2x p2y]. cbn [fst snd].
  destruct (Qltb (py_min p1y p2y) y) eqn:Elo;
    [|cbn; rewrite xorb_false_r; eexists; eauto].
  destruct (Qle_bool y (py_max p1y p2y)) eqn:Ehi;
    [|cbn; rewrite xorb_false_r; eexists; eauto].
  destruct (Qle_bool x (py_max p1x p2x)) eqn:Ex;
    [|cbn; rewrite xorb_false_r; eexists; eauto].
  pose proof (crossing_not_horizontal _ _ _ Elo Ehi) as Hnh.
  apply Qeq_bool_false in Hnh as Hb. rewrite Hb. cbn [negb andb].
  unfold compute_xints, py_div. rewrite Ep1.
  assert (Hden : Qeq_bool (p2y - p1y) 0 = false).
  { apply Qeq_bool_false. intros H. apply Hnh. lra. }
  rewrite Hden. cbn.
  destruct (Qeq_bool p1x p2x); cbn.
  - eexists. split; [reflexivity |]. cbn. split; [reflexivity |].
    by rewrite xorb_true_r.
  - destruct (Qle_bool x ((y - p1y) * (p2x - p1x) / (p2y - p1y) + p1x)%Q);
      cbn; eexists; (split; [reflexivity |]); cbn;
      (split; [reflexivity |]);
      [by rewrite xorb_true_r | by rewrite xorb_false_r].
Qed.

Lemma pip_loop_parity (x y : Q) (poly : list vertex) (idx : list nat)
    (vs : list vertex) :
  Forall2 (fun i v => poly !! (i `mod` length poly)%nat = Some v) idx vs ->
  forall st,
  exists st',
    for_each (pip_body x y poly) idx st = Ok st' /\
    inside st' = xorb (inside st) (parity x y (p1 st) vs).
Proof.
  induction 1 as [|i v idx vs Hv _ IH]; intros st; cbn.
  - exists st. by rewrite xorb_false_r.
  - destruct (pip_body_toggles x y poly st i v Hv) as (st1 & -> & Hp & Hin).
    cbn. destruct (IH st1) as (st' & -> & Hin').
    exists st'. split; [done |].
    by rewrite Hin', Hin, Hp, xorb_assoc.
Qed.

Lemma cycle_lookups (poly : list vertex) (p0 : vertex) :
  poly !! 0%nat = Some p0 ->
  Forall2 (fun i v => poly !! (i `mod` length poly)%nat = Some v)
    (seq 0 (length poly + 1)) (poly ++ [p0]).
Proof.
  intros H0.
  assert (Hn : (0 < length poly)%nat) by by eapply lookup_lt_Some.
  rewrite seq_app. cbn [seq Nat.add]. apply Forall2_app.
  - apply Forall2_same_length_lookup_2; [by rewrite length_seq |].
    intros i j v Hi Hv. apply lookup_seq in Hi as [-> Hlt].
    cbn. by rewrite Nat.mod_small.
  - constructor; [|constructor]. by rewrite Nat.Div0.mod_same.
Qed.

(** [point_in_poly] returns the parity of the toggling edges along the
    closed cycle of the vertices, starting with the degenerate edge from
    the first vertex to itself. *)
Lemma point_in_poly_parity (x y : Q) (p0 : vertex) (poly' : list vertex) :
  point_in_poly x y (p0 :: poly') =
    Ok (parity x y p0 ((p0 :: poly') ++ [p0])).
Proof.
  unfold point_in_poly, point_in_poly_run.
  destruct (pip_loop_parity x y (p0 :: poly')
              (seq 0 (length (p0 :: poly') + 1)) ((p0 :: poly') ++ [p0])
              (cycle_lookups (p0 :: poly') p0 eq_refl)
              (PipState false p0 None [])) as (st & -> & Hin).
  cbn. by rewrite Hin.
Qed.

(** *** Points above, below and to the right of the vertices *)

Lemma toggles_above (x y : Q) (a b : vertex) :
  (snd a < y)%Q -> (snd b < y)%Q -> toggles x y a b = false.
Proof.
  intros Ha Hb. unfold toggles.
  assert (Qle_bool y (py_max (snd a) (snd b)) = false) as ->.
  { apply Qle_bool_gt. unfold py_max. by destruct (Qltb (snd a) (snd b)). }
  by rewrite andb_false_r.
Qed.

Lemma toggles_below (x y : Q) (a b : vertex) :
  (y <= snd a)%Q -> (y <= snd b)%Q -> toggles x y a b = false.
Proof.
  intros Ha Hb. unfold toggles.
  assert (Qltb (py_min (snd a) (snd b)) y = false) as ->; [|done].
  apply Qltb_ge. unfold py_min. by destruct (Qltb (snd b) (snd a)).
Qed.

Lemma toggles_right (x y : Q) (a b : vertex) :
  (fst a < x)%Q -> (fst b < x)%Q -> toggles x y a b = false.
Proof.
  intros Ha Hb. unfold toggles.
  assert (Qle_bool x (py_max (fst a) (fst b)) = false) as ->.
  { apply Qle_bool_gt. unfold py_max. by destruct (Qltb (fst a) (fst b)). }
  by rewrite andb_false_r.
Qed.

Lemma parity_never (x y : Q) (P : vertex -> Prop) (a : vertex)
    (vs : list vertex) :
  (forall u v, P u -> P v -> toggles x y u v = false) ->
  P a -> Forall P vs -> parity x y a vs = false.
Proof.
  intros Hno Ha Hvs. revert a Ha.
  induction Hvs as [|b vs Hb _ IH]; intros a Ha; cbn; [done |].
  by rewrite Hno, IH.
Qed.

(** X1. A point strictly above all the vertices, at or below all of them,
    or strictly to the right of all of them is outside the polygon: on
    these three sides of the bounding box no edge passes the comparisons
    of the loop, so the crossing abscissa [xints] is not consulted.  (For
    a point to the left of the vertices the answer depends on [xints],
    which the code computes with rounding; that side is not part of the
    statement.) *)
Theorem point_in_poly_above_below_right (x y : Q) (poly : list vertex) :
  poly <> [] ->
  Forall (fun v => (snd v < y)%Q) poly \/
  Forall (fun v => (y <= snd v)%Q) poly \/
  Forall (fun v => (fst v < x)%Q) poly ->
  point_in_poly x y poly = Ok false.
Proof.
  intros Hne Hout. destruct poly as [|p0 poly']; [done |].
  rewrite point_in_poly_parity. f_equal.
  destruct Hout as [H | [H | H]].
  - apply (parity_never x y (fun v => (snd v < y)%Q)).
    + intros u v. apply toggles_above.
    + by apply Forall_cons in H as [? _].
    + apply Forall_app. split; [done |]. constructor; [|done].
      by apply Forall_cons in H as [? _].
  - apply (parity_never x y (fun v => (y <= snd v)%Q)).
    + intros u v. apply toggles_below.
    + by apply Forall_cons in H as [? _].
    + apply Forall_app. split; [done |]. constructor; [|done].
      by apply Forall_cons in H as [? _].
  - apply (parity_never x y (fun v => (fst v < x)%Q)).
    + intros u v. apply toggles_right.
    + by apply Forall_cons in H as [? _].
    + apply Forall_app. split; [done |]. constructor; [|done].
      by apply Forall_cons in H as [? _].
Qed.

Lemma point_in_poly_above_below_right_witness :
  unit_square <> [] /\
  (Forall (fun v : vertex => (snd v < 1 # 2)%Q) unit_square \/
   Forall (fun v : vertex => (1 # 2 <= snd v)%Q) unit_square \/
   Forall (fun v : vertex => (fst v < 2)%Q) unit_square) /\
  point_in_poly 2 (1 # 2) unit_square = Ok false.
Proof.
  assert (Forall (fun v : vertex => (fst v < 2)%Q) unit_square) as Hright
    by (repeat constructor; cbn; lra).
  split; [discriminate |]. split; [by right; right |].
  apply point_in_poly_above_below_right; [discriminate |].
  by right; right.
Defined.

(** *** Axis-aligned rectangles *)

Lemma toggles_horizontal (x y : Q) (a b : vertex) :
  (snd a == snd b)%Q -> toggles x y a b = false.
Proof.
  intros Heq. unfold toggles.
  destruct (Qltb (py_min (snd a) (snd b)) y) eqn:Elo; [|done].
  destruct (Qle_bool y (py_max (snd a) (snd b))) eqn:Ehi; [|done].
  by destruct (crossing_not_horizontal _ _ _ Elo Ehi).
Qed.

Lemma toggles_vertical (x y xe ya yb : Q) :
  toggles x y (xe, ya) (xe, yb) =
    Qltb (py_min ya yb) y && Qle_bool y (py_max ya yb) && Qle_bool x xe.
Proof.
  unfold toggles. cbn [fst snd].
  assert (Qeq_bool xe xe = true) as -> by by apply Qeq_bool_iff.
  assert (py_max xe xe = xe) as ->.
  { unfold py_max. by destruct (Qltb xe xe). }
  by rewrite andb_true_r.
Qed.

(** The rectangle with lower-left corner [(x0, y0)] and upper-right corner
    [(x1, y1)], counter-clockwise from the lower-left corner. *)
Definition rectangle (x0 y0 x1 y1 : Q) : list vertex :=
  [(x0, y0); (x1, y0); (x1, y1); (x0, y1)].

(** The half-open box that [point_in_poly] takes the rectangle to be. *)
Definition in_box (x y x0 y0 x1 y1 : Q) : bool :=
  Qltb x0 x && Qle_bool x x1 && Qltb y0 y && Qle_bool y y1.

Ltac Qbool_to_Prop :=
  repeat match goal with
         | H : Qltb _ _ = true |- _ => apply Qltb_lt in H
         | H : Qltb _ _ = false |- _ => apply Qltb_ge in H
         | H : Qle_bool _ _ = true |- _ => apply Qle_bool_iff in H
         | H : Qle_bool _ _ = false |- _ => apply Qle_bool_gt in H
         end.

Lemma rectangle_edges (x y x0 y0 x1 y1 : Q) :
  (x0 < x1)%Q -> (y0 < y1)%Q ->
  xorb (toggles x y (x1, y0) (x1, y1)) (toggles x y (x0, y1) (x0, y0)) =
    in_box x y x0 y0 x1 y1.
Proof.
  intros Hx Hy. rewrite !toggles_vertical. unfold in_box, py_min, py_max.
  assert (Qltb y0 y1 = true) as -> by by apply Qltb_lt.
  assert (Qltb y1 y0 = false) as -> by (apply Qltb_ge; lra).
  destruct (Qltb y0 y), (Qle_bool y y1); cbn;
    try by rewrite ?andb_false_r.
  destruct (Qltb x0 x) eqn:E0, (Qle_bool x x1) eqn:E1,
    (Qle_bool x x0) eqn:E2; cbn; try reflexivity;
    exfalso; Qbool_to_Prop; lra.
Qed.

(** X2. For an axis-aligned rectangle, given with or without the closing
    vertex, [point_in_poly] answers exactly the half-open box test: the
    right and the top side belong to the rectangle, the left and the bottom
    side do not. *)
Theorem point_in_poly_rectangle (x y x0 y0 x1 y1 : Q) :
  (x0 < x1)%Q -> (y0 < y1)%Q ->
  point_in_poly x y (rectangle x0 y0 x1 y1) = Ok (in_box x y x0 y0 x1 y1) /\
  point_in_poly x y (rectangle x0 y0 x1 y1 ++ [(x0, y0)]) =
    Ok (in_box x y x0 y0 x1 y1).
Proof.
  intros Hx Hy. unfold rectangle.
  split; cbn [app]; rewrite point_in_poly_parity; cbn [app parity];
    rewrite ?(toggles_horizontal x y (x0, y0) (x0, y0)) by done;
    rewrite (toggles_horizontal x y (x0, y0) (x1, y0)) by done;
    rewrite (toggles_horizontal x y (x1, y1) (x0, y1)) by done;
    rewrite ?xorb_false_l, ?xorb_false_r;
    by rewrite rectangle_edges.
Qed.

Lemma point_in_poly_rectangle_witness :
  (0 < 2)%Q /\ (0 < 1)%Q /\
  point_in_poly 2 1 (rectangle 0 0 2 1) = Ok true /\
  point_in_poly 0 1 (rectangle 0 0 2 1 ++ [(0, 0)%Q]) = Ok false.
Proof.
  assert (H2 : (0 < 2)%Q) by lra. assert (H1 : (0 < 1)%Q) by lra.
  split; [exact H2 |]. split; [exact H1 |].
  split.
  - exact (proj1 (point_in_poly_rectangle 2 1 0 0 2 1 H2 H1)).
  - exact (proj2 (point_in_poly_rectangle 0 1 0 0 2 1 H2 H1)).
Defined.

End RayCastingFacts.

(** ** Intensity lookup on an ordered list *)

Module IntensityOrderFacts.
Import EQCalculations ShakeAlertParser PointInPolyFacts IntensityFacts
  GetPolygonsFacts RayCastingFacts.

(** The box between the parallels [lat0] and [lat1] and the meridians
    [lon0] and [lon1], as the closed list of its (latitude, longitude)
    corners. *)
Definition latlon_box (lat0 lon0 lat1 lon1 : Q) : polygon_coords :=
  [(lat0, lon0); (lat0, lon1); (lat1, lon1); (lat1, lon0); (lat0, lon0)].

(** On such a box [contains] is the test of the latitude between the
    parallels and of the longitude between the meridians, the northern and
    the eastern side included. *)
Lemma contains_latlon_box (m : Z) (lat lon lat0 lon0 lat1 lon1 : Q) :
  (lat0 < lat1)%Q -> (lon0 < lon1)%Q ->
  contains lat lon (m, latlon_box lat0 lon0 lat1 lon1) =
    Qltb lon0 lon && Qle_bool lon lon1 && Qltb lat0 lat && Qle_bool lat lat1.
Proof.
  intros Hlat Hlon. unfold contains, latlon_box. cbn [snd fst map].
  rewrite point_in_poly_parity. cbn [app parity].
  rewrite (toggles_horizontal lon lat (lon0, lat0) (lon0, lat0)) by done.
  rewrite (toggles_horizontal lon lat (lon0, lat0) (lon1, lat0)) by done.
  rewrite (toggles_horizontal lon lat (lon1, lat1) (lon0, lat1)) by done.
  rewrite ?xorb_false_l, ?xorb_false_r.
  rewrite rectangle_edges by done. unfold in_box.
  by destruct (_ && _).
Qed.

Example nested_bands_are_boxes :
  nested_bands = [(6%Z, latlon_box 0 4 1 6); (4%Z, latlon_box 0 0 1 10)].
Proof. reflexivity. Qed.

Lemma getIntensityLevel_first (MMIlist : list (Z * polygon_coords))
    (lat lon : Q) (getRomanNum : bool) :
  Forall (fun entry => snd entry <> []) MMIlist ->
  getIntensityLevel MMIlist lat lon getRomanNum =
    Ok (match find (contains lat lon) MMIlist with
        | Some entry => in_output_form getRomanNum (fst entry)
        | None => below_minimum getRomanNum
        end).
Proof.
  induction 1 as [|[m coords] rest Hm _ IH]; [done |].
  cbn [getIntensityLevel find]. unfold contains at 1. cbn [snd fst].
  change (map (fun corner : Q * Q => (snd corner, fst corner)) coords)
    with (to_polygon coords).
  destruct (point_in_poly_total lon lat (to_polygon coords)) as [b Hb].
  { by apply to_polygon_nonempty. }
  rewrite Hb. cbn. by destruct b.
Qed.

Lemma find_greatest (lat lon : Q) (MMIlist : list (Z * polygon_coords)) :
  greatest_to_least MMIlist ->
  match find (contains lat lon) MMIlist with
  | Some entry =>
      entry ∈ MMIlist /\ contains lat lon entry = true /\
      forall e, e ∈ MMIlist -> contains lat lon e = true ->
                (fst e <= fst entry)%Z
  | None => forall e, e ∈ MMIlist -> contains lat lon e = false
  end.
Proof.
  unfold greatest_to_least.
  induction 1 as [|a l Hs IH Ha]; cbn.
  - intros e He. by apply elem_of_nil in He.
  - destruct (contains lat lon a) eqn:Ea.
    + split; [by left |]. split; [done |].
      intros e He _. apply elem_of_cons in He as [-> | He]; [lia |].
      rewrite Forall_forall in Ha. by apply Ha.
    + destruct (find (contains lat lon) l) as [entry|].
      * destruct IH as (Hin & Hc & Hmax). split; [by right |].
        split; [done |]. intros e He Hce.
        apply elem_of_cons in He as [-> | He]; [congruence | by apply Hmax].
      * intros e He. apply elem_of_cons in He as [-> | He]; [done | by apply IH].
Qed.

(** X3. On a list in greatest-to-least order, the level returned for a point
    is the greatest MMI among the entries whose polygon contains the point,
    and the sentinel exactly when no polygon contains it. *)
Theorem getIntensityLevel_greatest (MMIlist : list (Z * polygon_coords))
    (lat lon : Q) (getRomanNum : bool) :
  greatest_to_least MMIlist ->
  Forall (fun entry => snd entry <> []) MMIlist ->
  ((forall e, e ∈ MMIlist -> contains lat lon e = false) /\
   getIntensityLevel MMIlist lat lon getRomanNum =
     Ok (below_minimum getRomanNum)) \/
  (exists entry,
      entry ∈ MMIlist /\ contains lat lon entry = true /\
      (forall e, e ∈ MMIlist -> contains lat lon e = true ->
                 (fst e <= fst entry)%Z) /\
      getIntensityLevel MMIlist lat lon getRomanNum =
        Ok (in_output_form getRomanNum (fst entry))).
Proof.
  intros Hsorted Hne.
  rewrite (getIntensityLevel_first MMIlist lat lon getRomanNum Hne).
  pose proof (find_greatest lat lon MMIlist Hsorted) as Hfind.
  destruct (find (contains lat lon) MMIlist) as [entry|].
  - right. exists entry. destruct Hfind as (Hin & Hc & Hmax). by repeat split.
  - left. by split.
Qed.

Lemma getIntensityLevel_greatest_witness :
  greatest_to_least nested_bands /\
  Forall (fun entry : Z * polygon_coords => snd entry <> []) nested_bands /\
  getIntensityLevel nested_bands (1 # 2) 5 false = Ok (PyInt 6).
Proof.
  assert (H1 : greatest_to_least nested_bands).
  { unfold greatest_to_least, nested_bands.
    repeat constructor; cbn; lia. }
  assert (H2 : Forall (fun entry : Z * polygon_coords => snd entry <> [])
                 nested_bands).
  { repeat constructor; discriminate. }
  split; [exact H1 |]. split; [exact H2 |].
  destruct (getIntensityLevel_greatest nested_bands (1 # 2) 5 false
              H1 H2) as [[_ H] | (entry & _ & _ & _ & H)].
  - vm_compute in H. discriminate.
  - reflexivity.
Defined.

(** X4. The list that [Get_polygons] builds from the contours of a message,
    looked up at a point: the level returned is the greatest recorded MMI
    among the contours that contain the point, whatever the order of the
    contours in the message. *)
Theorem intensity_of_recorded_contours
    (gm_contours : list (contour_json polygon_coords)) (lat lon : Q) :
  Forall (fun c => (0 <= json_mmi c)%Z /\ json_polygon c <> []) gm_contours ->
  exists MMIlist,
    Get_polygons gm_contours = Ok MMIlist /\
    (forall m coords, (m, coords) ∈ MMIlist <->
        exists c, c ∈ gm_contours /\ truncated_mmi (json_mmi c) = Ok m /\
                  json_polygon c = coords) /\
    (((forall e, e ∈ MMIlist -> contains lat lon e = false) /\
      getIntensityLevel MMIlist lat lon false = Ok (PyStr "1")) \/
     (exists entry,
         entry ∈ MMIlist /\ contains lat lon entry = true /\
         (forall e, e ∈ MMIlist -> contains lat lon e = true ->
                    (fst e <= fst entry)%Z) /\
         getIntensityLevel MMIlist lat lon false = Ok (PyInt (fst entry)))).
Proof.
  intros H.
  assert (Hnn : Forall (fun c => (0 <= json_mmi c)%Z) gm_contours).
  { eapply Forall_impl; [exact H |]. by intros c [? _]. }
  destruct (Get_polygons_ok gm_contours Hnn) as (rec & Hget & Hrec).
  exists (sorted_desc rec). split; [done |].
  assert (Hmem : forall m coords, (m, coords) ∈ sorted_desc rec <->
             exists c, c ∈ gm_contours /\ truncated_mmi (json_mmi c) = Ok m /\
                       json_polygon c = coords).
  { intros m coords. rewrite (sorted_desc_perm rec). split.
    - intros Hin. apply list_elem_of_lookup in Hin as [i Hi].
      destruct (Forall2_lookup_r _ _ _ _ _ Hrec Hi) as (c & Hc & [Ht Hp]).
      exists c. split; [by eapply list_elem_of_lookup_2 |]. by split.
    - intros (c & Hc & Ht & Hp). apply list_elem_of_lookup in Hc as [i Hi].
      destruct (Forall2_lookup_l _ _ _ _ _ Hrec Hi) as ([m' p'] & Hm & [Ht' Hp']).
      cbn in *. apply (list_elem_of_lookup_2 _ i).
      rewrite Hm. f_equal. f_equal; congruence. }
  split; [exact Hmem |].
  apply (getIntensityLevel_greatest (sorted_desc rec) lat lon false).
  - apply sorted_desc_sorted.
  - apply Forall_forall. intros [m coords] Hin. cbn.
    apply Hmem in Hin as (c & Hc & _ & <-).
    rewrite Forall_forall in H. by apply H.
Qed.

(** The two bands as contours of a message, the outer one first. *)
Definition nested_contours : list (contour_json polygon_coords) :=
  [ MkContourJson 4 [(0, 0); (0, 10); (1, 10); (1, 0); (0, 0)]%Q;
    MkContourJson 6 [(0, 4); (0, 6); (1, 6); (1, 4); (0, 4)]%Q ].

Lemma intensity_of_recorded_contours_witness :
  Forall (fun c : contour_json polygon_coords =>
            (0 <= json_mmi c)%Z /\ json_polygon c <> []) nested_contours /\
  exists MMIlist,
    Get_polygons nested_contours = Ok MMIlist /\
    getIntensityLevel MMIlist (1 # 2) 5 false = Ok (PyInt 6).
Proof.
  assert (H : Forall (fun c : contour_json polygon_coords =>
                        (0 <= json_mmi c)%Z /\ json_polygon c <> [])
                nested_contours).
  { repeat constructor; cbn; (lia || discriminate). }
  split; [exact H |].
  destruct (intensity_of_recorded_contours nested_contours (1 # 2) 5 H)
    as (MMIlist & Hget & _ & _).
  exists MMIlist. split; [exact Hget |].
  vm_compute in Hget. injection Hget as <-. reflexivity.
Defined.

End IntensityOrderFacts.

(** ** Compass octants *)

Module CompassFacts.
Import PyCities PointInPolyFacts CitiesFacts RayCastingFacts.

Lemma py_int_Q_floor (q : Q) : (0 <= q)%Q -> py_int_Q q = Qfloor q.
Proof.
  intros Hq. unfold py_int_Q.
  assert (0 <= Qnum q)%Z as Hnum.
  { destruct q as [a b]. unfold Qle in Hq. cbn in *. lia. }
  rewrite Z.quot_div_nonneg by lia. by destruct q.
Qed.

Lemma py_int_Q_opp (q : Q) : py_int_Q (- q) = (- py_int_Q q)%Z.
Proof. unfold py_int_Q. destruct q as [a b]. cbn. apply Z.quot_opp_l. lia. Qed.

Lemma Qfloor_between (q : Q) (k : Z) :
  (inject_Z k <= q < inject_Z (k + 1))%Q -> Qfloor q = k.
Proof.
  intros [Hlo Hhi].
  pose proof (Qfloor_le q) as H1. pose proof (Qlt_floor q) as H2.
  assert (inject_Z (Qfloor q) < inject_Z (k + 1))%Q as H3 by lra.
  assert (inject_Z k < inject_Z (Qfloor q + 1))%Q as H4 by lra.
  rewrite <- Zlt_Qlt in H3, H4. lia.
Qed.

Ltac inject_consts :=
  repeat match goal with
         | |- context [inject_Z ?z] =>
             let v := eval vm_compute in (inject_Z z) in
             change (inject_Z z) with v
         end.

(** The label of the 45-degree bin that contains the bearing. *)
Definition octant (b : Q) : string :=
  if Qltb b (45 # 2) then "N"
  else if Qltb b (135 # 2) then "NE"
  else if Qltb b (225 # 2) then "E"
  else if Qltb b (315 # 2) then "SE"
  else if Qltb b (405 # 2) then "S"
  else if Qltb b (495 # 2) then "SW"
  else if Qltb b (585 # 2) then "W"
  else if Qltb b (675 # 2) then "NW"
  else "N".

Lemma get_compass_direction_bin (b : Q) (k : Z) :
  (0 <= k <= 7)%Z ->
  (inject_Z k * 45 <= (if Qltb (b - (45 # 2)) 0 then b - (45 # 2) + 360
                       else b - (45 # 2)) < inject_Z (k + 1) * 45)%Q ->
  get_compass_direction b = py_list_get bearings k.
Proof.
  intros Hk Hb. unfold get_compass_direction.
  set (index := if Qltb (b - (45 # 2)) 0 then (b - (45 # 2) + 360)%Q
                else (b - (45 # 2))%Q) in *.
  assert (index == index / 45 * 45)%Q as Hq by field.
  assert (0 <= inject_Z k)%Q as Hk0.
  { change 0%Q with (inject_Z 0). rewrite <- Zle_Qle. lia. }
  rewrite py_int_Q_floor by nra.
  rewrite (Qfloor_between _ k); [done |]. split; nra.
Qed.

(** X5. For a bearing from 0 to 22, and from 22.5 up to, but not including,
    360, the direction is the label of its octant: each bin is 45 degrees
    wide, closed at its lower edge, and north is the bin from 337.5 through
    0 to 22.5.  On these bearings the floats of the code give the bin of
    the exact arithmetic: from 22.5 on the subtraction is exact and the
    rounding of the quotient does not reach the next integer, and up to 22
    the index stays between 337.5 and 359.5.  (Just below 22.5 the sum
    [index + 360] rounds to 360.0 and the code raises [IndexError]; the
    bearings between 22 and 22.5 are not part of the statement.) *)
Theorem get_compass_direction_octant (b : Q) :
  (0 <= b <= 22 \/ 45 # 2 <= b < 360)%Q ->
  get_compass_direction b = Ok (octant b).
Proof.
  intros Hrange.
  assert (0 <= b < 360)%Q as Hb by (destruct Hrange; lra).
  clear Hrange. unfold octant.
  destruct (Qltb b (45 # 2)) eqn:E0.
  { apply Qltb_lt in E0. rewrite (get_compass_direction_bin b 7); [done | lia |].
    assert (Qltb (b - (45 # 2)) 0 = true) as -> by (apply Qltb_lt; lra).
    inject_consts; lra. }
  apply Qltb_ge in E0.
  assert (Qltb (b - (45 # 2)) 0 = false) as Hneg by (apply Qltb_ge; lra).
  destruct (Qltb b (135 # 2)) eqn:E1.
  { apply Qltb_lt in E1. rewrite (get_compass_direction_bin b 0); [done | lia |].
    rewrite Hneg. inject_consts; lra. }
  apply Qltb_ge in E1. destruct (Qltb b (225 # 2)) eqn:E2.
  { apply Qltb_lt in E2. rewrite (get_compass_direction_bin b 1); [done | lia |].
    rewrite Hneg. inject_consts; lra. }
  apply Qltb_ge in E2. destruct (Qltb b (315 # 2)) eqn:E3.
  { apply Qltb_lt in E3. rewrite (get_compass_direction_bin b 2); [done | lia |].
    rewrite Hneg. inject_consts; lra. }
  apply Qltb_ge in E3. destruct (Qltb b (405 # 2)) eqn:E4.
  { apply Qltb_lt in E4. rewrite (get_compass_direction_bin b 3); [done | lia |].
    rewrite Hneg. inject_consts; lra. }
  apply Qltb_ge in E4. destruct (Qltb b (495 # 2)) eqn:E5.
  { apply Qltb_lt in E5. rewrite (get_compass_direction_bin b 4); [done | lia |].
    rewrite Hneg. inject_consts; lra. }
  apply Qltb_ge in E5. destruct (Qltb b (585 # 2)) eqn:E6.
  { apply Qltb_lt in E6. rewrite (get_compass_direction_bin b 5); [done | lia |].
    rewrite Hneg. inject_consts; lra. }
  apply Qltb_ge in E6. destruct (Qltb b (675 # 2)) eqn:E7.
  { apply Qltb_lt in E7. rewrite (get_compass_direction_bin b 6); [done | lia |].
    rewrite Hneg. inject_consts; lra. }
  apply Qltb_ge in E7. rewrite (get_compass_direction_bin b 7); [done | lia |].
  rewrite Hneg. inject_consts; lra.
Qed.

Lemma get_compass_direction_octant_witness :
  (0 <= 45 # 2 <= 22 \/ 45 # 2 <= 45 # 2 < 360)%Q /\
  get_compass_direction (45 # 2) = Ok "NE".
Proof.
  assert (H : (0 <= 45 # 2 <= 22 \/ 45 # 2 <= 45 # 2 < 360)%Q)
    by (right; split; lra).
  split; [exact H |]. exact (get_compass_direction_octant (45 # 2) H).
Defined.

Example get_compass_direction_north :
  get_compass_direction 10 = Ok "N" /\ get_compass_direction 350 = Ok "N".
Proof. split; reflexivity. Qed.

End CompassFacts.

(** ** The list of polygons of a message *)

Module PolygonListFacts.
Import ShakeAlertParser GetPolygonsFacts.

Section WithPolygon.
Context {P : Type}.

Local Abbreviation level_is v := (fun m : Z * P => (fst m =? v)%Z).

(** The level that [Get_polygons] records for a contour is [v]. *)
Definition recorded_level_is (v : Z) (c : contour_json P) : bool :=
  match truncated_mmi (json_mmi c) with
  | Ok d => (d =? v)%Z
  | Raise _ => false
  end.

Lemma collect_polys_outcome (gm_contours : list (contour_json P)) : forall acc,
  match for_each
          (fun allMMIpolys contour =>
             MMIval ← truncated_mmi (json_mmi contour);
             Ok (allMMIpolys ++ [(MMIval, json_polygon contour)]))
          gm_contours acc with
  | Ok l =>
      exists recorded,
        l = acc ++ recorded /\
        Forall2 recorded_as gm_contours recorded /\
        Forall (fun c => (0 <= json_mmi c)%Z) gm_contours /\
        Forall (fun m => (0 <= fst m <= 9)%Z) recorded
  | Raise e =>
      e = ValueError /\ Exists (fun c => (json_mmi c < 0)%Z) gm_contours
  end.
Proof.
  induction gm_contours as [|c cs IH]; intros acc.
  - cbn. exists []. by rewrite app_nil_r.
  - cbn [for_each]. destruct (Z_lt_le_dec (json_mmi c) 0) as [Hneg | Hpos].
    + rewrite (truncated_mmi_negative _ Hneg). cbn.
      split; [done | by apply Exists_cons_hd].
    + destruct (truncated_mmi_nonneg _ Hpos) as (d & Hd & Hd9).
      rewrite Hd. cbn.
      specialize (IH (acc ++ [(d, json_polygon c)])).
      destruct (for_each _ cs _) as [l|e].
      * destruct IH as (rec & -> & Hrec & Hnn & Hdig).
        exists ((d, json_polygon c) :: rec).
        rewrite <- (assoc_L (++)). cbn.
        split; [done |]. split; [by constructor |].
        split; by constructor.
      * destruct IH as [-> Hex]. split; [done | by apply Exists_cons_tl].
Qed.

(** X13. [Get_polygons] raises [ValueError] when the MMI of some contour is
    negative, and nothing else; otherwise it returns one entry per contour
    and every level it records is a single digit, from 0 to 9. *)
Theorem Get_polygons_outcome (gm_contours : list (contour_json P)) :
  match Get_polygons gm_contours with
  | Ok MMIlist =>
      Forall (fun c => (0 <= json_mmi c)%Z) gm_contours /\
      length MMIlist = length gm_contours /\
      Forall (fun m => (0 <= fst m <= 9)%Z) MMIlist
  | Raise e =>
      e = ValueError /\ Exists (fun c => (json_mmi c < 0)%Z) gm_contours
  end.
Proof.
  unfold Get_polygons, collect_polys.
  pose proof (collect_polys_outcome gm_contours []) as H.
  destruct (for_each _ gm_contours []) as [l|e]; cbn; [| done].
  destruct H as (rec & -> & Hrec & Hnn & Hdig). cbn.
  split; [done |]. split.
  - rewrite (sorted_desc_perm rec). symmetry. by eapply Forall2_length.
  - by rewrite (sorted_desc_perm rec).
Qed.

Lemma insert_desc_level v (x : Z * P) l :
  List.filter (level_is v) (insert_desc x l) =
    List.filter (level_is v) [x] ++ List.filter (level_is v) l.
Proof.
  induction l as [|y l IH]; [cbn; by rewrite app_nil_r |].
  cbn [insert_desc].
  destruct (fst y <=? fst x)%Z eqn:E.
  { change (x :: y :: l) with ([x] ++ y :: l). by rewrite List.filter_app. }
  apply Z.leb_gt in E.
  cbn [List.filter]. rewrite IH. cbn [List.filter].
  destruct (fst x =? v)%Z eqn:Hx; [| done].
  destruct (fst y =? v)%Z eqn:Hy; [| done].
  apply Z.eqb_eq in Hx, Hy. lia.
Qed.

Lemma sorted_desc_level v (l : list (Z * P)) :
  List.filter (level_is v) (sorted_desc l) = List.filter (level_is v) l.
Proof.
  induction l as [|x l IH]; [done |].
  unfold sorted_desc in *. cbn [foldr].
  rewrite insert_desc_level, IH.
  change (x :: l) with ([x] ++ l). by rewrite List.filter_app.
Qed.

Lemma recorded_level v (gm_contours : list (contour_json P)) recorded :
  Forall2 recorded_as gm_contours recorded ->
  (List.filter (level_is v) recorded).*2 =
    json_polygon <$> List.filter (recorded_level_is v) gm_contours.
Proof.
  induction 1 as [|c m cs ms [Hm Hp] _ IH]; [done |].
  cbn [List.filter]. unfold recorded_level_is at 1. rewrite Hm.
  destruct (fst m =? v)%Z; [| done]. cbn. by rewrite IH, Hp.
Qed.

(** X14. The sort of [Get_polygons] is stable: the polygons recorded at one
    level come out in the order of their contours in the message. *)
Theorem Get_polygons_keeps_order_within_level
    (gm_contours : list (contour_json P)) MMIlist v :
  Get_polygons gm_contours = Ok MMIlist ->
  (List.filter (level_is v) MMIlist).*2 =
    json_polygon <$> List.filter (recorded_level_is v) gm_contours.
Proof.
  unfold Get_polygons, collect_polys.
  pose proof (collect_polys_outcome gm_contours []) as H.
  destruct (for_each _ gm_contours []) as [l|e]; cbn; [| done].
  destruct H as (rec & -> & Hrec & _). cbn. intros [= <-].
  change (foldr insert_desc [] rec) with (sorted_desc rec).
  rewrite sorted_desc_level. by apply recorded_level.
Qed.

End WithPolygon.

Lemma Get_polygons_keeps_order_within_level_witness :
  (List.filter (fun m : Z * string => (fst m =? 4)%Z)
     [(7, "c"); (4, "a"); (4, "b"); (1, "x")]%Z).*2 =
    json_polygon <$>
      List.filter (recorded_level_is 4)
        [ MkContourJson 4 "a"; MkContourJson 10 "x";
          MkContourJson 4 "b"; MkContourJson 7 "c" ]%Z.
Proof.
  apply (Get_polygons_keeps_order_within_level
           [ MkContourJson 4 "a"; MkContourJson 10 "x";
             MkContourJson 4 "b"; MkContourJson 7 "c" ]%Z).
  reflexivity.
Defined.

End PolygonListFacts.

(** ** The contours of a message as objects *)

Module ContourParserFacts.
Import PyStr ShakeAlertParser ContourParser GetPolygonsFacts ContourFacts.

(** [sep.join(pieces)] *)
Fixpoint py_join (sep : ascii) (pieces : list string) : string :=
  match pieces with
  | [] => EmptyString
  | [piece] => piece
  | piece :: rest => piece +:+ String sep (py_join sep rest)
  end.

Lemma split_on_nonempty sep s : split_on sep s <> [].
Proof.
  destruct s as [|c s]; cbn; [done |].
  destruct (Ascii.eqb c sep); [done |]. by destruct (split_on sep s).
Qed.

Lemma py_join_cons sep piece rest :
  rest <> [] ->
  py_join sep (piece :: rest) = piece +:+ String sep (py_join sep rest).
Proof. by destruct rest. Qed.

(** Splitting a string and joining the pieces gives the string back. *)
Lemma join_split_on sep s : py_join sep (split_on sep s) = s.
Proof.
  induction s as [|c s IH]; [done |]. cbn [split_on].
  destruct (Ascii.eqb c sep) eqn:E.
  - apply Ascii.eqb_eq in E as ->.
    pose proof (split_on_nonempty sep s) as Hne.
    rewrite py_join_cons by done. by rewrite IH.
  - pose proof (split_on_nonempty sep s) as Hne.
    destruct (split_on sep s) as [|piece [|piece' pieces]]; [done | |].
    + cbn in *. by rewrite IH.
    + rewrite py_join_cons in IH |- * by done. by rewrite <- IH.
Qed.

(** A coordinate written back as a token. *)
Definition token_of_Coord (coord : Coord string) : string :=
  lat coord +:+ String "," (lon coord).

Lemma Coord_of_token_inv coord_tok coord :
  Coord_of_token coord_tok = Some coord -> token_of_Coord coord = coord_tok.
Proof.
  unfold Coord_of_token. intros H.
  pose proof (join_split_on "," coord_tok) as Hj.
  destruct (split_on "," coord_tok) as [|la [|lo [|? ?]]]; try done.
  injection H as <-. exact Hj.
Qed.

Lemma parse_tokens_inv coord_tokens : forall parsed_poly,
  parse_tokens coord_tokens = Some parsed_poly ->
  token_of_Coord <$> parsed_poly = coord_tokens.
Proof.
  induction coord_tokens as [|tok rest IH]; intros parsed_poly; cbn.
  - by intros [= <-].
  - destruct (Coord_of_token tok) as [coord|] eqn:E; [| done].
    destruct (parse_tokens rest) as [poly|]; [| done].
    intros [= <-]. cbn. by rewrite (Coord_of_token_inv _ _ E), (IH poly).
Qed.

Section Parser.
Variable strip : string -> string.

(** What [parse_gm_contours] makes of one contour. *)
Definition parsed_as (d : contour_json_d) (contour : GMContour string) : Prop :=
  truncated_mmi (d_mmi d) = Ok (mmi contour) /\
  pga contour = d_pga d /\ pgv contour = d_pgv d /\
  py_join " " (token_of_Coord <$> polygon contour) = strip (d_polygon d) /\
  (exists first, polygon contour !! 0 = Some first /\
                 last (polygon contour) = Some first).

Lemma parse_contour_inv d contour :
  parse_contour strip d = Parsed contour -> parsed_as d contour.
Proof.
  unfold parse_contour, parsed_as.
  destruct (truncated_mmi (d_mmi d)) as [level|] eqn:El; [| done].
  destruct (parse_tokens _) as [poly|] eqn:Ep; [| done].
  unfold GMContour_init.
  destruct (poly !! 0) as [first|] eqn:E0; [| done].
  destruct (last poly) as [final|] eqn:E1; [| done].
  destruct (Coord_ne first final) eqn:Ene; [done |].
  apply Coord_ne_false in Ene as ->.
  intros [= <-]. cbn.
  split; [done |]. split; [done |]. split; [done |]. split; [| by exists final].
  by rewrite (parse_tokens_inv _ _ Ep), join_split_on.
Qed.

Lemma parse_gm_contours_inv gm_contours : forall contours,
  parse_gm_contours strip gm_contours = Parsed contours ->
  Forall2 parsed_as gm_contours contours.
Proof.
  induction gm_contours as [|d rest IH]; intros contours; cbn.
  - intros [= <-]. constructor.
  - destruct (parse_contour strip d) as [contour| |] eqn:E; try done.
    destruct (parse_gm_contours strip rest) as [cs| |]; try done.
    intros [= <-]. constructor; [by apply parse_contour_inv | by apply IH].
Qed.

(** X19. When [parse_gm_contours] returns, it has made one object per
    contour, in the order of the message; each holds the leading digit of
    the MMI, the pga and pgv as given, and a closed list of coordinates
    which, written back as [lat,lon] tokens joined by spaces, is the
    stripped polygon string. *)
Theorem parse_gm_contours_round_trip gm_contours contours :
  parse_gm_contours strip gm_contours = Parsed contours ->
  Forall2 parsed_as gm_contours contours.
Proof. apply parse_gm_contours_inv. Qed.

Lemma parse_tokens_None coord_tokens :
  parse_tokens coord_tokens = None ->
  Exists (fun tok => length (split_on "," tok) <> 2) coord_tokens.
Proof.
  induction coord_tokens as [|tok rest IH]; cbn; [done |].
  destruct (Coord_of_token tok) as [coord|] eqn:E.
  - destruct (parse_tokens rest); [done |]. intros _. apply Exists_cons_tl. by apply IH.
  - intros _. apply Exists_cons_hd. unfold Coord_of_token in E.
    by destruct (split_on "," tok) as [|la [|lo [|? ?]]].
Qed.

Lemma parse_tokens_nonempty coord_tokens parsed_poly :
  coord_tokens <> [] -> parse_tokens coord_tokens = Some parsed_poly ->
  parsed_poly <> [].
Proof.
  destruct coord_tokens as [|tok rest]; [done |]. intros _. cbn.
  destruct (Coord_of_token tok); [| done].
  destruct (parse_tokens rest); [| done]. by intros [= <-].
Qed.

(** X20. The errors of [parse_gm_contours] on a contour: [TypeError] when
    the MMI is not negative and some token of the polygon string does not
    have two comma-separated fields (a blank string has one such token);
    [ValueError] when the MMI is negative, or when the tokens are well
    formed and the first coordinate differs from the last; and no other
    error. *)
Theorem parse_contour_outcome (d : contour_json_d) :
  let coord_tokens := split_on " " (strip (d_polygon d)) in
  match parse_contour strip d with
  | Parsed contour => parsed_as d contour
  | TypeError =>
      (0 <= d_mmi d)%Z /\
      Exists (fun tok => length (split_on "," tok) <> 2) coord_tokens
  | Failed e =>
      e = ValueError /\
      ((d_mmi d < 0)%Z \/
       exists parsed_poly first final,
         parse_tokens coord_tokens = Some parsed_poly /\
         parsed_poly !! 0 = Some first /\ last parsed_poly = Some final /\
         first <> final)
  end.
Proof.
  intros coord_tokens.
  destruct (parse_contour strip d) as [contour| |e] eqn:E.
  - by apply parse_contour_inv.
  - unfold parse_contour in E. fold coord_tokens in E.
    destruct (Z_lt_le_dec (d_mmi d) 0) as [Hneg | Hpos].
    { by rewrite (truncated_mmi_negative _ Hneg) in E. }
    split; [done |].
    destruct (truncated_mmi (d_mmi d)); [| done].
    destruct (parse_tokens coord_tokens) as [poly|] eqn:Ep.
    + by destruct (GMContour_init _ poly _ _).
    + by apply parse_tokens_None.
  - unfold parse_contour in E. fold coord_tokens in E.
    destruct (Z_lt_le_dec (d_mmi d) 0) as [Hneg | Hpos].
    { rewrite (truncated_mmi_negative _ Hneg) in E. injection E as <-.
      split; [done | by left]. }
    destruct (truncated_mmi_nonneg _ Hpos) as (level & Hl & _).
    rewrite Hl in E.
    destruct (parse_tokens coord_tokens) as [poly|] eqn:Ep; [| done].
    assert (poly <> []) as Hne.
    { eapply parse_tokens_nonempty; [| exact Ep]. apply split_on_nonempty. }
    unfold GMContour_init in E.
    destruct (poly !! 0) as [first|] eqn:E0; [| by destruct poly].
    destruct (last poly) as [final|] eqn:E1.
    2:{ apply last_None in E1. done. }
    destruct (Coord_ne first final) eqn:Ene; [| done].
    injection E as <-. split; [done |]. right.
    exists poly, first, final. apply Coord_ne_spec in Ene. done.
Qed.


(** What [Get_polygons] reads of the same contour. *)
Definition as_contour_json (d : contour_json_d) : contour_json string :=
  MkContourJson (d_mmi d) (d_polygon d).

(** X21. The two parsers of the contours agree on the levels: when
    [parse_gm_contours] returns, [Get_polygons] returns on the same message
    and its list holds the same levels, as often, sorted. *)
Theorem parsers_agree_on_levels gm_contours contours :
  parse_gm_contours strip gm_contours = Parsed contours ->
  exists MMIlist,
    Get_polygons (as_contour_json <$> gm_contours) = Ok MMIlist /\
    MMIlist.*1 ≡ₚ mmi <$> contours /\
    greatest_to_least MMIlist.
Proof.
  intros H. apply parse_gm_contours_inv in H.
  assert (Forall (fun c : contour_json string => (0 <= json_mmi c)%Z)
            (as_contour_json <$> gm_contours)) as Hnn.
  { apply Forall_fmap. eapply Forall2_Forall_l; [exact H |].
    apply Forall_forall. intros contour _ d (Hl & _). cbn.
    destruct (Z_lt_le_dec (d_mmi d) 0) as [Hneg | Hpos]; [| done].
    by rewrite (truncated_mmi_negative _ Hneg) in Hl. }
  destruct (Get_polygons_ok _ Hnn) as (recorded & Hget & Hrec).
  exists (sorted_desc recorded). split; [done |].
  split; [| apply sorted_desc_sorted].
  rewrite (sorted_desc_perm recorded).
  assert (recorded.*1 = mmi <$> contours) as ->; [| done].
  clear Hget Hnn. revert recorded Hrec.
  induction H as [|d contour ds cs (Hl & _) _ IH]; intros recorded Hrec.
  - apply Forall2_nil_inv_l in Hrec. by subst.
  - cbn in Hrec. apply Forall2_cons_inv_l in Hrec as (m & ms & [Hm _] & Hms & ->).
    cbn in Hm. cbn. rewrite (IH ms Hms). f_equal. congruence.
Qed.

End Parser.

Definition square_contour : contour_json_d :=
  MkContourJsonD 4 (Some 1%Q) (Some 2%Q) "1,1 1,2 2,2 2,1 1,1".

Definition square_contour_parsed : list (GMContour string) :=
  Eval vm_compute in
    match parse_gm_contours (fun s => s) [square_contour] with
    | Parsed contours => contours
    | _ => []
    end.

Lemma square_contour_parses :
  parse_gm_contours (fun s => s) [square_contour] = Parsed square_contour_parsed.
Proof. vm_compute. reflexivity. Qed.

Lemma parse_gm_contours_round_trip_witness :
  Forall2 (parsed_as (fun s => s)) [square_contour] square_contour_parsed.
Proof.
  apply (parse_gm_contours_round_trip (fun s => s) [square_contour]).
  exact square_contour_parses.
Defined.

Lemma parsers_agree_on_levels_witness :
  exists MMIlist,
    Get_polygons (as_contour_json <$> [square_contour]) = Ok MMIlist /\
    MMIlist.*1 ≡ₚ mmi <$> square_contour_parsed /\
    greatest_to_least MMIlist.
Proof.
  apply (parsers_agree_on_levels (fun s => s) [square_contour]).
  exact square_contour_parses.
Defined.

End ContourParserFacts.

(** ** The contour of the initial alert map *)

Module AlertMapFacts.
Import PDFCreate AlertMap.

Section Contours.
Context {C : Type}.
Variable mmi_of : C -> Z.

Local Abbreviation least_step :=
  (fun least item : C => if (mmi_of item <? mmi_of least)%Z then item else least).

Lemma find_app_l (f : C -> bool) l1 l2 x :
  List.find f l1 = Some x -> List.find f (l1 ++ l2) = Some x.
Proof.
  induction l1 as [|y l1 IH]; cbn; [done |]. destruct (f y); [done | exact IH].
Qed.

Lemma find_snoc_new (f : C -> bool) l x :
  (forall y, y ∈ l -> f y = false) -> f x = true ->
  List.find f (l ++ [x]) = Some x.
Proof.
  intros Hl Hx. induction l as [|y l IH]; cbn; [by rewrite Hx |].
  rewrite (Hl y) by (apply elem_of_cons; by left).
  apply IH. intros z Hz. apply Hl. apply elem_of_cons. by right.
Qed.

Lemma find_filter (f g : C -> bool) l :
  List.find f (List.filter g l) = List.find (fun x => g x && f x) l.
Proof.
  induction l as [|y l IH]; cbn; [done |].
  destruct (g y); cbn; [| exact IH]. destruct (f y); [done | exact IH].
Qed.

(** The least of a non-empty list, as the loop of [min] finds it. *)
Lemma least_spec first rest :
  let least := foldl least_step first rest in
  least ∈ first :: rest /\
  (forall c, c ∈ first :: rest -> (mmi_of least <= mmi_of c)%Z) /\
  List.find (fun c => (mmi_of c =? mmi_of least)%Z) (first :: rest) = Some least.
Proof.
  induction rest as [|x rest IH] using rev_ind; cbn zeta.
  - cbn. rewrite Z.eqb_refl. split; [apply elem_of_cons; by left |].
    split; [| done]. intros c Hc. apply list_elem_of_singleton in Hc. by subst.
  - rewrite foldl_app. cbn [foldl]. cbn zeta in IH.
    set (least := foldl least_step first rest) in *.
    destruct IH as (Hin & Hmin & Hfind).
    change (first :: rest ++ [x]) with ((first :: rest) ++ [x]).
    destruct (mmi_of x <? mmi_of least)%Z eqn:E.
    + apply Z.ltb_lt in E. split; [apply elem_of_app; right; by apply list_elem_of_singleton |].
      split.
      * intros c Hc. apply elem_of_app in Hc as [Hc | Hc].
        -- specialize (Hmin c Hc). lia.
        -- apply list_elem_of_singleton in Hc. subst. lia.
      * apply find_snoc_new; [| apply Z.eqb_refl].
        intros y Hy. apply Z.eqb_neq. specialize (Hmin y Hy). lia.
    + apply Z.ltb_ge in E. split; [apply elem_of_app; by left |]. split.
      * intros c Hc. apply elem_of_app in Hc as [Hc | Hc]; [by apply Hmin |].
        apply list_elem_of_singleton in Hc. by subst.
      * by apply find_app_l.
Qed.

(** X15. The contour drawn on the initial alert map is the first contour of
    the message, among those that pass the filter, with the least MMI;
    when no contour passes the filter, [buildAlertMap] raises
    [ValueError]. *)
Theorem min_mmi_contour_outcome (gmc_filter : GMContourFilter)
    (contours : list C) (event_mag : Q) :
  let passes c := meets_contour_criteria gmc_filter (mmi_of c) event_mag in
  match min_mmi_contour mmi_of gmc_filter contours event_mag with
  | Ok shown =>
      shown ∈ contours /\ passes shown = true /\
      (forall c, c ∈ contours -> passes c = true ->
                 (mmi_of shown <= mmi_of c)%Z) /\
      List.find (fun c => passes c && (mmi_of c =? mmi_of shown)%Z) contours =
        Some shown
  | Raise e =>
      e = ValueError /\ Forall (fun c => passes c = false) contours
  end.
Proof.
  intros passes. unfold min_mmi_contour, filter_gm_contours. fold passes.
  destruct (List.filter passes contours) as [|first rest] eqn:E; cbn.
  - split; [done |]. apply Forall_forall. intros c Hc.
    destruct (passes c) eqn:Hp; [| done].
    assert (In c (List.filter passes contours)) as Hin.
    { apply filter_In. split; [by apply list_elem_of_In | done]. }
    rewrite E in Hin. destruct Hin.
  - destruct (least_spec first rest) as (Hin & Hmin & Hfind).
    set (shown := foldl least_step first rest) in *.
    rewrite <- E in Hin, Hmin, Hfind.
    apply list_elem_of_In, filter_In in Hin as [Hin Hp].
    split; [by apply list_elem_of_In |]. split; [done |]. split.
    + intros c Hc Hpc. apply Hmin. apply list_elem_of_In, filter_In.
      split; [by apply list_elem_of_In | done].
    + by rewrite find_filter in Hfind.
Qed.

End Contours.
End AlertMapFacts.

(** ** The circles of the alert map *)

Module AlertCircleFacts.
Import PyEventImage PyEventImageFacts.
Open Scope float_scope.

(** X23. [get_alert_circle_params] either returns a dictionary whose keys
    are the durations of [radii_show] in their order, three below magnitude
    6.0 and four otherwise, a NaN included, or raises the [ValueError] of
    [math.sqrt] or the [OverflowError] of the power, and no other error. *)
Theorem get_alert_circle_params_keys (mag dt v depth : float) :
  match get_alert_circle_params mag dt v depth with
  | Ok d =>
      keys d = if mag <? 6.0 then [0.0; 10.0; 20.0]
               else [0.0; 10.0; 20.0; 30.0]
  | Raise e => e = ValueError \/ e = OverflowError
  end.
Proof.
  destruct (get_alert_circle_params mag dt v depth) as [d|e] eqn:E.
  - by rewrite (keys_when_returned _ _ _ _ _ E).
  - unfold get_alert_circle_params in E. by eapply circles_error.
Qed.

End AlertCircleFacts.

(** ** The city catalogue *)

Module CityFileFacts.
Import TimeDelta PyCities CityFile CitiesFacts.

Lemma dict_set_keys {A : Type} (d : list (string * A)) k v :
  (dict_set d k v).*1 = if decide (k ∈ d.*1) then d.*1 else d.*1 ++ [k].
Proof.
  induction d as [|[k' v'] d IH]; cbn.
  - rewrite decide_False; [done | apply not_elem_of_nil].
  - destruct (decide (k' = k)) as [-> | Hne]; cbn.
    + rewrite decide_True; [done | apply elem_of_cons; by left].
    + rewrite IH. destruct (decide (k ∈ d.*1)) as [Hin | Hnin].
      * rewrite decide_True; [done | apply elem_of_cons; by right].
      * rewrite decide_False; [done |].
        intros [? | ?]%elem_of_cons; [by subst | done].
Qed.

Lemma dict_set_NoDup {A : Type} (d : list (string * A)) k v :
  NoDup d.*1 -> NoDup (dict_set d k v).*1.
Proof.
  intros Hnd. rewrite dict_set_keys. destruct (decide (k ∈ d.*1)); [done |].
  apply NoDup_app. split; [done |]. split; [| apply NoDup_singleton].
  intros x Hx Hk. apply list_elem_of_singleton in Hk. by subst.
Qed.

Lemma dict_get_set {A : Type} (d : list (string * A)) k v k' :
  dict_get (dict_set d k v) k' = if decide (k = k') then Ok v else dict_get d k'.
Proof.
  induction d as [|[k0 v0] d IH]; cbn.
  - by destruct (decide (k = k')).
  - destruct (decide (k0 = k)) as [-> | Hne]; cbn.
    + by destruct (decide (k = k')).
    + destruct (decide (k0 = k')) as [-> | Hne'].
      * by rewrite decide_False by done.
      * done.
Qed.

Section Reader.
Variable strip : string -> string.
Variable py_float : string -> option Q.
Variable py_int : string -> option Z.

Local Abbreviation read_line := (read_line strip py_float py_int).
Local Abbreviation read_step := (read_step strip py_float py_int).
Local Abbreviation PyCities_init := (PyCities_init strip py_float py_int).

(** What a line contributes: nothing when it holds the header word or
    cannot be read. *)
Definition entry_of (line : string) : option (string * city_values) :=
  if str_in "Category" line then None else read_line line.

Lemma PyCities_init_snoc lines line :
  PyCities_init (lines ++ [line]) = read_step (PyCities_init lines) line.
Proof. unfold CityFile.PyCities_init. by rewrite fold_left_app. Qed.

Lemma read_step_entry cities line :
  read_step cities line =
    match entry_of line with
    | Some (city, values) => dict_set cities city values
    | None => cities
    end.
Proof. unfold CityFile.read_step, entry_of. by destruct (str_in _ _). Qed.

(** The last line of the file that gives values for [city]. *)
Definition last_entry (lines : list string) (city : string) : option city_values :=
  snd <$> List.find (fun e => bool_decide (fst e = city))
                    (omap entry_of (rev lines)).

(** The names on the lines that can be read, each at its first
    occurrence. *)
Definition first_occurrences (names : list string) : list string :=
  reverse (remove_dups (reverse names)).

Lemma first_occurrences_snoc names name :
  first_occurrences (names ++ [name]) =
    if decide (name ∈ first_occurrences names) then first_occurrences names
    else first_occurrences names ++ [name].
Proof.
  unfold first_occurrences. rewrite reverse_snoc. cbn [remove_dups].
  destruct (decide_rel elem_of name (reverse names)) as [Hin | Hnin].
  - rewrite decide_True; [done |].
    apply elem_of_reverse. by apply elem_of_remove_dups.
  - rewrite decide_False; [by rewrite reverse_cons |].
    intros H. apply Hnin. by rewrite elem_of_reverse, elem_of_remove_dups in H.
Qed.

(** X8. The catalogue lists every city of a readable line once, in the order
    of the first lines that name them. *)
Theorem PyCities_init_keys lines :
  (PyCities_init lines).*1 = first_occurrences ((omap entry_of lines).*1) /\
  NoDup (PyCities_init lines).*1.
Proof.
  induction lines as [|line lines [IH Hnd]] using rev_ind.
  - split; [done | constructor].
  - rewrite PyCities_init_snoc, read_step_entry, omap_app. cbn [omap list_omap].
    destruct (entry_of line) as [[city values]|].
    + split; [| by apply dict_set_NoDup].
      rewrite dict_set_keys, fmap_app. cbn [fmap list_fmap fst].
      by rewrite first_occurrences_snoc, IH.
    + cbn. by rewrite app_nil_r.
Qed.

(** X9. Looking a city up gives the values of the last line that could be
    read for it, and [KeyError] when there is none. *)
Theorem PyCities_init_last_wins lines city :
  dict_get (PyCities_init lines) city =
    match last_entry lines city with
    | Some values => Ok values
    | None => Raise KeyError
    end.
Proof.
  unfold last_entry.
  induction lines as [|line lines IH] using rev_ind; [done |].
  rewrite PyCities_init_snoc, read_step_entry, rev_app_distr. cbn.
  destruct (entry_of line) as [[city' values]|]; cbn; [| done].
  rewrite dict_get_set.
  destruct (decide (city' = city)) as [-> | Hne].
  - by rewrite bool_decide_eq_true_2.
  - by rewrite bool_decide_eq_false_2.
Qed.

End Reader.
End CityFileFacts.

(** ** The nearest city of a category *)

Module NearestCityFacts.
Import PyCities PointInPolyFacts CitiesFacts.

Section Catalog.
Variable distanceBetween : Q -> Q -> Q -> Q -> Q.

Section Slot.
Variables lat lon : Q.
Variable categories : list string.
Variable k : nat.
Variable c : string.
Hypothesis slot_category : categories !! k = Some c.
Hypothesis first_of_category : forall i, i < k -> categories !! i <> Some c.

Local Abbreviation dist_to values :=
  (distanceBetween lat lon (PyCities.lat values) (PyCities.lon values)).

(** What slot [k] holds once the cities [seen] have been scanned. *)
Definition nearest_of (seen : list (string * city_values))
    (o : option string) (d : Q) : Prop :=
  match o with
  | Some name =>
      exists values,
        (name, values) ∈ seen /\ category values = c /\
        d = dist_to values /\ (d < 1000000)%Q /\
        forall name' values', (name', values') ∈ seen ->
          category values' = c -> (d <= dist_to values')%Q
  | None =>
      d = 1000000%Q /\
      forall name' values', (name', values') ∈ seen ->
        category values' = c -> (1000000 <= dist_to values')%Q
  end.

Definition slot_holds (seen : list (string * city_values)) (st : selection)
    : Prop :=
  exists o d,
    nearest_cities st !! k = Some o /\ distances st !! k = Some d /\
    nearest_of seen o d.

Lemma scan_slot_other city values st index :
  index <> k ->
  nearest_cities (scan_slot distanceBetween lat lon categories city values st index) !! k =
    nearest_cities st !! k /\
  distances (scan_slot distanceBetween lat lon categories city values st index) !! k =
    distances st !! k.
Proof.
  intros Hne. unfold scan_slot.
  destruct (categories !! index); [| done].
  destruct (distances st !! index); [| done].
  destruct (decide _); [| done].
  destruct (Qltb _ _); [| done].
  destruct (excluded _ _ _ _ _); [done |]. cbn.
  by rewrite !list_lookup_insert_ne.
Qed.

Lemma scan_slots_other city values idxs : forall st,
  k ∉ idxs ->
  nearest_cities (foldl (scan_slot distanceBetween lat lon categories city values) st idxs) !! k =
    nearest_cities st !! k /\
  distances (foldl (scan_slot distanceBetween lat lon categories city values) st idxs) !! k =
    distances st !! k.
Proof.
  induction idxs as [|i idxs IH]; intros st Hk; [done |].
  apply not_elem_of_cons in Hk as [Hne Hk]. cbn.
  destruct (IH (scan_slot distanceBetween lat lon categories city values st i) Hk)
    as [-> ->].
  apply scan_slot_other. congruence.
Qed.

Lemma not_excluded st city : excluded categories st c city k = false.
Proof.
  unfold excluded. apply not_true_is_false. intros H.
  apply existsb_exists in H as (i & Hi & Hb).
  apply in_seq in Hi. apply andb_true_iff in Hb as [Hb _].
  apply bool_decide_eq_true_1 in Hb. apply (first_of_category i); [lia | done].
Qed.

Lemma scan_slot_here city values st o d :
  nearest_cities st !! k = Some o -> distances st !! k = Some d ->
  let st' := scan_slot distanceBetween lat lon categories city values st k in
  (category values = c /\ (dist_to values < d)%Q /\
   nearest_cities st' !! k = Some (Some city) /\
   distances st' !! k = Some (dist_to values)) \/
  ((category values <> c \/ (d <= dist_to values)%Q) /\
   nearest_cities st' !! k = Some o /\ distances st' !! k = Some d).
Proof.
  intros Ho Hd. cbn. unfold scan_slot. rewrite slot_category, Hd.
  destruct (decide (c = category values)) as [Hc | Hc].
  - destruct (Qltb _ d) eqn:E.
    + rewrite not_excluded. cbn. left. apply Qltb_lt in E.
      split; [done |]. split; [done |].
      rewrite !list_lookup_insert_eq; [done | |].
      * by eapply lookup_lt_Some.
      * by eapply lookup_lt_Some.
    + apply Qltb_ge in E. right. split; [by right | done].
  - right. split; [left; congruence | done].
Qed.

Lemma scan_city_holds seen st city values :
  slot_holds seen st ->
  slot_holds (seen ++ [(city, values)])
    (scan_city distanceBetween lat lon categories st (city, values)).
Proof.
  intros (o & d & Ho & Hd & Hn). unfold slot_holds, scan_city. cbn [fst snd].
  assert (k < length categories) as Hk by by eapply lookup_lt_Some.
  replace (seq 0 (length categories))
    with (seq 0 k ++ [k] ++ seq (S k) (length categories - S k)).
  2:{ change ([k] ++ seq (S k) (length categories - S k))
        with (seq k (S (length categories - S k))).
      rewrite <- seq_app. f_equal. lia. }
  rewrite !foldl_app. cbn [foldl].
  set (st1 := foldl _ st (seq 0 k)).
  destruct (scan_slots_other city values (seq 0 k) st) as [E1 E2].
  { intros H. apply elem_of_seq in H. lia. }
  fold st1 in E1, E2. rewrite Ho in E1. rewrite Hd in E2.
  destruct (scan_slots_other city values (seq (S k) (length categories - S k))
              (scan_slot distanceBetween lat lon categories city values st1 k))
    as [-> ->].
  { intros H. apply elem_of_seq in H. lia. }
  destruct (scan_slot_here city values st1 o d E1 E2)
    as [(Hc & Hlt & -> & ->) | (Hno & -> & ->)].
  - exists (Some city), (dist_to values). split; [done |]. split; [done |].
    assert (d <= 1000000)%Q as Hd6.
    { destruct o; cbn in Hn.
      - destruct Hn as (? & _ & _ & _ & ? & _). lra.
      - destruct Hn as [-> _]. lra. }
    exists values. split; [apply elem_of_app; right; by apply list_elem_of_singleton |].
    split; [done |]. split; [done |]. split; [lra |].
    intros name' values' Hin Hc'.
    apply elem_of_app in Hin as [Hin | Hin].
    + assert (d <= dist_to values')%Q; [| lra].
      destruct o; cbn in Hn.
      * destruct Hn as (? & _ & _ & _ & _ & Hmin). by eapply Hmin.
      * destruct Hn as [-> Hmin]. by eapply Hmin.
    + apply list_elem_of_singleton in Hin. simplify_eq. lra.
  - exists o, d. split; [done |]. split; [done |].
    assert (forall name' values', (name', values') ∈ [(city, values)] ->
              category values' = c -> (d <= dist_to values')%Q) as Hnew.
    { intros name' values' Hin Hc'. apply list_elem_of_singleton in Hin. simplify_eq.
      by destruct Hno. }
    destruct o; cbn in Hn |- *.
    + destruct Hn as (v & Hin & Hc & Hdv & Hlt & Hmin).
      exists v. split; [apply elem_of_app; by left |].
      split; [done |]. split; [done |]. split; [done |].
      intros name' values' Hin' Hc'.
      apply elem_of_app in Hin' as [Hin' | Hin']; [by eapply Hmin | by eapply Hnew].
    + destruct Hn as [Hd6 Hmin]. split; [done |].
      intros name' values' Hin' Hc'. rewrite <- Hd6.
      apply elem_of_app in Hin' as [Hin' | Hin']; [| by eapply Hnew].
      rewrite Hd6. by eapply Hmin.
Qed.

Lemma scan_cities_hold cities : forall seen st,
  slot_holds seen st ->
  slot_holds (seen ++ cities)
    (foldl (scan_city distanceBetween lat lon categories) st cities).
Proof.
  induction cities as [|[city values] cities IH]; intros seen st H.
  - by rewrite app_nil_r.
  - cbn [foldl].
    replace (seen ++ (city, values) :: cities)
      with ((seen ++ [(city, values)]) ++ cities) by by rewrite <- (assoc_L (++)).
    apply IH. by apply scan_city_holds.
Qed.

End Slot.

Variable sqrt : Q -> Q.
Variable initial_bearing : Q * Q -> Q * Q -> Q.
Variable cities : list (string * city_values).

(** X10. In [getCityList], the first slot of a category ends with the city of
    that category nearest to the point, among those nearer than the
    starting distance of 1.0e6; it stays empty when there is none. *)
Theorem first_slot_of_category_is_nearest lat lon categories k c :
  categories !! k = Some c ->
  (forall i, i < k -> categories !! i <> Some c) ->
  let st := select_cities distanceBetween cities lat lon categories in
  exists o d,
    nearest_cities st !! k = Some o /\ distances st !! k = Some d /\
    nearest_of lat lon c cities o d.
Proof.
  intros Hk Hfirst st.
  apply (scan_cities_hold lat lon categories k c Hk Hfirst cities []).
  assert (k < length categories) as Hlt by by eapply lookup_lt_Some.
  exists None, 1000000%Q.
  split; [by apply lookup_replicate_2 |]. split; [by apply lookup_replicate_2 |].
  split; [done |]. intros name' values' Hin. by apply elem_of_nil in Hin.
Qed.

(** X11. When [getCityList] returns, the entry of the first slot of a
    category is a city of that category at the least distance from the
    point. *)
Theorem getCityList_first_slot_nearest lat lon depth categories time_delta res k c :
  NoDup cities.*1 ->
  getCityList distanceBetween sqrt initial_bearing cities
    lat lon depth categories time_delta = Ok res ->
  categories !! k = Some c ->
  (forall i, i < k -> categories !! i <> Some c) ->
  exists name info values,
    res !! k = Some (name, info) /\ (name, values) ∈ cities /\
    category values = c /\
    distance info = distanceBetween lat lon (PyCities.lat values) (PyCities.lon values) /\
    forall name' values', (name', values') ∈ cities -> category values' = c ->
      (distance info <=
         distanceBetween lat lon (PyCities.lat values') (PyCities.lon values'))%Q.
Proof.
  intros Hnd Hres Hk Hfirst.
  destruct (getCityList_slots distanceBetween sqrt initial_bearing cities
              lat lon depth categories time_delta res Hnd Hres)
    as (Hnames & _ & Hdist & Hcat).
  destruct (first_slot_of_category_is_nearest lat lon categories k c Hk Hfirst)
    as (o & d & Ho & Hd & Hn).
  rewrite Hnames in Ho. rewrite !list_lookup_fmap in Ho.
  destruct (res !! k) as [[name info]|] eqn:E; [| done].
  cbn in Ho. injection Ho as <-. cbn in Hn.
  destruct Hn as (values & Hin & Hc & Hdv & _ & Hmin).
  eapply Forall2_lookup_lr in Hdist; [| exact E | exact Hd]. cbn in Hdist.
  exists name, info, values. rewrite Hdist.
  split; [done |]. split; [done |]. split; [done |]. split; [done |].
  intros name' values' Hin' Hc'. by apply (Hmin name' values').
Qed.

End Catalog.

Lemma first_slot_of_category_is_nearest_witness :
  let st := select_cities (fun _ _ a _ => a) [("Arcata", MkCity 5 0 18000 "B")]
              0 0 ["C"; "B"; "B"] in
  exists o d,
    nearest_cities st !! 1 = Some o /\ distances st !! 1 = Some d /\
    nearest_of (fun _ _ a _ => a) 0 0 "B" [("Arcata", MkCity 5 0 18000 "B")] o d.
Proof.
  apply (first_slot_of_category_is_nearest 
           (fun _ _ a _ => a) [("Arcata", MkCity 5 0 18000 "B")] 0 0
           ["C"; "B"; "B"] 1 "B").
  - reflexivity.
  - intros i Hi. assert (i = 0) as -> by lia. cbn. discriminate.
Defined.

Definition shore : list (string * city_values) :=
  [("Eureka", MkCity 3 0 26000 "C");
   ("Arcata", MkCity 1 0 18000 "B");
   ("Fortuna", MkCity 2 0 12000 "B");
   ("Ferndale", MkCity 4 0 1400 "A")].

Definition shore_cities : list (string * city_info) :=
  Eval vm_compute in
    match getCityList (fun _ _ a _ => a) (fun x => x) (fun _ _ => 0%Q) shore
            0 0 10 ["C"; "B"; "B"; "A"] 0 with
    | Ok res => res
    | Raise _ => []
    end.

Lemma shore_cities_returned :
  getCityList (fun _ _ a _ => a) (fun x => x) (fun _ _ => 0%Q) shore
    0 0 10 ["C"; "B"; "B"; "A"] 0 = Ok shore_cities.
Proof. vm_compute. reflexivity. Qed.

Lemma getCityList_first_slot_nearest_witness :
  exists name info values,
    shore_cities !! 1 = Some (name, info) /\ (name, values) ∈ shore /\
    category values = "B" /\
    distance info = PyCities.lat values /\
    forall name' values', (name', values') ∈ shore -> category values' = "B" ->
      (distance info <= PyCities.lat values')%Q.
Proof.
  apply (getCityList_first_slot_nearest (fun _ _ a _ => a) (fun x => x)
           (fun _ _ => 0%Q) shore 0 0 10 ["C"; "B"; "B"; "A"] 0
           shore_cities 1 "B").
  - compute_done.
  - exact shore_cities_returned.
  - reflexivity.
  - intros i Hi. assert (i = 0) as -> by lia. cbn. discriminate.
Defined.


(** *** The entries of the returned dictionary *)

Section Entries.
Variable distanceBetween : Q -> Q -> Q -> Q -> Q.
Variable sqrt : Q -> Q.
Variable initial_bearing : Q * Q -> Q * Q -> Q.
Variable cities : list (string * city_values).

(** An entry made from the catalogue: its coordinates are those of the
    city, its time is not negative and its bearing is a compass name. *)
Definition well_formed_entry (e : string * city_info) : Prop :=
  (exists values,
     dict_get cities (fst e) = Ok values /\
     info_lat (snd e) = PyCities.lat values /\
     info_lon (snd e) = PyCities.lon values) /\
  (0 <= time (snd e))%Q /\
  bearing (snd e) ∈ bearings.

Lemma dict_set_Forall {A : Type} (Q : string * A -> Prop) d k v :
  Forall Q d -> Q (k, v) -> Forall Q (dict_set d k v).
Proof.
  induction d as [|[k' v'] d IH]; cbn; intros Hd Hkv.
  - by constructor.
  - apply Forall_cons in Hd as [Hh Hd].
    destruct (decide (k' = k)) as [-> | Hne]; constructor; auto.
Qed.

Lemma py_list_get_elem_of {A : Type} (l : list A) i a :
  py_list_get l i = Ok a -> a ∈ l.
Proof.
  unfold py_list_get. cbn zeta. destruct (_ <? 0)%Z; [done |].
  destruct (l !! _) as [a'|] eqn:E; [| done].
  intros [= <-]. by eapply list_elem_of_lookup_2.
Qed.

Lemma py_max_nonneg a : (0 <= py_max a 0)%Q.
Proof.
  unfold py_max. destruct (Qltb a 0) eqn:E; [lra |]. by apply Qltb_ge in E.
Qed.

Lemma add_city_well_formed lat lon depth time_delta acc slot res :
  Forall well_formed_entry acc ->
  add_city sqrt initial_bearing cities lat lon depth time_delta acc slot = Ok res ->
  Forall well_formed_entry res.
Proof.
  intros Hacc. destruct slot as [cat [[name|] dist]]; cbn; [| done].
  destruct (dict_get cities name) as [values|] eqn:Ev; cbn; [| done].
  destruct (get_compass_direction _) as [s|] eqn:Es; cbn; [| done].
  intros [= <-]. apply dict_set_Forall; [done |].
  split; [by exists values |]. cbn. split; [apply py_max_nonneg |].
  unfold get_compass_direction in Es. by eapply py_list_get_elem_of.
Qed.

Lemma build_well_formed lat lon depth time_delta slots : forall acc res,
  Forall well_formed_entry acc ->
  for_each (add_city sqrt initial_bearing cities lat lon depth time_delta)
    slots acc = Ok res ->
  Forall well_formed_entry res.
Proof.
  induction slots as [|slot slots IH]; intros acc res Hacc; cbn [for_each].
  - by intros [= <-].
  - destruct (add_city _ _ _ _ _ _ _ acc slot) as [acc'|] eqn:E; cbn; [| done].
    apply IH. by eapply add_city_well_formed.
Qed.

(** X12. Every entry of the dictionary that [getCityList] returns is made
    from a city of the catalogue, with the coordinates of that city, a
    time to alert that is not negative and one of the eight compass
    names as its bearing. *)
Theorem getCityList_entries_well_formed lat lon depth categories time_delta res :
  getCityList distanceBetween sqrt initial_bearing cities
    lat lon depth categories time_delta = Ok res ->
  Forall well_formed_entry res.
Proof.
  unfold getCityList. apply build_well_formed. constructor.
Qed.

End Entries.

Lemma getCityList_entries_well_formed_witness :
  Forall (well_formed_entry shore) shore_cities.
Proof.
  apply (getCityList_entries_well_formed (fun _ _ a _ => a) (fun x => x)
           (fun _ _ => 0%Q) shore 0 0 10 ["C"; "B"; "B"; "A"] 0 shore_cities).
  exact shore_cities_returned.
Defined.

End NearestCityFacts.

(** ** The sort of the closest cities *)

Module CitySortFacts.
Import PyCities CitySort PointInPolyFacts CitiesFacts.

(** *** Inversions *)

(** The number of elements of [l] strictly smaller than [a], and the number
    of pairs in the wrong order. *)
Definition nsmaller (a : Q) (l : list Q) : nat :=
  length (List.filter (fun y => Qltb y a) l).

Fixpoint cross (l1 l2 : list Q) : nat :=
  match l1 with
  | [] => 0
  | x :: l1' => nsmaller x l2 + cross l1' l2
  end.

Fixpoint inversions (l : list Q) : nat :=
  match l with
  | [] => 0
  | x :: l' => nsmaller x l' + inversions l'
  end.

Lemma nsmaller_app a l1 l2 : nsmaller a (l1 ++ l2) = nsmaller a l1 + nsmaller a l2.
Proof. unfold nsmaller. by rewrite List.filter_app, length_app. Qed.

Lemma nsmaller_le_length a l : nsmaller a l <= length l.
Proof. unfold nsmaller. apply List.filter_length_le. Qed.

Lemma nsmaller_mono a b l : (b <= a)%Q -> nsmaller b l <= nsmaller a l.
Proof.
  intros Hab. unfold nsmaller. induction l as [|y l IH]; cbn; [done |].
  destruct (Qltb y b) eqn:Eb.
  - apply Qltb_lt in Eb.
    assert (Qltb y a = true) as -> by (apply Qltb_lt; lra). cbn. lia.
  - destruct (Qltb y a); cbn; lia.
Qed.

Lemma cross_app_l l1 l2 l3 : cross (l1 ++ l2) l3 = cross l1 l3 + cross l2 l3.
Proof. induction l1 as [|x l1 IH]; cbn; [done |]. rewrite IH. lia. Qed.

Lemma cross_app_r l1 l2 l3 : cross l1 (l2 ++ l3) = cross l1 l2 + cross l1 l3.
Proof.
  induction l1 as [|x l1 IH]; cbn; [done |].
  rewrite IH, nsmaller_app. lia.
Qed.

Lemma cross_single_mono l a b : (b <= a)%Q -> cross l [a] <= cross l [b].
Proof.
  intros Hab. induction l as [|x l IH]; cbn [cross]; [done |].
  assert (nsmaller x [a] <= nsmaller x [b]); [| lia].
  unfold nsmaller. cbn.
  destruct (Qltb a x) eqn:Ea.
  - apply Qltb_lt in Ea.
    assert (Qltb b x = true) as -> by (apply Qltb_lt; lra). cbn. lia.
  - destruct (Qltb b x); cbn; lia.
Qed.

Lemma inversions_app l1 l2 :
  inversions (l1 ++ l2) = inversions l1 + inversions l2 + cross l1 l2.
Proof.
  induction l1 as [|x l1 IH]; cbn; [lia |].
  rewrite IH, nsmaller_app. lia.
Qed.

Lemma inversions_bound l : inversions l <= length l * length l.
Proof.
  induction l as [|x l IH]; cbn; [done |].
  pose proof (nsmaller_le_length x l). nia.
Qed.

(** Exchanging two elements that are in the wrong order removes at least
    one inversion. *)
Lemma inversions_exchange pre mid post (a b : Q) :
  (b < a)%Q ->
  inversions (pre ++ b :: mid ++ a :: post) <
  inversions (pre ++ a :: mid ++ b :: post).
Proof.
  intros Hab.
  change (b :: mid ++ a :: post) with ([b] ++ mid ++ [a] ++ post).
  change (a :: mid ++ b :: post) with ([a] ++ mid ++ [b] ++ post).
  rewrite !inversions_app, ?cross_app_r, ?cross_app_l. cbn [inversions cross].
  pose proof (nsmaller_mono a b mid ltac:(lra)) as H1.
  pose proof (cross_single_mono mid a b ltac:(lra)) as H2.
  assert (nsmaller a [b] = 1) as Hab1.
  { unfold nsmaller. cbn. by assert (Qltb b a = true) as -> by by apply Qltb_lt. }
  assert (nsmaller b [a] = 0) as Hba0.
  { unfold nsmaller. cbn.
    by assert (Qltb a b = false) as -> by (apply Qltb_ge; lra). }
  rewrite ?nsmaller_app.
  rewrite Hab1, Hba0.
  pose proof (nsmaller_mono a b post ltac:(lra)) as H3.
  change (nsmaller a []) with 0. change (nsmaller b []) with 0. lia.
Qed.


(** *** The passes of the loop *)

Section Sort.
Variable closest_cities : list (string * city_info).

(** The distance recorded for a key, as [closest_cities[key]['distance']]
    reads it. *)
Definition distance_of (key : string) : Q :=
  match dict_get closest_cities key with
  | Ok info => distance info
  | Raise _ => 0
  end.

Definition known (city_keys : list string) : Prop :=
  Forall (fun key => key ∈ closest_cities.*1) city_keys.

Definition ascending (city_keys : list string) : Prop :=
  StronglySorted (fun a b => (distance_of a <= distance_of b)%Q) city_keys.

Lemma distance_at_ok city_keys i key :
  known city_keys -> city_keys !! i = Some key ->
  distance_at closest_cities city_keys i = Ok (distance_of key).
Proof.
  intros Hk Hi. unfold distance_at, py_index, distance_of. rewrite Hi. cbn.
  assert (key ∈ closest_cities.*1) as Hin.
  { eapply Forall_forall in Hk; [exact Hk |]. by eapply list_elem_of_lookup_2. }
  destruct (dict_get_ok closest_cities key Hin) as [v ->]. done.
Qed.

Lemma scan_j_spec city_keys i ki js :
  known city_keys -> city_keys !! i = Some ki ->
  Forall (fun j => j < length city_keys) js ->
  (scan_j closest_cities city_keys i js = Ok None /\
   forall j kj, j ∈ js -> city_keys !! j = Some kj ->
     (distance_of ki <= distance_of kj)%Q) \/
  (exists j kj, scan_j closest_cities city_keys i js = Ok (Some j) /\
     j ∈ js /\ city_keys !! j = Some kj /\
     (distance_of kj < distance_of ki)%Q).
Proof.
  intros Hk Hi. induction js as [|j js IH]; intros Hjs.
  - left. split; [done |]. intros j kj Hj. by apply elem_of_nil in Hj.
  - apply Forall_cons in Hjs as [Hj Hjs].
    destruct (lookup_lt_is_Some_2 city_keys j Hj) as [kj Hkj].
    cbn [scan_j]. rewrite (distance_at_ok _ _ _ Hk Hi), (distance_at_ok _ _ _ Hk Hkj).
    cbn. destruct (Qltb (distance_of kj) (distance_of ki)) eqn:E.
    + right. exists j, kj. apply Qltb_lt in E.
      repeat split; [apply elem_of_cons; by left | done | done].
    + apply Qltb_ge in E. destruct (IH Hjs) as [[-> Hall] | (j' & kj' & -> & Hin & Hl & Hlt)].
      * left. split; [done |]. intros j' kj' Hin Hl.
        apply elem_of_cons in Hin as [-> | Hin]; [| by eapply Hall].
        by simplify_eq.
      * right. exists j', kj'. repeat split; [| done | done].
        apply elem_of_cons. by right.
Qed.

Lemma scan_i_spec city_keys idx :
  known city_keys ->
  Forall (fun i => i < length city_keys) idx ->
  (scan_i closest_cities city_keys idx = Ok None /\
   forall i j ki kj, i ∈ idx -> i < j ->
     city_keys !! i = Some ki -> city_keys !! j = Some kj ->
     (distance_of ki <= distance_of kj)%Q) \/
  (exists i j ki kj, scan_i closest_cities city_keys idx = Ok (Some (i, j)) /\
     i < j /\ city_keys !! i = Some ki /\ city_keys !! j = Some kj /\
     (distance_of kj < distance_of ki)%Q).
Proof.
  intros Hk. induction idx as [|i idx IH]; intros Hidx.
  - left. split; [done |]. intros i j ki kj Hi. by apply elem_of_nil in Hi.
  - apply Forall_cons in Hidx as [Hi Hidx].
    destruct (lookup_lt_is_Some_2 city_keys i Hi) as [ki Hki].
    cbn [scan_i].
    assert (Forall (fun j => j < length city_keys)
              (seq (i + 1) (length city_keys - (i + 1)))) as Hjs.
    { apply Forall_forall. intros j Hj. apply elem_of_seq in Hj. lia. }
    destruct (scan_j_spec city_keys i ki _ Hk Hki Hjs)
      as [[-> Hall] | (j & kj & -> & Hin & Hl & Hlt)]; cbn.
    + destruct (IH Hidx) as [[-> Hrest] | (i' & j' & ki' & kj' & -> & H)].
      * left. split; [done |]. intros i' j ki' kj Hin Hlt Hl1 Hl2.
        apply elem_of_cons in Hin as [-> | Hin]; [| by eapply Hrest].
        simplify_eq. apply (Hall j kj); [| done].
        apply elem_of_seq. apply lookup_lt_Some in Hl2. lia.
      * right. by exists i', j', ki', kj'.
    + right. exists i, j, ki, kj. apply elem_of_seq in Hin.
      repeat split; [lia | done | done | done].
Qed.

Lemma ascending_lookup city_keys :
  (forall i j ki kj, i < j ->
     city_keys !! i = Some ki -> city_keys !! j = Some kj ->
     (distance_of ki <= distance_of kj)%Q) ->
  ascending city_keys.
Proof.
  unfold ascending. induction city_keys as [|k l IH]; intros H; constructor.
  - apply IH. intros i j ki kj Hlt Hi Hj. by apply (H (S i) (S j)); [lia | |].
  - apply Forall_forall. intros x Hx.
    apply list_elem_of_lookup_1 in Hx as [j Hj].
    by apply (H 0 (S j)); [lia | |].
Qed.

(** Two positions of a list split it in five. *)
Lemma split_at_two (l : list string) i j ki kj :
  i < j -> l !! i = Some ki -> l !! j = Some kj ->
  exists pre mid post,
    l = pre ++ ki :: mid ++ kj :: post /\
    <[j := ki]> (<[i := kj]> l) = pre ++ kj :: mid ++ ki :: post.
Proof.
  intros Hlt Hi Hj.
  apply list_elem_of_split_length in Hi as (pre & rest & -> & ->).
  rewrite lookup_app_r in Hj by lia.
  replace (j - length pre) with (S (j - length pre - 1)) in Hj by lia.
  cbn in Hj.
  apply list_elem_of_split_length in Hj as (mid & post & -> & Hmid).
  exists pre, mid, post. split; [done |].
  replace j with (length pre + S (length mid + 0)) by lia.
  rewrite <- (Nat.add_0_r (length pre)) at 2.
  rewrite !insert_app_r. f_equal.
  change (kj :: <[length mid + 0 := ki]> (mid ++ kj :: post) =
          kj :: mid ++ ki :: post).
  by rewrite insert_app_r.
Qed.

(** One pass: either the keys are in ascending order and nothing changes,
    or two keys in the wrong order are exchanged. *)
Lemma pass_spec city_keys :
  known city_keys ->
  (pass closest_cities city_keys = Ok None /\ ascending city_keys) \/
  (exists pre mid post ki kj,
     city_keys = pre ++ ki :: mid ++ kj :: post /\
     (distance_of kj < distance_of ki)%Q /\
     pass closest_cities city_keys = Ok (Some (pre ++ kj :: mid ++ ki :: post))).
Proof.
  intros Hk. unfold pass.
  assert (Forall (fun i => i < length city_keys) (seq 0 (length city_keys - 1)))
    as Hidx.
  { apply Forall_forall. intros i Hi. apply elem_of_seq in Hi. lia. }
  destruct (scan_i_spec city_keys _ Hk Hidx)
    as [[-> Hall] | (i & j & ki & kj & -> & Hlt & Hi & Hj & Hd)]; cbn.
  - left. split; [done |]. apply ascending_lookup.
    intros i j ki kj Hlt Hi Hj. apply (Hall i j ki kj); [| done | done | done].
    apply elem_of_seq. apply lookup_lt_Some in Hj. lia.
  - right. destruct (split_at_two _ _ _ _ _ Hlt Hi Hj) as (pre & mid & post & E1 & E2).
    exists pre, mid, post, ki, kj. split; [done |]. split; [done |].
    unfold exchange, py_index. rewrite Hi, Hj. cbn. by rewrite E2.
Qed.

Definition disorder (city_keys : list string) : nat :=
  inversions (distance_of <$> city_keys).

Lemma exchange_perm (pre mid post : list string) ki kj :
  pre ++ kj :: mid ++ ki :: post ≡ₚ pre ++ ki :: mid ++ kj :: post.
Proof.
  apply Permutation_app_head.
  rewrite !(Permutation_middle _ mid post) || idtac.
  change (kj :: mid ++ ki :: post) with ([kj] ++ mid ++ [ki] ++ post).
  change (ki :: mid ++ kj :: post) with ([ki] ++ mid ++ [kj] ++ post).
  rewrite !(assoc_L (++)).
  apply Permutation_app_tail.
  rewrite <- !(assoc_L (++)).
  rewrite (Permutation_app_comm [kj] (mid ++ [ki])).
  rewrite (Permutation_app_comm mid [ki]).
  by rewrite <- !(assoc_L (++)).
Qed.

(** The loop ends once the turns exceed the number of pairs in the wrong
    order, with the keys rearranged in ascending order of distance. *)
Lemma bubble_spec turns : forall city_keys,
  known city_keys -> disorder city_keys < turns ->
  exists sorted,
    bubble closest_cities turns city_keys = Ok (Some sorted) /\
    sorted ≡ₚ city_keys /\ ascending sorted.
Proof.
  induction turns as [|turns IH]; intros city_keys Hk Hd; [lia |].
  cbn [bubble].
  destruct (pass_spec city_keys Hk)
    as [[-> Hasc] | (pre & mid & post & ki & kj & E & Hlt & ->)]; cbn.
  - by exists city_keys.
  - destruct (IH (pre ++ kj :: mid ++ ki :: post)) as (sorted & -> & Hp & Hs).
    + unfold known. rewrite exchange_perm. by rewrite <- E.
    + assert (disorder (pre ++ kj :: mid ++ ki :: post) < disorder city_keys);
        [| lia].
      rewrite E. unfold disorder.
      rewrite !fmap_app, !fmap_cons, !fmap_app, !fmap_cons.
      by apply inversions_exchange.
    + exists sorted. split; [done |]. split; [| done].
      rewrite Hp, E. apply exchange_perm.
Qed.


(** *** The new dictionary *)

Lemma dict_get_elem_of key info :
  dict_get closest_cities key = Ok info -> (key, info) ∈ closest_cities.
Proof.
  induction closest_cities as [|[k v] d IH]; cbn; [done |].
  destruct (decide (k = key)) as [-> | Hne].
  - intros [= ->]. apply elem_of_cons. by left.
  - intros H. apply elem_of_cons. right. by apply IH.
Qed.

Lemma rebuild_spec city_keys : forall acc,
  known city_keys -> NoDup (acc.*1 ++ city_keys) ->
  exists entries,
    for_each (fun new_closest_cities city =>
                info ← dict_get closest_cities city;
                Ok (dict_set new_closest_cities city info)) city_keys acc =
      Ok (acc ++ entries) /\
    entries.*1 = city_keys /\
    Forall (fun e => e ∈ closest_cities) entries.
Proof.
  induction city_keys as [|key keys IH]; intros acc Hk Hnd.
  - exists []. by rewrite app_nil_r.
  - apply Forall_cons in Hk as [Hin Hk].
    destruct (dict_get_ok closest_cities key Hin) as [info Hinfo].
    cbn [for_each]. rewrite Hinfo. cbn.
    rewrite dict_set_fresh.
    2:{ apply NoDup_app in Hnd as (_ & Hdis & _). intros Hacc.
        apply (Hdis key Hacc). apply elem_of_cons. by left. }
    destruct (IH (acc ++ [(key, info)])) as (entries & -> & Hkeys & Hall); [done | |].
    { rewrite fmap_app. cbn. by rewrite <- (assoc_L (++)). }
    exists ((key, info) :: entries). rewrite <- (assoc_L (++)). cbn.
    split; [done |]. split; [by rewrite Hkeys |].
    constructor; [by apply dict_get_elem_of | done].
Qed.

Lemma distance_of_entry e :
  NoDup closest_cities.*1 -> e ∈ closest_cities ->
  distance_of (fst e) = distance (snd e).
Proof.
  intros Hnd He. destruct e as [key info]. unfold distance_of. cbn.
  destruct (dict_get_ok closest_cities key) as [info' Hinfo'].
  { apply list_elem_of_fmap. by exists (key, info). }
  rewrite Hinfo'. apply dict_get_elem_of in Hinfo'.
  by rewrite (same_key_same_value _ _ _ _ Hnd He Hinfo').
Qed.

Lemma same_keys_same_entries (entries : list (string * city_info)) :
  NoDup closest_cities.*1 -> entries.*1 ≡ₚ closest_cities.*1 ->
  Forall (fun e => e ∈ closest_cities) entries ->
  entries ≡ₚ closest_cities.
Proof.
  intros Hnd Hp Hall.
  assert (NoDup entries.*1) as Hnd' by by rewrite Hp.
  apply list.NoDup_Permutation.
  - by eapply NoDup_fmap_1.
  - by eapply NoDup_fmap_1.
  - intros [key info]. split.
    + intros He. eapply Forall_forall in Hall; [exact Hall | done].
    + intros He.
      assert (key ∈ entries.*1) as Hk.
      { rewrite Hp. apply list_elem_of_fmap. by exists (key, info). }
      apply list_elem_of_fmap in Hk as ([key' info'] & Ek & He'). cbn in Ek. subst key'.
      assert ((key, info') ∈ closest_cities) as Hc.
      { eapply Forall_forall in Hall; [exact Hall | done]. }
      by rewrite (same_key_same_value _ _ _ _ Hnd He Hc).
Qed.

End Sort.

(** Entries in ascending order of their distance. *)
Definition by_distance (entries : list (string * city_info)) : Prop :=
  StronglySorted (fun a b => (distance (snd a) <= distance (snd b))%Q) entries.

Lemma ascending_by_distance closest_cities (entries : list (string * city_info)) :
  Forall (fun e => distance_of closest_cities (fst e) = distance (snd e)) entries ->
  ascending closest_cities entries.*1 -> by_distance entries.
Proof.
  unfold ascending, by_distance.
  induction entries as [|e entries IH]; intros Hd Hs; [constructor |].
  apply Forall_cons in Hd as [He Hd]. cbn in Hs.
  apply StronglySorted_inv in Hs as [Hs Hle].
  constructor; [by apply IH |].
  apply Forall_forall. intros e' He'.
  rewrite <- He. eapply Forall_forall in Hd; [| exact He']. cbn in Hd.
  rewrite <- Hd. eapply Forall_forall in Hle; [exact Hle |].
  apply list_elem_of_fmap. by exists e'.
Qed.

(** X6. The reordering loop of [finalizeShakeAlertValues] ends, and the new
    dictionary holds the entries of [closest_cities], each once, in
    ascending order of distance.  The turns of the [while True] loop are
    counted; any number above the square of the number of cities is
    enough. *)
Theorem sort_closest_cities_sorts closest_cities turns :
  NoDup closest_cities.*1 ->
  length closest_cities * length closest_cities < turns ->
  exists sorted,
    sort_closest_cities closest_cities turns = Ok (Some sorted) /\
    sorted ≡ₚ closest_cities /\ by_distance sorted.
Proof.
  intros Hnd Hturns. unfold sort_closest_cities.
  assert (known closest_cities closest_cities.*1) as Hk.
  { apply Forall_forall. by intros k Hk. }
  destruct (bubble_spec closest_cities turns closest_cities.*1 Hk)
    as (keys & -> & Hp & Hs).
  { unfold disorder. pose proof (inversions_bound (distance_of closest_cities <$> closest_cities.*1)) as Hb.
    rewrite !length_fmap in Hb. lia. }
  cbn. unfold rebuild.
  destruct (rebuild_spec closest_cities keys []) as (entries & -> & Hkeys & Hall).
  { unfold known. by rewrite Hp. }
  { cbn. by rewrite Hp. }
  cbn. exists entries. split; [done |].
  assert (entries ≡ₚ closest_cities) as Hpe.
  { apply same_keys_same_entries; [done | by rewrite Hkeys | done]. }
  split; [done |].
  apply (ascending_by_distance closest_cities); [| by rewrite Hkeys].
  eapply Forall_impl; [exact Hall |]. intros e He.
  by apply distance_of_entry.
Qed.

Definition three_cities : list (string * city_info) :=
  [("Eureka", MkCityInfo 40.8 (-124.2) "C" 30 5 "N");
   ("Arcata", MkCityInfo 40.9 (-124.1) "B" 12 2 "NE");
   ("Fortuna", MkCityInfo 40.6 (-124.2) "B" 21 3 "S")].

Lemma sort_closest_cities_sorts_witness :
  exists sorted,
    sort_closest_cities three_cities 10 = Ok (Some sorted) /\
    sorted ≡ₚ three_cities /\ by_distance sorted.
Proof.
  apply (sort_closest_cities_sorts three_cities 10).
  - compute_done.
  - cbn. lia.
Defined.


Section Catalog.
Variable distanceBetween : Q -> Q -> Q -> Q -> Q.
Variable sqrt : Q -> Q.
Variable initial_bearing : Q * Q -> Q * Q -> Q.
Variable cities : list (string * city_values).

Local Abbreviation getCityList :=
  (getCityList distanceBetween sqrt initial_bearing cities).
Local Abbreviation closest_cities :=
  (closest_cities distanceBetween sqrt initial_bearing cities).
Local Abbreviation reordered_cities :=
  (reordered_cities distanceBetween sqrt initial_bearing cities).

Lemma closest_cities_request lat lon depth delta closest :
  snd (closest_cities lat lon depth delta) = Ok closest ->
  exists categories,
    length categories = 4 /\
    getCityList lat lon depth categories delta = Ok closest.
Proof.
  unfold PyCities.closest_cities.
  destruct (getCityList lat lon depth ["C"; "B"; "B"; "A"] delta)
    as [first|e] eqn:E1; [| done].
  destruct (fst <$> first !! 0) as [c_city|]; [| done].
  destruct (fst <$> first !! 1) as [b_city|]; [| done].
  destruct (dict_get first c_city) as [c_info|]; [| done].
  destruct (dict_get first b_city) as [b_info|]; [| done].
  destruct (Qltb (distance b_info) (distance c_info)); cbn.
  - intros H. by exists ["B"; "B"; "B"; "A"].
  - intros [= <-]. by exists ["C"; "B"; "B"; "A"].
Qed.

(** X7. When the selection of the cities succeeds, the reordering ends and
    the report lists the same four entries in ascending order of distance;
    when it raises, the error is passed on. *)
Theorem reordered_cities_ascending lat lon depth delta turns :
  NoDup cities.*1 -> 16 < turns ->
  match snd (closest_cities lat lon depth delta) with
  | Ok closest =>
      exists sorted,
        reordered_cities lat lon depth delta turns = Ok (Some sorted) /\
        sorted ≡ₚ closest /\ by_distance sorted /\
        length sorted = 4 /\ NoDup sorted.*1
  | Raise e => reordered_cities lat lon depth delta turns = Raise e
  end.
Proof.
  intros Hnd Hturns. unfold CitySort.reordered_cities.
  destruct (snd (closest_cities lat lon depth delta)) as [closest|e] eqn:E;
    [| done].
  destruct (closest_cities_request _ _ _ _ _ E) as (categories & Hlen & Hget).
  destruct (getCityList_slots distanceBetween sqrt initial_bearing cities
              lat lon depth categories delta closest Hnd Hget)
    as (_ & Hkeys & _ & Hcat).
  apply Forall2_length in Hcat. rewrite Hlen in Hcat.
  destruct (sort_closest_cities_sorts closest turns Hkeys)
    as (sorted & Hsort & Hp & Hs).
  { rewrite Hcat. cbn. lia. }
  exists sorted. cbn. split; [done |]. split; [done |]. split; [done |].
  split; [by rewrite Hp | by rewrite Hp].
Qed.

End Catalog.

Definition flat_distance (lat1 lon1 lat2 lon2 : Q) : Q :=
  (Qabs (lat1 - lat2) + Qabs (lon1 - lon2))%Q.

(** A catalogue whose nearest town is nearer than its nearest city, so
    that the request is repeated with B,B,B,A. *)
Definition small_catalog : list (string * city_values) :=
  [("Eureka", MkCity 3 0 26000 "C");
   ("Arcata", MkCity 1 0 18000 "B");
   ("Fortuna", MkCity 2 0 12000 "B");
   ("Loleta", MkCity 5 0 800 "B");
   ("Ferndale", MkCity 4 0 1400 "A")].

Definition small_catalog_selected : list (string * city_info) :=
  Eval vm_compute in
    match snd (PyCities.closest_cities flat_distance (fun x => x)
                 (fun _ _ => 0%Q) small_catalog 0 0 10 0) with
    | Ok closest => closest
    | Raise _ => []
    end.

Lemma small_catalog_selection :
  PyCities.closest_cities flat_distance (fun x => x) (fun _ _ => 0%Q)
    small_catalog 0 0 10 0 =
    ([["C"; "B"; "B"; "A"]; ["B"; "B"; "B"; "A"]], Ok small_catalog_selected).
Proof. vm_compute. reflexivity. Qed.

Example small_catalog_selected_names :
  small_catalog_selected.*1 = ["Arcata"; "Fortuna"; "Loleta"; "Ferndale"].
Proof. reflexivity. Qed.

Example small_catalog_reordered_names :
  (fun sorted : option (list (string * city_info)) =>
     (fun entries : list (string * city_info) => entries.*1) <$> sorted) <$>
    CitySort.reordered_cities flat_distance (fun x => x) (fun _ _ => 0%Q)
      small_catalog 0 0 10 0 17 =
    Ok (Some ["Arcata"; "Fortuna"; "Ferndale"; "Loleta"]).
Proof. vm_compute. reflexivity. Qed.

Lemma reordered_cities_ascending_witness :
  NoDup small_catalog.*1 /\ 16 < 17 /\
  exists sorted,
    CitySort.reordered_cities flat_distance (fun x => x) (fun _ _ => 0%Q)
      small_catalog 0 0 10 0 17 = Ok (Some sorted) /\
    sorted ≡ₚ small_catalog_selected /\ by_distance sorted /\
    length sorted = 4 /\ NoDup sorted.*1.
Proof.
  assert (NoDup small_catalog.*1) as Hnd by compute_done.
  assert (16 < 17) as Hturns by lia.
  split; [exact Hnd |]. split; [exact Hturns |].
  pose proof (reordered_cities_ascending flat_distance (fun x => x)
                (fun _ _ => 0%Q) small_catalog 0 0 10 0 17 Hnd Hturns) as H.
  rewrite small_catalog_selection in H. exact H.
Defined.

End CitySortFacts.

(** ** Stations in range *)

Module StationsFacts.
Import Stations PointInPolyFacts.

Section Range.
Variable getDistance : Q * Q -> Q * Q -> result Q.

Local Abbreviation count_step point distanceKM :=
  (fun (numStations : nat) (station : string * (Q * Q)) =>
     d ← getDistance point (snd station);
     Ok (if Qle_bool d distanceKM then numStations + 1 else numStations)).

Lemma count_loop point near far stationDict : forall a b,
  (near <= far)%Q -> a <= b ->
  match for_each (count_step point near) stationDict a,
        for_each (count_step point far) stationDict b with
  | Ok n, Ok m => n <= m /\ m <= b + length stationDict
  | Raise e, Raise e' => e = e'
  | _, _ => False
  end.
Proof.
  induction stationDict as [|station rest IH]; intros a b Hd Hab.
  - cbn. lia.
  - cbn [for_each]. destruct (getDistance point (snd station)) as [d|e]; cbn; [| done].
    destruct (Qle_bool d near) eqn:En.
    + apply Qle_bool_iff in En.
      assert (Qle_bool d far = true) as -> by (apply Qle_bool_iff; lra).
      specialize (IH (a + 1) (b + 1) Hd ltac:(lia)).
      destruct (for_each _ rest (a + 1)), (for_each _ rest (b + 1)); try done. lia.
    + destruct (Qle_bool d far).
      * specialize (IH a (b + 1) Hd ltac:(lia)).
        destruct (for_each _ rest a), (for_each _ rest (b + 1)); try done. lia.
      * specialize (IH a b Hd Hab).
        destruct (for_each _ rest a), (for_each _ rest b); try done. lia.
Qed.

(** X16. The count of stations grows with the range: for two ranges around
    the same point either both counts raise the same error, or both return
    and the count of the shorter range is at most that of the longer one,
    which is at most the number of stations. *)
Theorem getNumStationsInRange_monotone stationDict point near far :
  (near <= far)%Q ->
  match getNumStationsInRange getDistance stationDict point near,
        getNumStationsInRange getDistance stationDict point far with
  | Ok n, Ok m => n <= m /\ m <= length stationDict
  | Raise e, Raise e' => e = e'
  | _, _ => False
  end.
Proof.
  intros Hd. unfold getNumStationsInRange.
  pose proof (count_loop point near far stationDict 0 0 Hd ltac:(lia)) as H.
  by destruct (for_each _ stationDict 0), (for_each _ stationDict 0).
Qed.

End Range.

Lemma getNumStationsInRange_monotone_witness :
  match getNumStationsInRange (fun a b => Ok (Qabs (fst a - fst b)))
          [("CIPAS", (34, -118)); ("CIUSC", (40, -118))]%Q (34, -118)%Q 10,
        getNumStationsInRange (fun a b => Ok (Qabs (fst a - fst b)))
          [("CIPAS", (34, -118)); ("CIUSC", (40, -118))]%Q (34, -118)%Q 100 with
  | Ok n, Ok m => n <= m /\ m <= 2
  | Raise e, Raise e' => e = e'
  | _, _ => False
  end.
Proof.
  apply (getNumStationsInRange_monotone (fun a b => Ok (Qabs (fst a - fst b)))
           [("CIPAS", (34, -118)); ("CIUSC", (40, -118))]%Q (34, -118)%Q 10 100).
  vm_compute. discriminate.
Defined.

End StationsFacts.

(** ** The intensity shown for a city *)

Module IntensityTextFacts.
Import EQCalculations ShakeAlertParser IntensityText IntensityFacts
       IntensityOrderFacts.

Section NumberString.
Variable py_int_str : string -> result Z.
Hypothesis int_of_one : py_int_str "1" = Ok 1%Z.

(** X17. The MMI column of the city table shows the level of the first
    polygon of the list that contains the city when that level is above 1,
    and ["<2"] when the level is 1 or less or when no polygon contains the
    city. *)
Theorem txt_city_intensity_cases (mmi_list : list (Z * polygon_coords))
    (lat lon : Q) :
  Forall (fun entry => snd entry <> []) mmi_list ->
  txt_city_intensity py_int_str mmi_list lat lon =
    Ok (match find (contains lat lon) mmi_list with
        | Some entry => if (1 <? fst entry)%Z then py_str (fst entry) else "<2"
        | None => "<2"
        end).
Proof.
  intros Hne. unfold txt_city_intensity.
  rewrite (getIntensityLevel_first mmi_list lat lon false Hne). cbn.
  destruct (find (contains lat lon) mmi_list) as [entry|]; cbn; [done |].
  by rewrite int_of_one.
Qed.

End NumberString.

Lemma txt_city_intensity_cases_witness :
  txt_city_intensity
    (fun s => if String.eqb s "1" then Ok 1%Z else Raise ValueError)
    nested_bands (1 # 2) 8 = Ok "4" /\
  txt_city_intensity
    (fun s => if String.eqb s "1" then Ok 1%Z else Raise ValueError)
    nested_bands 8 (1 # 2) = Ok "<2".
Proof.
  split.
  - rewrite (txt_city_intensity_cases
               (fun s => if String.eqb s "1" then Ok 1%Z else Raise ValueError)
               eq_refl nested_bands (1 # 2) 8);
      [reflexivity | repeat constructor; discriminate].
  - rewrite (txt_city_intensity_cases
               (fun s => if String.eqb s "1" then Ok 1%Z else Raise ValueError)
               eq_refl nested_bands 8 (1 # 2));
      [reflexivity | repeat constructor; discriminate].
Defined.

End IntensityTextFacts.

(** ** Colours of the intensity levels *)

Module UtilsFacts.
Import Utils.

Lemma get_intensity_color_low z : (z < 2)%Z -> get_intensity_color z = "#000000".
Proof. intros H. unfold get_intensity_color. by rewrite (proj2 (Z.ltb_lt z 2) H). Qed.

Lemma get_intensity_color_high z : (10 < z)%Z -> get_intensity_color z = "#800000".
Proof.
  intros H. unfold get_intensity_color.
  rewrite (proj2 (Z.ltb_ge z 2)) by lia.
  rewrite !(proj2 (Z.eqb_neq z _)) by lia.
  by rewrite (proj2 (Z.ltb_lt 10 z) H).
Qed.

(** X18. Every level has a colour of the scale: the closing [return] of
    [get_intensity_color] is never reached; and two levels share a colour
    only when they are equal, both below 2, or both above 10. *)
Theorem get_intensity_color_scale (a b : Z) :
  get_intensity_color a <> "#ffffff" /\
  (get_intensity_color a = get_intensity_color b ->
   a = b \/ (a < 2 /\ b < 2)%Z \/ (10 < a /\ 10 < b)%Z).
Proof.
  assert (forall z, (z < 2 \/ 10 < z \/ z = 2 \/ z = 3 \/ z = 4 \/ z = 5 \/
                     z = 6 \/ z = 7 \/ z = 8 \/ z = 9 \/ z = 10)%Z) as Hcases
    by (intros z; lia).
  split.
  - destruct (Hcases a) as [H | [H | H]].
    + by rewrite get_intensity_color_low.
    + by rewrite get_intensity_color_high.
    + repeat (destruct H as [-> | H]; [done |]). by subst.
  - destruct (Hcases a) as [Ha | [Ha | Ha]], (Hcases b) as [Hb | [Hb | Hb]];
      rewrite ?(get_intensity_color_low _ Ha), ?(get_intensity_color_high _ Ha),
              ?(get_intensity_color_low _ Hb), ?(get_intensity_color_high _ Hb);
      try (intros _; lia); try done.
    + repeat (destruct Hb as [-> | Hb]; [done |]). by subst.
    + repeat (destruct Hb as [-> | Hb]; [done |]). by subst.
    + repeat (destruct Ha as [-> | Ha]; [done |]). by subst.
    + repeat (destruct Ha as [-> | Ha]; [done |]). by subst.
    + repeat (destruct Ha as [-> | Ha];
                [repeat (destruct Hb as [-> | Hb]; [by (intros _; lia) || done |]);
                 subst; by (intros _; lia) || done |]).
      subst. repeat (destruct Hb as [-> | Hb]; [by (intros _; lia) || done |]).
      subst. intros _. lia.
Qed.

End UtilsFacts.

(** ** Timestamps in whole seconds with a suffix *)

Module TimeSuffixFacts.
Import PyDatetime TimeDelta.

Fixpoint last_char (s : string) : option ascii :=
  match s with
  | EmptyString => None
  | String c EmptyString => Some c
  | String _ r => last_char r
  end.

(** [r] is what is left of [s] after a match at its start. *)
Definition rest_of (s r : string) : Prop := exists p, s = p +:+ r.

Lemma append_cons c p r : String c p +:+ r = String c (p +:+ r).
Proof. reflexivity. Qed.

Lemma append_nil r : EmptyString +:+ r = r.
Proof. reflexivity. Qed.

Lemma rest_of_refl s : rest_of s s.
Proof. by exists EmptyString. Qed.

Lemma rest_of_tail c s r : rest_of s r -> rest_of (String c s) r.
Proof. intros [p ->]. by exists (String c p). Qed.

Lemma rest_of_trans s r q : rest_of s r -> rest_of r q -> rest_of s q.
Proof.
  intros [p ->] [p' ->]. exists (p +:+ p').
  induction p as [|c p IH]; [done |]. rewrite !append_cons. by f_equal.
Qed.

Lemma last_char_rest s r c :
  rest_of s r -> last_char r = Some c -> last_char s = Some c.
Proof.
  intros [p ->] Hr. induction p as [|a p IH]; [done |].
  rewrite append_cons. cbn [last_char].
  destruct (p +:+ r) eqn:E; [| done].
  by destruct p, r.
Qed.

Lemma last_char_app s r c :
  last_char r = Some c -> last_char (s +:+ r) = Some c.
Proof. intros H. eapply last_char_rest; [by exists s | done]. Qed.

Lemma first_match_Some {A B : Type} (f : A -> option B) l b :
  first_match f l = Some b -> exists a, a ∈ l /\ f a = Some b.
Proof.
  induction l as [|a l IH]; cbn; [done |].
  destruct (f a) as [b'|] eqn:E.
  - intros [= <-]. exists a. split; [apply elem_of_cons; by left | done].
  - intros H. destruct (IH H) as (a' & Hin & Ha').
    exists a'. split; [apply elem_of_cons; by right | done].
Qed.

Lemma after_spaces_rest s r : r ∈ after_spaces s -> rest_of s r.
Proof.
  revert r. induction s as [|c s IH]; intros r; cbn.
  - intros H. by apply elem_of_nil in H.
  - destruct (is_space c); [| intros H; by apply elem_of_nil in H].
    intros H. apply elem_of_app in H as [H | H].
    + apply rest_of_tail. by apply IH.
    + apply list_elem_of_singleton in H as ->. apply rest_of_tail, rest_of_refl.
Qed.

Lemma alt1_rest p s v r : (v, r) ∈ alt1 p s -> rest_of s r.
Proof.
  unfold alt1. destruct s as [|a s]; [intros H; by apply elem_of_nil in H |].
  destruct (digit a); [| intros H; by apply elem_of_nil in H].
  destruct (p _); [| intros H; by apply elem_of_nil in H].
  intros H. apply list_elem_of_singleton in H. injection H as -> ->.
  apply rest_of_tail, rest_of_refl.
Qed.

Lemma alt2_rest p s v r : (v, r) ∈ alt2 p s -> rest_of s r.
Proof.
  unfold alt2. destruct s as [|a [|b s]]; try (intros H; by apply elem_of_nil in H).
  destruct (digit a); [| intros H; by apply elem_of_nil in H].
  destruct (digit b); [| intros H; by apply elem_of_nil in H].
  destruct (p _ _); [| intros H; by apply elem_of_nil in H].
  intros H. apply list_elem_of_singleton in H. injection H as -> ->.
  apply rest_of_tail, rest_of_tail, rest_of_refl.
Qed.

Lemma alt_space_digit_rest s v r : (v, r) ∈ alt_space_digit s -> rest_of s r.
Proof.
  unfold alt_space_digit. destruct s as [|a s]; [intros H; by apply elem_of_nil in H |].
  destruct (Ascii.eqb a " "); [| intros H; by apply elem_of_nil in H].
  intros H. apply rest_of_tail. by eapply alt1_rest.
Qed.

Lemma four_digits_rest s v r : (v, r) ∈ four_digits s -> rest_of s r.
Proof.
  unfold four_digits.
  destruct s as [|a [|b [|c [|d s]]]]; try (intros H; by apply elem_of_nil in H).
  destruct (digit a), (digit b), (digit c), (digit d);
    try (intros H; by apply elem_of_nil in H).
  intros H. apply list_elem_of_singleton in H. injection H as -> ->.
  do 4 apply rest_of_tail. apply rest_of_refl.
Qed.

Lemma fraction_rest n : forall value s v r,
  (v, r) ∈ fraction n value s -> rest_of s r.
Proof.
  induction n as [|n IH]; intros value s v r; cbn.
  - intros H. by apply elem_of_nil in H.
  - destruct s as [|a s]; [intros H; by apply elem_of_nil in H |].
    destruct (digit a); [| intros H; by apply elem_of_nil in H].
    intros H. apply elem_of_app in H as [H | H].
    + apply rest_of_tail. by eapply IH.
    + apply list_elem_of_singleton in H. injection H as -> ->.
      apply rest_of_tail, rest_of_refl.
Qed.

Lemma directive_matches_rest d s v r :
  (v, r) ∈ directive_matches d s -> rest_of s r.
Proof.
  unfold directive_matches. intros H.
  repeat match type of H with
         | _ ∈ (if ?b then _ else _) => destruct b
         end;
    rewrite ?elem_of_app in H;
    repeat match goal with
           | H' : _ \/ _ |- _ => destruct H' as [H' | H']
           end;
    eauto using alt1_rest, alt2_rest, alt_space_digit_rest, four_digits_rest,
                fraction_rest.
  by apply elem_of_nil in H.
Qed.

(** A pattern that ends with a literal character matches the whole of a
    string only when the string ends with that character, in either
    case. *)
Lemma match_tokens_last_literal c toks : forall s t t',
  match_tokens (toks ++ [Lit c]) s t = Some (t', EmptyString) ->
  exists c', last_char s = Some c' /\ lower c = lower c'.
Proof.
  induction toks as [|tok toks IH]; intros s t t'; cbn [app match_tokens].
  - destruct s as [|c' r]; [done |].
    destruct (Ascii.eqb (lower c) (lower c')) eqn:E; [| done].
    intros [= <- ->]. exists c'. split; [done | by apply Ascii.eqb_eq].
  - destruct tok as [a | | d].
    + destruct s as [|a' r]; [done |].
      destruct (Ascii.eqb (lower a) (lower a')); [| done].
      intros H. destruct (IH r t t' H) as (c' & Hl & Hc).
      exists c'. split; [| done].
      eapply last_char_rest; [apply rest_of_tail, rest_of_refl | done].
    + intros H. apply first_match_Some in H as (r & Hr & H).
      destruct (IH r t t' H) as (c' & Hl & Hc).
      exists c'. split; [| done].
      eapply last_char_rest; [by apply after_spaces_rest | done].
    + intros H. apply first_match_Some in H as ([v r] & Hr & H).
      destruct (IH _ _ t' H) as (c' & Hl & Hc).
      exists c'. split; [| done].
      eapply last_char_rest; [by eapply directive_matches_rest | done].
Qed.

Lemma strptime_FMT3_ends s t :
  strptime s FMT3 = Ok t -> last_char s = Some ")"%char.
Proof.
  unfold strptime.
  destruct (match_tokens _ s _) as [[t' rest]|] eqn:E; [| done].
  destruct rest; [| done]. intros _.
  change (tokenize false FMT3) with
    ([Directive "Y"; Lit "-"; Directive "m"; Lit "-"; Directive "d"; Spaces;
      Directive "H"; Lit ":"; Directive "M"; Lit ":"; Directive "S"; Lit ".";
      Directive "f"; Spaces; Lit "("; Lit "U"; Lit "T"; Lit "C"] ++ [Lit ")"])
    in E.
  apply match_tokens_last_literal in E as (c' & Hl & Hc).
  rewrite Hl. f_equal.
  destruct c' as [[] [] [] [] [] [] [] []]; vm_compute in Hc; congruence.
Qed.

Lemma prefix_app needle : forall s r,
  String.prefix needle s = true -> String.prefix needle (s +:+ r) = true.
Proof.
  induction needle as [|a needle IH]; intros s r;
    [intros _; by destruct (s +:+ r) |].
  destruct s as [|b s]; [done |]. rewrite append_cons. cbn [String.prefix].
  destruct (Ascii.ascii_dec a b); [apply IH | done].
Qed.

Lemma str_in_cons needle c s :
  str_in needle (String c s) =
    String.prefix needle (String c s) || str_in needle s.
Proof. reflexivity. Qed.

Lemma str_in_app needle s r :
  str_in needle s = true -> str_in needle (s +:+ r) = true.
Proof.
  induction s as [|c s IH].
  - destruct needle; [intros _; by destruct r | done].
  - rewrite append_cons, !str_in_cons. intros H.
    apply orb_true_iff in H as [H | H]; apply orb_true_iff.
    + left. rewrite <- append_cons. by apply prefix_app.
    + right. by apply IH.
Qed.

Lemma strptime_raises_ValueError s fmt e :
  strptime s fmt = Raise e -> e = ValueError.
Proof.
  unfold strptime.
  destruct (match_tokens _ _ _) as [[t' [|]]|]; [| congruence | congruence].
  destruct (_ && _ && _); congruence.
Qed.

Lemma strptime_fraction_after_suffix s :
  strptime (s +:+ ".000") FMT3 = Raise ValueError.
Proof.
  destruct (strptime (s +:+ ".000") FMT3) as [t|e] eqn:E.
  - exfalso. apply strptime_FMT3_ends in E.
    pose proof (last_char_app s ".000" "0"%char eq_refl) as H0.
    rewrite H0 in E. discriminate E.
  - f_equal. by eapply strptime_raises_ValueError.
Qed.

Section AnyStrptime.
Variable parse : string -> string -> result datetime.

Lemma getTimeDelta_alert_raises alert_time origin_time e :
  str_in "." alert_time = false ->
  str_in "UTC" (alert_time +:+ ".000") = true ->
  parse (alert_time +:+ ".000") FMT3 = Raise e ->
  getTimeDelta parse alert_time origin_time = Raise e.
Proof.
  intros Hdot Hutc Hraise. unfold getTimeDelta. cbv zeta.
  rewrite Hdot. cbn [negb]. rewrite Hutc, Hraise. reflexivity.
Qed.

End AnyStrptime.

(** X22. A time in whole seconds that carries the word UTC is never parsed:
    the fraction is appended after the suffix, and [getTimeDelta] raises
    [ValueError] whatever the other time is. *)
Theorem getTimeDelta_whole_seconds_UTC (alert_time origin_time : string) :
  str_in "UTC" alert_time = true -> str_in "." alert_time = false ->
  getTimeDelta strptime alert_time origin_time = Raise ValueError.
Proof.
  intros Hutc Hdot. apply getTimeDelta_alert_raises.
  - exact Hdot.
  - by apply str_in_app.
  - apply strptime_fraction_after_suffix.
Qed.

Lemma getTimeDelta_whole_seconds_UTC_witness :
  getTimeDelta strptime "2023-01-01 18:35:04 (UTC)" "2023-01-01T18:35:04.000" =
    Raise ValueError.
Proof.
  apply (getTimeDelta_whole_seconds_UTC "2023-01-01 18:35:04 (UTC)").
  - vm_compute. reflexivity.
  - vm_compute. reflexivity.
Defined.

End TimeSuffixFacts.

(** ** The initial and the final message of an event *)

Module MessagesFacts.
Import Messages.

Section Selection.
Context {M : Type}.
Variable version : M -> result Z.

Local Abbreviation insert_asc := (@insert_asc M).
Local Abbreviation sorted_asc := (@sorted_asc M).

(** The message has version [v]. *)
Definition has_version (v : Z) (msg : M) : bool :=
  match version msg with
  | Ok v' => (v' =? v)%Z
  | Raise _ => false
  end.

Definition key_is (v : Z) (x : Z * M) : bool := (fst x =? v)%Z.

Lemma find_app_Some {A : Type} (f : A -> bool) l1 l2 x :
  List.find f l1 = Some x -> List.find f (l1 ++ l2) = Some x.
Proof.
  induction l1 as [|y l1 IH]; cbn; [done |]. destruct (f y); [done | exact IH].
Qed.

Lemma find_app_None {A : Type} (f : A -> bool) l1 l2 :
  (forall y, y ∈ l1 -> f y = false) ->
  List.find f (l1 ++ l2) = List.find f l2.
Proof.
  induction l1 as [|y l1 IH]; cbn; intros H; [done |].
  rewrite (H y) by (apply elem_of_cons; by left).
  apply IH. intros z Hz. apply H. apply elem_of_cons. by right.
Qed.

Lemma insert_asc_perm x l : insert_asc x l ≡ₚ x :: l.
Proof.
  induction l as [|y l IH]; cbn; [done |].
  destruct (fst x <=? fst y)%Z; [done |]. rewrite IH. apply Permutation_swap.
Qed.

Lemma sorted_asc_perm l : sorted_asc l ≡ₚ l.
Proof.
  induction l as [|x l IH]; cbn; [done |]. by rewrite insert_asc_perm, IH.
Qed.

Lemma head_insert_asc x l :
  insert_asc x l !! 0 =
    Some (match l !! 0 with
          | Some y => if (fst x <=? fst y)%Z then x else y
          | None => x
          end).
Proof. destruct l as [|y l]; cbn; [done |]. by destruct (fst x <=? fst y)%Z. Qed.

Lemma last_insert_asc x l :
  last (insert_asc x l) =
    Some (match last l with
          | Some y => if forallb (fun y => (fst y <? fst x)%Z) l then x else y
          | None => x
          end).
Proof.
  induction l as [|y l IH]; cbn [Messages.insert_asc forallb]; [done |].
  destruct (fst x <=? fst y)%Z eqn:E.
  - apply Z.leb_le in E. assert ((fst y <? fst x)%Z = false) as ->
      by (apply Z.ltb_ge; lia).
    cbn [andb]. change (x :: y :: l) with ([x] ++ y :: l).
    rewrite last_app. by destruct (last (y :: l)).
  - apply Z.leb_gt in E. assert ((fst y <? fst x)%Z = true) as ->
      by (apply Z.ltb_lt; lia).
    cbn [andb]. rewrite last_cons, IH, last_cons.
    destruct (last l) eqn:El; [done |]. by apply last_None in El as ->.
Qed.

(** The head of the sorted list: the first of the least. *)
Lemma sorted_asc_head l :
  match sorted_asc l !! 0 with
  | Some m =>
      m ∈ l /\ (forall y, y ∈ l -> (fst m <= fst y)%Z) /\
      List.find (key_is (fst m)) l = Some m
  | None => l = []
  end.
Proof.
  induction l as [|x l IH]; [done |].
  unfold Messages.sorted_asc in *. cbn [foldr]. rewrite head_insert_asc.
  destruct (foldr insert_asc [] l !! 0) as [m|].
  - destruct IH as (Hin & Hmin & Hfind).
    destruct (fst x <=? fst m)%Z eqn:E.
    + apply Z.leb_le in E. split; [apply elem_of_cons; by left |]. split.
      * intros y [-> | Hy]%elem_of_cons; [lia |]. specialize (Hmin y Hy). lia.
      * cbn. unfold key_is at 1. by rewrite Z.eqb_refl.
    + apply Z.leb_gt in E. split; [apply elem_of_cons; by right |]. split.
      * intros y [-> | Hy]%elem_of_cons; [lia | by apply Hmin].
      * cbn. unfold key_is at 1.
        by rewrite (proj2 (Z.eqb_neq (fst x) (fst m))) by lia.
  - subst l. split; [apply elem_of_cons; by left |]. split.
    + intros y Hy. apply list_elem_of_singleton in Hy. by subst.
    + cbn. unfold key_is. by rewrite Z.eqb_refl.
Qed.

(** The end of the sorted list: the last of the greatest. *)
Lemma sorted_asc_last l :
  match last (sorted_asc l) with
  | Some m =>
      m ∈ l /\ (forall y, y ∈ l -> (fst y <= fst m)%Z) /\
      List.find (key_is (fst m)) (rev l) = Some m
  | None => l = []
  end.
Proof.
  induction l as [|x l IH]; [done |].
  unfold Messages.sorted_asc in *. cbn [foldr]. rewrite last_insert_asc.
  fold (sorted_asc l) in *.
  destruct (last (sorted_asc l)) as [m|].
  - destruct IH as (Hin & Hmax & Hfind). cbn [rev].
    destruct (forallb _ (sorted_asc l)) eqn:E.
    + assert (forall y, y ∈ l -> (fst y < fst x)%Z) as Hall.
      { intros y Hy. rewrite forallb_forall in E.
        apply Z.ltb_lt, E. apply list_elem_of_In. by rewrite sorted_asc_perm. }
      split; [apply elem_of_cons; by left |]. split.
      * intros y [-> | Hy]%elem_of_cons; [lia |]. specialize (Hall y Hy). lia.
      * rewrite find_app_None; [cbn; unfold key_is; by rewrite Z.eqb_refl |].
        intros y Hy. apply list_elem_of_In, in_rev, list_elem_of_In in Hy.
        specialize (Hall y Hy). unfold key_is. apply Z.eqb_neq. lia.
    + assert (exists y, y ∈ l /\ (fst x <= fst y)%Z) as (y & Hy & Hle).
      { apply not_true_iff_false in E. rewrite forallb_forall in E.
        destruct (decide (Forall (fun y => (fst y < fst x)%Z) l)) as [Hf | Hf].
        - destruct E. intros y Hy. apply Z.ltb_lt.
          eapply Forall_forall in Hf; [exact Hf |].
          apply list_elem_of_In in Hy. by rewrite sorted_asc_perm in Hy.
        - apply not_Forall_Exists in Hf; [| apply _].
          apply Exists_exists in Hf as (y & Hy & Hny). cbv [compose] in Hny.
          exists y. split; [done | lia]. }
      split; [apply elem_of_cons; by right |]. split.
      * intros z [-> | Hz]%elem_of_cons; [| by apply Hmax].
        specialize (Hmax y Hy). lia.
      * by apply find_app_Some.
  - subst l. split; [apply elem_of_cons; by left |]. split.
    + intros y Hy. apply list_elem_of_singleton in Hy. by subst.
    + cbn. unfold key_is. by rewrite Z.eqb_refl.
Qed.

Lemma with_keys_loop messages : forall acc,
  match for_each (fun keyed msg => v ← version msg; Ok (keyed ++ [(v, msg)]))
          messages acc with
  | Ok keyed =>
      exists new, keyed = acc ++ new /\ new.*2 = messages /\
                  Forall (fun x => version (snd x) = Ok (fst x)) new
  | Raise e => exists msg, msg ∈ messages /\ version msg = Raise e
  end.
Proof.
  induction messages as [|msg rest IH]; intros acc; cbn [for_each].
  - exists []. by rewrite app_nil_r.
  - destruct (version msg) as [v|e] eqn:Ev; cbn.
    + specialize (IH (acc ++ [(v, msg)])).
      destruct (for_each _ rest _) as [keyed|e].
      * destruct IH as (new & -> & Hnew & Hall).
        exists ((v, msg) :: new). rewrite <- (assoc_L (++)). cbn.
        split; [done |]. split; [by rewrite Hnew | by constructor].
      * destruct IH as (m & Hm & Hr). exists m.
        split; [apply elem_of_cons; by right | done].
    + exists msg. split; [apply elem_of_cons; by left | done].
Qed.

Lemma fmap_rev {A B : Type} (f : A -> B) (l : list A) :
  f <$> rev l = rev (f <$> l).
Proof.
  induction l as [|x l IH]; [done |]. cbn. by rewrite fmap_app, IH.
Qed.

Lemma find_keyed v (keyed : list (Z * M)) :
  Forall (fun x => version (snd x) = Ok (fst x)) keyed ->
  snd <$> List.find (key_is v) keyed = List.find (has_version v) keyed.*2.
Proof.
  induction 1 as [|x l Hx _ IH]; [done |]. cbn.
  unfold has_version at 1, key_is at 1. rewrite Hx.
  by destruct (fst x =? v)%Z.
Qed.

(** X24. The choice of the initial and of the final message: with no
    message, both stay unset; when the version of some message cannot be
    read, the error of that conversion is raised; otherwise the initial
    message is the first message of the list with the least version and
    the final message is the last message of the list with the greatest
    version. *)
Theorem select_messages_outcome (messages : list M) :
  match select_messages version (Some messages) with
  | Ok (Some (initial_message, final_message)) =>
      exists v_initial v_final,
        version initial_message = Ok v_initial /\
        version final_message = Ok v_final /\
        (forall msg, msg ∈ messages ->
           exists v, version msg = Ok v /\ (v_initial <= v <= v_final)%Z) /\
        List.find (has_version v_initial) messages = Some initial_message /\
        List.find (has_version v_final) (rev messages) = Some final_message
  | Ok None => messages = []
  | Raise e => exists msg, msg ∈ messages /\ version msg = Raise e
  end.
Proof.
  destruct messages as [|msg0 rest]; [done |].
  unfold select_messages, with_keys.
  pose proof (with_keys_loop (msg0 :: rest) []) as H.
  destruct (for_each _ (msg0 :: rest) []) as [keyed|e]; cbn [mbind]; [| done].
  destruct H as (new & -> & Hnew & Hall). cbn [app].
  cbv beta iota delta [result_bind].
  rewrite list_lookup_fmap, fmap_last.
  pose proof (sorted_asc_head new) as Hh. pose proof (sorted_asc_last new) as Hl.
  destruct (sorted_asc new !! 0) as [[vi mi]|]; cbn [fmap option_fmap option_map].
  2:{ subst new. done. }
  destruct (last (sorted_asc new)) as [[vf mf]|]; cbn [fmap option_fmap option_map].
  2:{ subst new. done. }
  destruct Hh as (Hini & Hmin & Hfi), Hl as (Hfin & Hmax & Hff). cbn [fst snd] in *.
  assert (forall x, x ∈ new -> version (snd x) = Ok (fst x)) as Hv.
  { intros x Hx. eapply Forall_forall in Hall; [exact Hall | done]. }
  exists vi, vf. split; [exact (Hv _ Hini) |]. split; [exact (Hv _ Hfin) |].
  split; [| split].
  - intros msg Hmsg. rewrite <- Hnew in Hmsg.
    apply list_elem_of_fmap in Hmsg as ([v m] & -> & Hx). exists v.
    split; [exact (Hv _ Hx) |]. specialize (Hmin _ Hx). specialize (Hmax _ Hx).
    cbn in *. lia.
  - rewrite <- Hnew, <- (find_keyed vi new Hall), Hfi. done.
  - rewrite <- Hnew. rewrite <- (fmap_rev snd new).
    rewrite <- (find_keyed vf (rev new)), Hff; [done |].
    apply Forall_forall. intros x Hx. apply Hv.
    by apply list_elem_of_In, in_rev, list_elem_of_In in Hx.
Qed.

End Selection.
End MessagesFacts.

(** ** Polygon strings as lists of numbers *)

Module LatLonFacts.
Import PyStr LatLon.

Section Numeric.
Variable py_split : string -> list string.
Variable py_float : string -> option Q.

Definition swap_pair (p : Q * Q) : Q * Q := (snd p, fst p).

Lemma numeric_pair_rev k :
  match numeric_pair py_float k true, numeric_pair py_float k false with
  | Ok a, Ok b => a = swap_pair b
  | Raise e, Raise e' => e = ValueError /\ e' = ValueError
  | _, _ => False
  end.
Proof.
  unfold numeric_pair, to_float.
  destruct (split_on "," k) as [|la [|lo [|? ?]]]; try done.
  destruct (py_float la), (py_float lo); done.
Qed.

Lemma numeric_loop_rev l : forall acc acc',
  acc = swap_pair <$> acc' ->
  match for_each (fun NumericList k =>
                    kk ← numeric_pair py_float k true; Ok (NumericList ++ [kk]))
          l acc,
        for_each (fun foo k =>
                    kk ← numeric_pair py_float k false; Ok (foo ++ [kk]))
          l acc' with
  | Ok a, Ok b => a = swap_pair <$> b /\ length b = length acc' + length l
  | Raise e, Raise e' => e = ValueError /\ e' = ValueError
  | _, _ => False
  end.
Proof.
  induction l as [|k l IH]; intros acc acc' Hacc; cbn [for_each].
  - split; [done | cbn; lia].
  - pose proof (numeric_pair_rev k) as Hk.
    destruct (numeric_pair py_float k true) as [a|e],
             (numeric_pair py_float k false) as [b|e']; try done.
    cbn. specialize (IH (acc ++ [a]) (acc' ++ [b])).
    destruct (for_each _ l (acc ++ [a])), (for_each _ l (acc' ++ [b]));
      try (apply IH; rewrite fmap_app; cbn; by rewrite Hacc, Hk).
    destruct IH as [-> Hlen]; [rewrite fmap_app; cbn; by rewrite Hacc, Hk |].
    split; [done |]. rewrite length_app in Hlen. cbn in *. lia.
Qed.

(** X25. The two readings of a polygon string in [ParseJSONContent] agree:
    [latlon_list_to_numeric(s.split(), 1)] and [latlon_string_to_list(s, 0)]
    either both raise [ValueError] or both return, one pair per token, and
    the first list is the second with the members of every pair
    exchanged. *)
Theorem numeric_list_is_swapped_list (s : string) :
  match latlon_list_to_numeric py_float (py_split s) true,
        latlon_string_to_list py_split py_float s false with
  | Ok lonlat, Ok latlon =>
      lonlat = swap_pair <$> latlon /\ length latlon = length (py_split s)
  | Raise e, Raise e' => e = ValueError /\ e' = ValueError
  | _, _ => False
  end.
Proof.
  unfold latlon_list_to_numeric, latlon_string_to_list.
  by apply (numeric_loop_rev (py_split s) [] []).
Qed.

End Numeric.
End LatLonFacts.

(** ** The display contour of the initial alert *)

Module DisplayContourFacts.
Import ShakeAlertParser LatLon ParseJSON.
Import GetPolygonsFacts PointInPolyFacts LatLonFacts.

Section WithPolygon.
Context {P : Type}.
Implicit Types (l : list (Z * P)) (d : gmap Z P).









End WithPolygon.






Section Blocks.
Variable strip : string -> string.
Variable py_split : string -> list string.
Variable py_float : string -> option Q.

(** A polygon string that the two readers of coordinates accept: every
    piece between blanks is two numerals with a comma between them. *)
Definition readable (polygon_string : string) : Prop :=
  exists latlon_list,
    latlon_string_to_list py_split py_float polygon_string false = Ok latlon_list.


(** The contour lists on which a block does not raise: no MMI is negative,
    the polygon strings are readable, and [parse_gm_contours] accepts the
    list (its polygons are closed). *)
Definition accepted (gm_contours : list ContourParser.contour_json_d) : Prop :=
  Forall (fun c => (0 <= ContourParser.d_mmi c)%Z) gm_contours /\
  Forall (fun c => readable (ContourParser.d_polygon c)) gm_contours /\
  exists parsed_contours, parse_contours strip gm_contours = Ok parsed_contours.





End Blocks.

(** The thresholds that the unit tests of [GMContourFilter] expect of the
    configuration file: magnitude 4.9 is a small event with minimum MMI 3,
    magnitude 5.0 a large one with minimum MMI 4. *)
Definition test_config : config := MkConfig 5 3 4.

(** Contours of an initial alert at MMI 2 to 6, as in the unit-test
    fixture, each with a closed polygon of its own. *)
Definition initial_contours_sample : list ContourParser.contour_json_d :=
  [ ContourParser.MkContourJsonD 3 None None
      "33.0,-119.0 33.0,-116.0 36.0,-116.0 36.0,-119.0 33.0,-119.0";
    ContourParser.MkContourJsonD 6 None None
      "34.25,-117.75 34.25,-117.25 34.75,-117.25 34.75,-117.75 34.25,-117.75";
    ContourParser.MkContourJsonD 2 None None
      "32.0,-120.0 32.0,-115.0 37.0,-115.0 37.0,-120.0 32.0,-120.0";
    ContourParser.MkContourJsonD 5 None None
      "34.0,-118.0 34.0,-117.0 35.0,-117.0 35.0,-118.0 34.0,-118.0";
    ContourParser.MkContourJsonD 4 None None
      "33.5,-118.5 33.5,-116.5 35.5,-116.5 35.5,-118.5 33.5,-118.5" ].

Lemma initial_contours_sample_accepted :
  accepted PyStr.strip_ws PyStr.split_ws PyStr.plain_float initial_contours_sample.
Proof.
  split; [repeat constructor; cbn; lia |]. split.
  - repeat constructor; eexists; vm_compute; reflexivity.
  - eexists. vm_compute. reflexivity.
Qed.




(** The property of the specification's test list: MMI 2 to 6, a small
    event, [MMISmall = 3]. *)
Example display_contour_present :
  initial_polygonList <$>
    initial_block PyStr.strip_ws PyStr.split_ws PyStr.plain_float 3
      initial_contours_sample =
    Ok [(3%Z, [(33, -119); (33, -116); (36, -116); (36, -119); (33, -119)]%Q)].
Proof. vm_compute. reflexivity. Qed.

Example display_contour_numeric :
  initial_polygonNumericList <$>
    initial_block PyStr.strip_ws PyStr.split_ws PyStr.plain_float 3
      initial_contours_sample =
    Ok [(-119, 33); (-116, 33); (-116, 36); (-119, 36); (-119, 33)]%Q.
Proof. vm_compute. reflexivity. Qed.

Example display_contour_absent :
  initial_polygonList <$>
    initial_block PyStr.strip_ws PyStr.split_ws PyStr.plain_float 3
      [ ContourParser.MkContourJsonD 6 None None
          "34.25,-117.75 34.75,-117.25 34.25,-117.75";
        ContourParser.MkContourJsonD 2 None None
          "32.0,-120.0 37.0,-115.0 32.0,-120.0";
        ContourParser.MkContourJsonD 5 None None
          "34.0,-118.0 35.0,-117.0 34.0,-118.0" ] =
    Ok [(2%Z, [(32, -120); (37, -115); (32, -120)]%Q)].
Proof. vm_compute. reflexivity. Qed.

(** The block raises on an empty list ([min] of no keys), on a polygon
    string that [float] does not read, and on a polygon that is not
    closed. *)
Example initial_block_empty :
  initial_block PyStr.strip_ws PyStr.split_ws PyStr.plain_float 3 [] =
    Raise ValueError.
Proof. reflexivity. Qed.

Example initial_block_unreadable :
  initial_block PyStr.strip_ws PyStr.split_ws PyStr.plain_float 3
    [ ContourParser.MkContourJsonD 3 None None "i3" ] = Raise ValueError.
Proof. vm_compute. reflexivity. Qed.

Example initial_block_open_polygon :
  initial_block PyStr.strip_ws PyStr.split_ws PyStr.plain_float 3
    [ ContourParser.MkContourJsonD 3 None None
        "33.0,-119.0 33.0,-116.0 36.0,-116.0" ] = Raise ValueError.
Proof. vm_compute. reflexivity. Qed.




End DisplayContourFacts.

(** ** The minimum-MMI threshold of the three snapshots *)

Module ThresholdFacts.
Import ShakeAlertParser LatLon ParseJSON.
Import GetPolygonsFacts PointInPolyFacts LatLonFacts DisplayContourFacts.


Section Blocks.
Variable strip : string -> string.
Variable py_split : string -> list string.
Variable py_float : string -> option Q.





(** The contour lists of an event on which the blocks do not raise: each
    list present is accepted and the initial list, when present, has a
    contour. *)
Definition contours_well_formed (ev : event) : Prop :=
  (forall cs, initial_gm_contours ev = Some cs ->
              cs <> [] /\ accepted strip py_split py_float cs) /\
  (forall cs, peak_mag_gm_contours ev = Some cs ->
              accepted strip py_split py_float cs) /\
  (forall cs, final_gm_contours ev = Some cs ->
              accepted strip py_split py_float cs).












End Blocks.

(** An event whose alert grew: initial magnitude 4.0, peak and final
    magnitude 6.0, no ANSS origin; the final message has contours at MMI 3,
    4 and 5. *)
Definition growing_event : event :=
  MkEvent None 4 6 6
    (Some [ ContourParser.MkContourJsonD 3 None None
              "34.0,-118.0 34.0,-117.0 35.0,-117.0 34.0,-118.0";
            ContourParser.MkContourJsonD 2 None None
              "33.0,-119.0 33.0,-116.0 36.0,-116.0 33.0,-119.0" ])
    (Some [ ContourParser.MkContourJsonD 5 None None
              "34.25,-117.75 34.25,-117.25 34.75,-117.25 34.25,-117.75";
            ContourParser.MkContourJsonD 4 None None
              "34.0,-118.0 34.0,-117.0 35.0,-117.0 34.0,-118.0";
            ContourParser.MkContourJsonD 3 None None
              "33.0,-119.0 33.0,-116.0 36.0,-116.0 33.0,-119.0" ])
    (Some [ ContourParser.MkContourJsonD 5 None None
              "34.5,-117.5 34.5,-117.0 35.0,-117.0 34.5,-117.5";
            ContourParser.MkContourJsonD 4 None None
              "34.0,-118.0 34.0,-117.0 35.0,-117.0 34.0,-118.0";
            ContourParser.MkContourJsonD 3 None None
              "33.0,-119.0 33.0,-116.0 36.0,-116.0 33.0,-119.0" ]).


Example growing_event_threshold :
  MMItoUse_after <$>
    ParseJSONContent PyStr.strip_ws PyStr.split_ws PyStr.plain_float
      test_config (MMItoUse_at_load test_config) growing_event = Ok 3%Z.
Proof. vm_compute. reflexivity. Qed.





Lemma growing_event_well_formed :
  contours_well_formed PyStr.strip_ws PyStr.split_ws PyStr.plain_float
    growing_event.
Proof.
  unfold contours_well_formed, growing_event. cbn.
  split; [|split]; intros cs [= <-]; [split; [discriminate |] | |];
    (split; [repeat constructor; cbn; lia |]; split;
       [repeat constructor; eexists; vm_compute; reflexivity
       | eexists; vm_compute; reflexivity]).
Qed.

(** The filter of [PDFCreate], applied as [drawEarthquakeImagesSection] applies it
    with the snapshot's own magnitude, drops the MMI-3 contour of the final
    alert. *)
Example GMContourFilter_on_final_magnitude :
  PDFCreate.filter_gm_contours fst (PDFCreate.MkGMContourFilter 5 3 4)
    [(5, "f5"); (4, "f4"); (3, "f3")]%Z (mag growing_event) =
    [(5, "f5"); (4, "f4")]%Z.
Proof. reflexivity. Qed.

End ThresholdFacts.
